(** * A shallow embedding of the matching engine's order book

    Source: [src/MatchAngin/MatchEngine.cpp], classes [Order], [PriceLevel]
    and [OrderBook].

    Conventions of the embedding.

    - [int] is a 32-bit signed integer.  It is a [Z]; every arithmetic
      operation of the source goes through [int], which yields the exact
      result when it is representable and nothing otherwise (signed overflow
      has no defined result in C++).
    - [double] prices are only ever compared ([<=], [<], [==], hashing),
      truncated to [int] and printed by the source; no arithmetic is done on
      them.  A finite double is a rational and those operations are exact on
      it, so a price is a canonical rational [Qc].  Not-a-number and the
      infinities are outside the model.  A price that is streamed into a
      message becomes the text that [operator<<] gives it, [stream_double].
    - [std::shared_ptr<Order>] is an address [ptr] into a store of [Order]
      objects.  The same address sits in [order_id_map] and in the queue of
      a level, so a write through one is seen through the other.  An object
      is freed when neither [order_id_map] nor a queue holds its address any
      more.  The store keeps the freed objects; the one place of the source
      that reads an order through a stale reference ([execute_trades], after
      [orders.erase]) checks whether the object still has an owner, and ends
      in [Undefined] when it has none.
    - [std::shared_ptr<PriceLevel>] has a single owner (the price map), so a
      level is stored by value in the map and written back after a change.
    - An exception leaves the function with the state reached at the
      [throw]; a null or dangling dereference and a signed overflow end in
      [Undefined]. *)

From stdpp Require Import gmap list numbers pretty strings sorting.
From Stdlib Require Import QArith Qcanon ZArith.

Local Open Scope Z_scope.

(** ** Machine integers and prices *)

Definition INT_MIN : Z := -2147483648.
Definition INT_MAX : Z := 2147483647.

(** The value of an [int] expression whose exact result is [z]. *)
Definition int (z : Z) : option Z :=
  if decide (INT_MIN ≤ z ≤ INT_MAX) then Some z else None.

Abbreviation double := Qc (only parsing).

(** The literal [-1] returned by [get_best_bid] and [get_best_ask]. *)
Definition minus_one : Qc := Q2Qc (-1 # 1).

(** Conversion of an [int] to [double] (exact). *)
Definition of_int (z : Z) : Qc := Q2Qc (inject_Z z).

(** Conversion of a [double] to [int]: truncation toward zero, defined
    when the truncated value is representable. *)
Definition to_int (d : Qc) : option Z :=
  int (Z.quot (Qnum (this d)) (Z.pos (Qden (this d)))).

(** ** Exceptions and results *)

Inductive exn : Type :=
| invalid_argument (what : string)
| runtime_error (what : string)
| out_of_range (what : string).

Inductive result (A : Type) : Type :=
| Ok (a : A)
| Throw (e : exn)
| Fault.
Arguments Ok {A} a.
Arguments Throw {A} e.
Arguments Fault {A}.

(** ** Orders *)

Abbreviation ptr := positive (only parsing).

Module Order.
Record t : Type := mk {
  id : Z;
  is_buy : bool;
  quantity : Z;
  price : Qc;
  client_id : Z
}.

Definition set_quantity (q : Z) (o : t) : t :=
  mk (id o) (is_buy o) q (price o) (client_id o).
End Order.

Abbreviation store := (gmap positive Order.t) (only parsing).

(** [p->quantity -= n] for a pointer [p]. *)
Definition sub_quantity (p : ptr) (n : Z) (h : store) : option store :=
  o ← h !! p;
  q ← int (Order.quantity o - n);
  Some (<[p := Order.set_quantity q o]> h).

(** ** Price levels *)

Module PriceLevel.
Record t : Type := mk {
  price : Qc;
  orders : list ptr;
  total_quantity : Z
}.

Definition new (prc : Qc) : t := mk prc [] 0.

(** [add_order]: [orders.push_back(order); total_quantity += order->quantity]. *)
Definition add_order (h : store) (order : ptr) (lvl : t) : option t :=
  o ← h !! order;
  total ← int (total_quantity lvl + Order.quantity o);
  Some (mk (price lvl) (orders lvl ++ [order]) total).

(** The loop of [remove_order]: the first element whose [id] is
    [order_id] is erased; the result is its quantity and the remaining
    vector, or [None] when the loop runs to the end. *)
Fixpoint erase_first (h : store) (order_id : Z) (l : list ptr)
  : option (option (Z * list ptr)) :=
  match l with
  | [] => Some None
  | it :: rest =>
      o ← h !! it;
      if decide (Order.id o = order_id)
      then Some (Some (Order.quantity o, rest))
      else match erase_first h order_id rest with
           | Some (Some (q, l')) => Some (Some (q, it :: l'))
           | r => r
           end
  end.

Definition remove_order (h : store) (order_id : Z) (lvl : t) : result t :=
  match erase_first h order_id (orders lvl) with
  | None => Fault
  | Some None => Throw (runtime_error "Order not found in PriceLevel")
  | Some (Some (q, l)) =>
      match int (total_quantity lvl - q) with
      | Some total => Ok (mk (price lvl) l total)
      | None => Fault
      end
  end.

Definition set_total (n : Z) (lvl : t) : t := mk (price lvl) (orders lvl) n.
Definition set_orders (l : list ptr) (lvl : t) : t :=
  mk (price lvl) l (total_quantity lvl).
End PriceLevel.

(** ** The order book *)

(** *** The text of a [double]

    [msg << best_ask] on a [std::stringstream] with its default flags formats
    the [double] like [printf] with [%g] and a precision of 6: the value is
    rounded to 6 significant digits; with [X] the decimal exponent of the
    rounded value, the scientific style is used if [X < -4] or [X >= 6] and
    the fixed style with [5 - X] decimals otherwise; trailing zeros of the
    fraction, and a point that nothing follows, are removed.  An exactly
    representable tie is rounded to even, as IEEE 754 prescribes and the C
    libraries in use do. *)

(** The last [n] decimal digits of [z], most significant first. *)
Fixpoint digits (n : nat) (z : Z) : string :=
  match n with
  | O => EmptyString
  | S n => digits n (z / 10) +:+ pretty (z mod 10)
  end.

(** [s] without its trailing zeros. *)
Fixpoint strip_zeros (s : string) : string :=
  match s with
  | EmptyString => EmptyString
  | String c s =>
      match strip_zeros s with
      | EmptyString =>
          if decide (String c EmptyString = "0") then EmptyString
          else String c EmptyString
      | r => String c r
      end
  end.

(** The least [k' >= k] with [d <= n * 10^k'], found in at most [fuel]
    steps. *)
Fixpoint first_power (fuel : nat) (n d k : Z) : Z :=
  match fuel with
  | O => k
  | S fuel => if decide (d ≤ n * 10 ^ k) then k else first_power fuel n d (k + 1)
  end.

(** The decimal exponent of [n / d], for positive [n] and [d]: the [e] with
    [10^e <= n / d < 10^(e+1)]. *)
Definition exponent (n d : Z) : Z :=
  if decide (d ≤ n)
  then Z.of_nat (String.length (pretty (n / d))) - 1
  else - first_power (Z.to_nat (Z.log2 d) + 1) n d 1.

(** [n / d] rounded to an integer, ties to even. *)
Definition round_half_even (n d : Z) : Z :=
  let q := n / d in
  let r := n mod d in
  if decide (2 * r < d) then q
  else if decide (d < 2 * r) then q + 1
  else if Z.even q then q else q + 1.

Definition stream_double (x : double) : string :=
  let n := Z.abs (Qnum (this x)) in
  let d := Z.pos (Qden (this x)) in
  if decide (n = 0) then "0"
  else
    let e := exponent n d in
    let m := if decide (e ≤ 5)
             then round_half_even (n * 10 ^ (5 - e)) d
             else round_half_even n (d * 10 ^ (e - 5)) in
    let '(m, e) := if decide (m = 1000000) then (100000, e + 1) else (m, e) in
    let sign := if decide (Qnum (this x) < 0) then "-" else "" in
    if decide (e < -4 ∨ 6 ≤ e)
    then
      let fraction := strip_zeros (digits 5 m) in
      sign +:+ pretty (m / 100000)
           +:+ (if decide (fraction = "") then "" else "." +:+ fraction)
           +:+ "e" +:+ (if decide (e < 0) then "-" else "+")
           +:+ (if decide (Z.abs e < 10) then "0" else "") +:+ pretty (Z.abs e)
    else
      let k := 5 - e in
      let fraction := strip_zeros (digits (Z.to_nat k) m) in
      sign +:+ pretty (m / 10 ^ k)
           +:+ (if decide (fraction = "") then "" else "." +:+ fraction).

(** A trade message, by the four items streamed into it, which single
    spaces separate: ["TRADE " << bid id << " " << ask id << " " <<
    trade_qty << " " << best_ask].  The three [int]s are printed in full;
    the price is the text that the stream gives the [double]. *)
Record Trade : Type := TRADE {
  buy_id : Z;
  sell_id : Z;
  trade_qty : Z;
  trade_price : string
}.

(** [std::max_element] and [std::min_element] over a non-empty range whose
    first element is [x]: the first largest (smallest) element for [<]. *)
Definition max_element (x : Qc) (l : list Qc) : Qc :=
  foldl (λ largest y, if decide (largest < y)%Qc then y else largest) x l.
Definition min_element (x : Qc) (l : list Qc) : Qc :=
  foldl (λ smallest y, if decide (y < smallest)%Qc then y else smallest) x l.

(** [m.emplace(k, v)]: nothing happens when the key is present. *)
Definition emplace `{Countable K} {A} (k : K) (v : A) (m : gmap K A) : gmap K A :=
  match m !! k with
  | Some _ => m
  | None => <[k := v]> m
  end.

Module OrderBook.
Record t : Type := mk {
  bid_prices : gset Qc;
  ask_prices : gset Qc;
  bid_price_map : gmap Qc PriceLevel.t;
  ask_price_map : gmap Qc PriceLevel.t;
  order_id_map : gmap Z ptr;
  current_order_id : Z
}.

(** [OrderBook()] *)
Definition new : t := mk ∅ ∅ ∅ ∅ ∅ 0.

(** The source has one branch for the bid containers and a textually
    identical one for the ask containers; [prices], [price_map] and
    [with_side] select and replace the pair of containers of one side. *)
Definition prices (buy : bool) (b : t) : gset Qc :=
  if buy then bid_prices b else ask_prices b.
Definition price_map (buy : bool) (b : t) : gmap Qc PriceLevel.t :=
  if buy then bid_price_map b else ask_price_map b.
Definition with_side (buy : bool) (ps : gset Qc) (m : gmap Qc PriceLevel.t)
    (b : t) : t :=
  if buy
  then mk ps (ask_prices b) m (ask_price_map b)
          (order_id_map b) (current_order_id b)
  else mk (bid_prices b) ps (bid_price_map b) m
          (order_id_map b) (current_order_id b).
Definition with_index (ix : gmap Z ptr) (b : t) : t :=
  mk (bid_prices b) (ask_prices b) (bid_price_map b) (ask_price_map b)
     ix (current_order_id b).
Definition with_counter (n : Z) (b : t) : t :=
  mk (bid_prices b) (ask_prices b) (bid_price_map b) (ask_price_map b)
     (order_id_map b) n.

Definition get_best_bid (b : t) : Qc :=
  match elements (bid_prices b) with
  | [] => minus_one
  | x :: l => max_element x l
  end.

Definition get_best_ask (b : t) : Qc :=
  match elements (ask_prices b) with
  | [] => minus_one
  | x :: l => min_element x l
  end.
End OrderBook.

(** The state of the program: the [Order] objects and the book. *)
Record state : Type := State {
  heap : store;
  book : OrderBook.t
}.

Inductive outcome (A : Type) : Type :=
| Returns (a : A) (σ : state)
| Throws (e : exn) (σ : state)
| Undefined.
Arguments Returns {A} a σ.
Arguments Throws {A} e σ.
Arguments Undefined {A}.

Definition initial : state := State ∅ OrderBook.new.

(** *** [OrderBook::add_order] *)

Definition add_order (σ : state) (is_buy : bool) (quantity : Z) (price : Qc)
    (client_id : Z) : outcome Z :=
  let b := book σ in
  if decide (quantity ≤ 0 ∨ (price ≤ 0)%Qc)
  then Throws (invalid_argument "Quantity and price must be positive") σ
  else
    match int (OrderBook.current_order_id b + 1) with
    | None => Undefined
    | Some n =>
        let order := fresh (dom (heap σ)) in
        let h := <[order := Order.mk n is_buy quantity price client_id]> (heap σ) in
        let b1 := OrderBook.with_index (emplace n order (OrderBook.order_id_map b))
                    (OrderBook.with_counter n b) in
        match OrderBook.price_map is_buy b !! price with
        | Some level =>
            match PriceLevel.add_order h order level with
            | Some level' =>
                Returns n (State h
                  (OrderBook.with_side is_buy (OrderBook.prices is_buy b)
                     (<[price := level']> (OrderBook.price_map is_buy b)) b1))
            | None => Undefined
            end
        | None =>
            match PriceLevel.add_order h order (PriceLevel.new price) with
            | Some level =>
                Returns n (State h
                  (OrderBook.with_side is_buy ({[price]} ∪ OrderBook.prices is_buy b)
                     (<[price := level]> (OrderBook.price_map is_buy b)) b1))
            | None => Undefined
            end
        end
    end.

(** *** [OrderBook::cancel_order]

    [bid_price_map[order->price]] on a missing key inserts a null pointer,
    which [level->remove_order] then dereferences. *)

Definition cancel_order (σ : state) (order_id : Z) : outcome unit :=
  let b := book σ in
  match OrderBook.order_id_map b !! order_id with
  | None => Throws (runtime_error "Order not found") σ
  | Some it =>
      match heap σ !! it with
      | None => Undefined
      | Some order =>
          let side := Order.is_buy order in
          let prc := Order.price order in
          match OrderBook.price_map side b !! prc with
          | None => Undefined
          | Some level =>
              match PriceLevel.remove_order (heap σ) order_id level with
              | Fault => Undefined
              | Throw e => Throws e σ
              | Ok level' =>
                  let b1 :=
                    if decide (PriceLevel.total_quantity level' = 0)
                    then OrderBook.with_side side
                           (OrderBook.prices side b ∖ {[prc]})
                           (delete prc (OrderBook.price_map side b)) b
                    else OrderBook.with_side side (OrderBook.prices side b)
                           (<[prc := level']> (OrderBook.price_map side b)) b in
                  Returns tt (State (heap σ)
                    (OrderBook.with_index
                       (delete order_id (OrderBook.order_id_map b1)) b1))
              end
          end
      end
  end.

(** *** [OrderBook::execute_trades]

    One pass through the body of [while (true)].  [bid_order] and
    [ask_order] are references to slot 0 of the two vectors ([auto& ... =
    orders.front()]), not copies of the pointers found there. *)

Inductive iteration : Type :=
| Break
| Cleanup (σ : state)
| Fill (msg : Trade) (σ : state)
| Crash.

(** The owners of an [Order] object: [order_id_map] and the queues. *)
Definition indexed (ix : gmap Z ptr) (p : ptr) : Prop :=
  map_Exists (λ _ q, q = p) ix.
Definition holds (m : gmap Qc PriceLevel.t) (p : ptr) : Prop :=
  map_Exists (λ _ lvl, p ∈ PriceLevel.orders lvl) m.

(** Lines 228-232 and 233-237.  [orders.erase(orders.begin())] moves the
    later elements one slot down, so the reference to slot 0 then
    designates the order that was second in the queue, and it is the [id]
    of that order that [order_id_map.erase] receives.  When the erased
    element was the only one, the slot keeps the address of the order just
    removed, which the erase has freed unless the order has another owner
    ([owned]); reading the [id] of a freed order has no defined result. *)
Definition erase_filled (h : store) (owned : bool) (front : ptr)
    (lvl : PriceLevel.t) (ix : gmap Z ptr)
    : option (PriceLevel.t * gmap Z ptr) :=
  o ← h !! front;
  if decide (Order.quantity o = 0)
  then
    let rest := tail (PriceLevel.orders lvl) in
    slot ← match head rest with
           | Some next => h !! next
           | None => if owned then h !! front else None
           end;
    Some (PriceLevel.set_orders rest lvl, delete (Order.id slot) ix)
  else Some (lvl, ix).

(** Lines 240-244 and 245-249; a level that stays is written back. *)
Definition erase_if_empty (buy : bool) (prc : Qc) (lvl : PriceLevel.t)
    (b : OrderBook.t) : OrderBook.t :=
  match PriceLevel.orders lvl with
  | [] => OrderBook.with_side buy (OrderBook.prices buy b ∖ {[prc]})
            (delete prc (OrderBook.price_map buy b)) b
  | _ :: _ => OrderBook.with_side buy (OrderBook.prices buy b)
            (<[prc := lvl]> (OrderBook.price_map buy b)) b
  end.

(** Lines 212-249, once both levels are known to have an order.  At each of
    the two erases the other owners of the erased order are [order_id_map]
    as it is at that line and the queues of the other levels; the queue of
    the bid level is the one left by the first erase. *)
Definition fill (σ : state) (best_bid best_ask : Qc)
    (bid_level ask_level : PriceLevel.t) (bid_order ask_order : ptr)
    : option (Trade * state) :=
  let b := book σ in
  bo ← heap σ !! bid_order;
  ao ← heap σ !! ask_order;
  let trade_qty := Z.min (Order.quantity bo) (Order.quantity ao) in
  let msg := TRADE (Order.id bo) (Order.id ao) trade_qty
                   (stream_double best_ask) in
  h1 ← sub_quantity bid_order trade_qty (heap σ);
  h2 ← sub_quantity ask_order trade_qty h1;
  bid_total ← int (PriceLevel.total_quantity bid_level - trade_qty);
  ask_total ← int (PriceLevel.total_quantity ask_level - trade_qty);
  let bid_owned :=
    bool_decide (indexed (OrderBook.order_id_map b) bid_order
                 ∨ holds (delete best_bid (OrderBook.bid_price_map b)) bid_order
                 ∨ holds (OrderBook.ask_price_map b) bid_order) in
  '(bid_level', ix1) ← erase_filled h2 bid_owned bid_order
      (PriceLevel.set_total bid_total bid_level) (OrderBook.order_id_map b);
  let ask_owned :=
    bool_decide (indexed ix1 ask_order
                 ∨ holds (<[best_bid := bid_level']> (OrderBook.bid_price_map b))
                         ask_order
                 ∨ holds (delete best_ask (OrderBook.ask_price_map b)) ask_order) in
  '(ask_level', ix2) ← erase_filled h2 ask_owned ask_order
      (PriceLevel.set_total ask_total ask_level) ix1;
  Some (msg,
        State h2
          (erase_if_empty false best_ask ask_level'
             (erase_if_empty true best_bid bid_level'
                (OrderBook.with_index ix2 b)))).

(** Lines 196-210: the clean-up of a level found empty. *)
Definition cleanup (σ : state) (best_bid best_ask : Qc)
    (bid_level ask_level : PriceLevel.t) : state :=
  let b := book σ in
  let b1 :=
    match PriceLevel.orders bid_level with
    | [] => OrderBook.with_side true (OrderBook.prices true b ∖ {[best_bid]})
              (delete best_bid (OrderBook.price_map true b)) b
    | _ :: _ => b
    end in
  let b2 :=
    match PriceLevel.orders ask_level with
    | [] => OrderBook.with_side false (OrderBook.prices false b1 ∖ {[best_ask]})
              (delete best_ask (OrderBook.price_map false b1)) b1
    | _ :: _ => b1
    end in
  State (heap σ) b2.

Definition iterate (σ : state) : iteration :=
  let b := book σ in
  let best_bid := OrderBook.get_best_bid b in
  let best_ask := OrderBook.get_best_ask b in
  if decide (best_bid = minus_one ∨ best_ask = minus_one ∨ (best_bid < best_ask)%Qc)
  then Break
  else
    match OrderBook.bid_price_map b !! best_bid,
          OrderBook.ask_price_map b !! best_ask with
    | Some bid_level, Some ask_level =>
        match PriceLevel.orders bid_level, PriceLevel.orders ask_level with
        | bid_order :: _, ask_order :: _ =>
            match fill σ best_bid best_ask bid_level ask_level bid_order ask_order with
            | Some (msg, σ') => Fill msg σ'
            | None => Crash
            end
        | _, _ => Cleanup (cleanup σ best_bid best_ask bid_level ask_level)
        end
    | _, _ => Crash
    end.

(** The loop, bounded by [fuel] passes; [None] when they are used up. *)
Fixpoint execute_trades_loop (fuel : nat) (σ : state)
    (trade_messages : list Trade) : option (outcome (list Trade)) :=
  match fuel with
  | O => None
  | S fuel =>
      match iterate σ with
      | Break => Some (Returns trade_messages σ)
      | Cleanup σ' => execute_trades_loop fuel σ' trade_messages
      | Fill msg σ' => execute_trades_loop fuel σ' (trade_messages ++ [msg])
      | Crash => Some Undefined
      end
  end.

Definition execute_trades (fuel : nat) (σ : state) : option (outcome (list Trade)) :=
  execute_trades_loop fuel σ [].

(** *** [OrderBook::get_order_book_string]

    [std::vector<int> bid_prices_sorted(bid_prices.begin(), bid_prices.end())]
    converts every price to [int]; the loop variable [price] is an [int] and
    [bid_price_map.at(price)] converts it back to look the level up. *)

Definition newline : string := String (Ascii.ascii_of_nat 10) EmptyString.

Fixpoint to_ints (l : list Qc) : option (list Z) :=
  match l with
  | [] => Some []
  | d :: l => z ← to_int d; zs ← to_ints l; Some (z :: zs)
  end.

Fixpoint print_levels (m : gmap Qc PriceLevel.t) (l : list Z) (ss : string)
    : result string :=
  match l with
  | [] => Ok ss
  | price :: l =>
      match m !! of_int price with
      | None => Throw (out_of_range "invalid unordered_map<K, T> key")
      | Some level =>
          print_levels m l
            (ss +:+ "  " +:+ pretty price +:+ " : "
                +:+ pretty (PriceLevel.total_quantity level) +:+ newline)
      end
  end.

Definition get_order_book_string (σ : state) : result string :=
  let b := book σ in
  match to_ints (elements (OrderBook.bid_prices b)) with
  | None => Fault
  | Some bids =>
      let bid_prices_sorted := merge_sort Z.ge bids in
      match print_levels (OrderBook.bid_price_map b) bid_prices_sorted
              ("BIDS:" +:+ newline) with
      | Ok ss =>
          match to_ints (elements (OrderBook.ask_prices b)) with
          | None => Fault
          | Some asks =>
              let ask_prices_sorted := merge_sort Z.le asks in
              print_levels (OrderBook.ask_price_map b) ask_prices_sorted
                (ss +:+ "ASKS:" +:+ newline)
          end
      | r => r
      end
  end.

(** *** [OrderBook::get_status] *)

Definition get_status (σ : state) : string :=
  let b := book σ in
  "Orders: " +:+ pretty (Z.of_nat (size (OrderBook.order_id_map b)))
  +:+ ", Bid levels: " +:+ pretty (Z.of_nat (size (OrderBook.bid_price_map b)))
  +:+ ", Ask levels: " +:+ pretty (Z.of_nat (size (OrderBook.ask_price_map b))).

(** * Invariants of the book *)

(** The sum of [quantity] over the orders of a queue. *)
Definition sum_quantity (h : store) (l : list ptr) : Z :=
  foldr (λ p acc, from_option Order.quantity 0 (h !! p) + acc) 0 l.

(** An order resting in the queue of the level at [prc] on side [buy]. *)
Definition order_ok (h : store) (n : Z) (buy : bool) (prc : Qc) (p : ptr) : Prop :=
  ∃ o, h !! p = Some o
       ∧ Order.is_buy o = buy
       ∧ Order.price o = prc
       ∧ 1 ≤ Order.quantity o ≤ INT_MAX
       ∧ 1 ≤ Order.id o ≤ n.

Record level_ok (h : store) (n : Z) (buy : bool) (prc : Qc)
    (lvl : PriceLevel.t) : Prop := {
  lvl_price : PriceLevel.price lvl = prc;
  lvl_positive : (0 < prc)%Qc;
  lvl_nonempty : PriceLevel.orders lvl ≠ [];
  lvl_nodup : NoDup (PriceLevel.orders lvl);
  lvl_orders : Forall (order_ok h n buy prc) (PriceLevel.orders lvl);
  lvl_total : PriceLevel.total_quantity lvl = sum_quantity h (PriceLevel.orders lvl);
  lvl_range : PriceLevel.total_quantity lvl ≤ INT_MAX
}.

Record book_inv (σ : state) : Prop := {
  inv_dom : ∀ buy,
    dom (OrderBook.price_map buy (book σ)) = OrderBook.prices buy (book σ);
  inv_levels : ∀ buy,
    map_Forall (level_ok (heap σ) (OrderBook.current_order_id (book σ)) buy)
               (OrderBook.price_map buy (book σ));
  inv_counter : 0 ≤ OrderBook.current_order_id (book σ) ≤ INT_MAX;
  inv_index :
    map_Forall (λ k p, k ≤ OrderBook.current_order_id (book σ)
                       ∧ ∃ o, heap σ !! p = Some o ∧ Order.id o = k)
               (OrderBook.order_id_map (book σ))
}.

(** The part of [book_inv] that speaks of the containers of one side. *)
Definition side_inv (h : store) (n : Z) (buy : bool) (b : OrderBook.t) : Prop :=
  dom (OrderBook.price_map buy b) = OrderBook.prices buy b
  ∧ map_Forall (level_ok h n buy) (OrderBook.price_map buy b).

(** An order with id [i] rests on side [buy]: it is in the queue of a level
    of that side, with a positive remaining quantity. *)
Definition resting (σ : state) (buy : bool) (i : Z) : Prop :=
  ∃ prc lvl p o,
    OrderBook.price_map buy (book σ) !! prc = Some lvl
    ∧ p ∈ PriceLevel.orders lvl
    ∧ heap σ !! p = Some o
    ∧ Order.id o = i
    ∧ 1 ≤ Order.quantity o.

(** The loop of [execute_trades] as a relation: from [σ] the passes emit
    [msgs] and the loop leaves at [σ']. *)
Inductive loop : state → list Trade → state → Prop :=
| loop_break σ :
    iterate σ = Break → loop σ [] σ
| loop_cleanup σ σ1 msgs σ' :
    iterate σ = Cleanup σ1 → loop σ1 msgs σ' → loop σ msgs σ'
| loop_fill σ msg σ1 msgs σ' :
    iterate σ = Fill msg σ1 → loop σ1 msgs σ' → loop σ (msg :: msgs) σ'.

(** The states at the head of a pass of the loop started at [σ]. *)
Inductive pass : state → state → Prop :=
| pass_first σ : pass σ σ
| pass_cleanup σ σ1 σ2 :
    pass σ σ1 → iterate σ1 = Cleanup σ2 → pass σ σ2
| pass_fill σ σ1 msg σ2 :
    pass σ σ1 → iterate σ1 = Fill msg σ2 → pass σ σ2.

(** The number of levels and queued orders: what the loop consumes. *)
Definition level_weight (m : gmap Qc PriceLevel.t) : nat :=
  map_fold (λ _ lvl acc, S (length (PriceLevel.orders lvl)) + acc)%nat 0%nat m.
Definition weight (σ : state) : nat :=
  (level_weight (OrderBook.bid_price_map (book σ))
   + level_weight (OrderBook.ask_price_map (book σ)))%nat.

(** What a pass does from a state that satisfies the invariant: it leaves
    the loop, or it fills the two orders at the head of the best levels, or
    it reads a freed order after the erase.  The clean-up branch is not
    reached. *)
Definition pass_ok (σ : state) (it : iteration) : Prop :=
  match it with
  | Break =>
      OrderBook.bid_prices (book σ) = ∅
      ∨ OrderBook.ask_prices (book σ) = ∅
      ∨ (OrderBook.get_best_bid (book σ) < OrderBook.get_best_ask (book σ))%Qc
  | Fill msg σ' =>
      book_inv σ'
      ∧ (weight σ' < weight σ)%nat
      ∧ OrderBook.current_order_id (book σ') = OrderBook.current_order_id (book σ)
      ∧ 1 ≤ trade_qty msg
      ∧ trade_price msg = stream_double (OrderBook.get_best_ask (book σ))
      ∧ resting σ true (buy_id msg)
      ∧ resting σ false (sell_id msg)
  | Cleanup _ => False
  | Crash => True
  end.

(** Calls of the public operations, for sequences of them. *)
Inductive call : Type :=
| call_add (is_buy : bool) (quantity : Z) (price : Qc) (client_id : Z)
| call_cancel (order_id : Z)
| call_match.

(** [run σ ids σ']: a sequence of calls takes the book from [σ] to [σ'],
    and [ids] are the ids returned by its successful [add_order] calls, in
    the order of the calls. *)
Inductive run : state → list Z → state → Prop :=
| run_nil σ : run σ [] σ
| run_add σ ids σ1 is_buy quantity price client_id i σ2 :
    run σ ids σ1 →
    add_order σ1 is_buy quantity price client_id = Returns i σ2 →
    run σ (ids ++ [i]) σ2
| run_add_throws σ ids σ1 is_buy quantity price client_id e σ2 :
    run σ ids σ1 →
    add_order σ1 is_buy quantity price client_id = Throws e σ2 →
    run σ ids σ2
| run_cancel σ ids σ1 order_id σ2 :
    run σ ids σ1 →
    cancel_order σ1 order_id = Returns tt σ2 →
    run σ ids σ2
| run_cancel_throws σ ids σ1 order_id e σ2 :
    run σ ids σ1 →
    cancel_order σ1 order_id = Throws e σ2 →
    run σ ids σ2
| run_match σ ids σ1 fuel msgs σ2 :
    run σ ids σ1 →
    execute_trades fuel σ1 = Some (Returns msgs σ2) →
    run σ ids σ2.

(** The joint invariant of the levels: in every level of the book the cached
    total is the sum of the remaining quantities of its queue, it is not
    zero, and the queue is not empty. *)
Definition joint_inv (σ : state) : Prop :=
  ∀ buy prc lvl,
    OrderBook.price_map buy (book σ) !! prc = Some lvl →
    PriceLevel.total_quantity lvl = sum_quantity (heap σ) (PriceLevel.orders lvl)
    ∧ PriceLevel.total_quantity lvl ≠ 0
    ∧ PriceLevel.orders lvl ≠ [].

(** The ids of the order objects: none is above the counter and no two
    objects share one. *)
Definition ids_inv (σ : state) : Prop :=
  (∀ p o, heap σ !! p = Some o →
          Order.id o ≤ OrderBook.current_order_id (book σ))
  ∧ (∀ p1 p2 o1 o2,
       heap σ !! p1 = Some o1 → heap σ !! p2 = Some o2 →
       Order.id o1 = Order.id o2 → p1 = p2).

(** The line printed for a level and the lines of a list of prices. *)
Definition level_line (price total : Z) : string :=
  "  " +:+ pretty price +:+ " : " +:+ pretty total +:+ newline.

Definition level_lines (m : gmap Qc PriceLevel.t) (l : list Z) : string :=
  foldr (λ z s,
           level_line z (from_option PriceLevel.total_quantity 0 (m !! of_int z))
           +:+ s) "" l.

(** * Measures of a side and of a list of messages *)

(** The number of orders queued in the levels of a side. *)
Definition queued (m : gmap Qc PriceLevel.t) : nat :=
  map_fold (λ _ lvl acc, length (PriceLevel.orders lvl) + acc)%nat 0%nat m.

(** The sum of the cached totals of the levels of a side. *)
Definition side_total (m : gmap Qc PriceLevel.t) : Z :=
  map_fold (λ _ lvl acc, PriceLevel.total_quantity lvl + acc) 0 m.

(** The quantity traded by a list of messages. *)
Definition traded (msgs : list Trade) : Z :=
  foldr (λ msg acc, trade_qty msg + acc) 0 msgs.

(** [p] is the head of the queue of the level at [prc] on side [buy]. *)
Definition head_order (σ : state) (buy : bool) (prc : Qc) (p : ptr) : Prop :=
  ∃ lvl rest,
    OrderBook.price_map buy (book σ) !! prc = Some lvl
    ∧ PriceLevel.orders lvl = p :: rest.

(** * The books of the scenarios *)

(** The state left by a call, for building the books of the scenarios. *)
Definition added (σ : state) (is_buy : bool) (quantity : Z) (price : Qc)
    (client_id : Z) : state :=
  match add_order σ is_buy quantity price client_id with
  | Returns _ σ' | Throws _ σ' => σ'
  | Undefined => σ
  end.

Definition matched (fuel : nat) (σ : state) : state :=
  match execute_trades fuel σ with
  | Some (Returns _ σ') | Some (Throws _ σ') => σ'
  | _ => σ
  end.

(** A sell of 10 at 99 (id 1), then a buy of 10 at 100 (id 2). *)
Definition book_sell_then_buy : state :=
  added (added initial false 10 (of_int 99) 1) true 10 (of_int 100) 2.

(** Two buys of 5 at 100 (ids 1 and 2), then a sell of 5 at 100 (id 3). *)
Definition book_two_buys_one_sell : state :=
  added (added (added initial true 5 (of_int 100) 1) true 5 (of_int 100) 2)
        false 5 (of_int 100) 3.

(** Two buys of 5 at 100 (ids 1 and 2), then a sell of 10 at 100 (id 3). *)
Definition book_two_buys_big_sell : state :=
  added (added (added initial true 5 (of_int 100) 1) true 5 (of_int 100) 2)
        false 10 (of_int 100) 3.

(** A buy of 10 at 99.5. *)
Definition book_fractional_bid : state :=
  added initial true 10 (Q2Qc (199 # 2)) 1.

(** Sells of 5 at 99 (id 1) and of 8 at 100 (id 2), then a buy of 10 at 101
    (id 3). *)
Definition book_buy_two_asks : state :=
  added (added (added initial false 5 (of_int 99) 1) false 8 (of_int 100) 2)
        true 10 (of_int 101) 3.

(** A sell of 10 at 1234567 (id 1), then a buy of 10 at 1234567 (id 2). *)
Definition book_seven_digits : state :=
  added (added initial false 10 (of_int 1234567) 1) true 10 (of_int 1234567) 2.

(** [o'] is [o] after fills: the same order with a quantity that is not
    larger. *)
Definition filled_from (o o' : Order.t) : Prop :=
  Order.id o' = Order.id o
  ∧ Order.is_buy o' = Order.is_buy o
  ∧ Order.price o' = Order.price o
  ∧ Order.client_id o' = Order.client_id o
  ∧ Order.quantity o' ≤ Order.quantity o.

(** * Basic facts *)

Lemma int_Some z r : int z = Some r → r = z ∧ INT_MIN ≤ z ≤ INT_MAX.
Proof. unfold int. intros Hz. case_decide; [by simplify_eq|done]. Qed.

Lemma int_in_range z : INT_MIN ≤ z ≤ INT_MAX → int z = Some z.
Proof. intros. unfold int. by rewrite decide_True. Qed.

Lemma minus_one_negative : (minus_one < 0)%Qc.
Proof. reflexivity. Qed.

Lemma max_element_spec l x :
  (max_element x l = x ∨ max_element x l ∈ l)
  ∧ (x ≤ max_element x l)%Qc
  ∧ ∀ y, y ∈ l → (y ≤ max_element x l)%Qc.
Proof.
  revert x. induction l as [|z l IH]; intros x; simpl.
  - split; [by left|]. split; [apply Qcle_refl|]. intros y Hy. by apply elem_of_nil in Hy.
  - unfold max_element in *. simpl.
    destruct (IH (if decide (x < z)%Qc then z else x)) as (Hin & Hle & Hall).
    case_decide as Hlt.
    + split; [right; destruct Hin as [->|]; [left|by right]|].
      split; [eapply Qcle_trans; [by apply Qclt_le_weak|done]|].
      intros y [->|Hy]%elem_of_cons; auto.
    + apply Qcnot_lt_le in Hlt.
      split; [destruct Hin as [->|]; [by left|right; by right]|].
      split; [done|].
      intros y [->|Hy]%elem_of_cons; [by eapply Qcle_trans|auto].
Qed.

Lemma min_element_spec l x :
  (min_element x l = x ∨ min_element x l ∈ l)
  ∧ (min_element x l ≤ x)%Qc
  ∧ ∀ y, y ∈ l → (min_element x l ≤ y)%Qc.
Proof.
  revert x. induction l as [|z l IH]; intros x; simpl.
  - split; [by left|]. split; [apply Qcle_refl|]. intros y Hy. by apply elem_of_nil in Hy.
  - unfold min_element in *. simpl.
    destruct (IH (if decide (z < x)%Qc then z else x)) as (Hin & Hle & Hall).
    case_decide as Hlt.
    + split; [right; destruct Hin as [->|]; [left|by right]|].
      split; [eapply Qcle_trans; [done|by apply Qclt_le_weak]|].
      intros y [->|Hy]%elem_of_cons; auto.
    + apply Qcnot_lt_le in Hlt.
      split; [destruct Hin as [->|]; [by left|right; by right]|].
      split; [done|].
      intros y [->|Hy]%elem_of_cons; [by eapply Qcle_trans|auto].
Qed.

Lemma get_best_bid_empty b :
  OrderBook.bid_prices b = ∅ → OrderBook.get_best_bid b = minus_one.
Proof. intros E. unfold OrderBook.get_best_bid. by rewrite E, elements_empty. Qed.

Lemma get_best_ask_empty b :
  OrderBook.ask_prices b = ∅ → OrderBook.get_best_ask b = minus_one.
Proof. intros E. unfold OrderBook.get_best_ask. by rewrite E, elements_empty. Qed.

(** [get_best_bid] is the maximum of a non-empty [bid_prices]. *)
Lemma get_best_bid_max b :
  OrderBook.bid_prices b ≠ ∅ →
  OrderBook.get_best_bid b ∈ OrderBook.bid_prices b
  ∧ ∀ y, y ∈ OrderBook.bid_prices b → (y ≤ OrderBook.get_best_bid b)%Qc.
Proof.
  intros Hne. unfold OrderBook.get_best_bid.
  destruct (elements (OrderBook.bid_prices b)) as [|x l] eqn:E.
  { by apply elements_empty_inv, leibniz_equiv in E. }
  destruct (max_element_spec l x) as (Hin & Hx & Hall).
  split.
  - apply elem_of_elements. rewrite E. destruct Hin as [->|]; [left|by right].
  - intros y Hy. apply elem_of_elements in Hy. rewrite E in Hy.
    apply elem_of_cons in Hy as [->|Hy]; auto.
Qed.

(** [get_best_ask] is the minimum of a non-empty [ask_prices]. *)
Lemma get_best_ask_min b :
  OrderBook.ask_prices b ≠ ∅ →
  OrderBook.get_best_ask b ∈ OrderBook.ask_prices b
  ∧ ∀ y, y ∈ OrderBook.ask_prices b → (OrderBook.get_best_ask b ≤ y)%Qc.
Proof.
  intros Hne. unfold OrderBook.get_best_ask.
  destruct (elements (OrderBook.ask_prices b)) as [|x l] eqn:E.
  { by apply elements_empty_inv, leibniz_equiv in E. }
  destruct (min_element_spec l x) as (Hin & Hx & Hall).
  split.
  - apply elem_of_elements. rewrite E. destruct Hin as [->|]; [left|by right].
  - intros y Hy. apply elem_of_elements in Hy. rewrite E in Hy.
    apply elem_of_cons in Hy as [->|Hy]; auto.
Qed.

(** ** Sums over a queue *)

Lemma sum_quantity_app h l1 l2 :
  sum_quantity h (l1 ++ l2) = sum_quantity h l1 + sum_quantity h l2.
Proof. induction l1 as [|p l1 IH]; simpl; [done|]. rewrite IH. lia. Qed.

Lemma sum_quantity_agree h h' l :
  (∀ p, p ∈ l → h' !! p = h !! p) → sum_quantity h' l = sum_quantity h l.
Proof.
  induction l as [|p l IH]; intros Hag; simpl; [done|].
  rewrite Hag by left. rewrite IH; [done|]. intros q Hq. apply Hag. by right.
Qed.

Lemma order_ok_agree h h' n buy prc p :
  h' !! p = h !! p → order_ok h n buy prc p → order_ok h' n buy prc p.
Proof. intros E (o & Ho & Hrest). exists o. by rewrite E. Qed.

Lemma order_ok_counter h n n' buy prc p :
  n ≤ n' → order_ok h n buy prc p → order_ok h n' buy prc p.
Proof. intros Hn (o & Ho & ? & ? & ? & ?). exists o. repeat split; try done; lia. Qed.

Lemma sum_quantity_lower h n buy prc l :
  Forall (order_ok h n buy prc) l → Z.of_nat (length l) ≤ sum_quantity h l.
Proof.
  induction 1 as [|p l (o & Ho & _ & _ & Hq & _) _ IH]; simpl; [done|].
  rewrite Ho. simpl. lia.
Qed.

(** ** Levels *)

Lemma level_ok_agree h h' n n' buy prc lvl :
  (∀ p, p ∈ PriceLevel.orders lvl → h' !! p = h !! p) →
  n ≤ n' →
  level_ok h n buy prc lvl → level_ok h' n' buy prc lvl.
Proof.
  intros Hag Hn [? ? ? ? Hall Htot ?]. split; try done.
  - apply Forall_forall. intros p Hp.
    eapply order_ok_counter; [done|].
    eapply order_ok_agree; [by apply Hag|].
    by eapply Forall_forall in Hall.
  - by rewrite (sum_quantity_agree h h').
Qed.

Lemma level_ok_total_positive h n buy prc lvl :
  level_ok h n buy prc lvl → 1 ≤ PriceLevel.total_quantity lvl.
Proof.
  intros [_ _ Hne _ Hall Htot _].
  pose proof (sum_quantity_lower _ _ _ _ _ Hall) as Hlow.
  rewrite Htot. destruct (PriceLevel.orders lvl); [done|].
  rewrite length_cons in Hlow. lia.
Qed.

(** The level after [add_order] pushed a new object at its back. *)
Lemma level_ok_push h n buy prc lvl p o lvl' :
  h !! p = None →
  (0 < prc)%Qc →
  PriceLevel.price lvl = prc →
  (PriceLevel.orders lvl = [] ∧ PriceLevel.total_quantity lvl = 0
   ∨ level_ok h (n - 1) buy prc lvl) →
  Order.is_buy o = buy → Order.price o = prc → Order.id o = n →
  1 ≤ n → 1 ≤ Order.quantity o →
  PriceLevel.add_order (<[p := o]> h) p lvl = Some lvl' →
  level_ok (<[p := o]> h) n buy prc lvl'.
Proof.
  intros Hfresh Hpos Hprc Hlvl Hbuy Hop Hid Hn Hq Hadd.
  unfold PriceLevel.add_order in Hadd.
  rewrite lookup_insert_eq in Hadd. simpl in Hadd.
  destruct (int _) as [total|] eqn:Hint; [|done]. simpl in Hadd.
  apply int_Some in Hint as [-> Hrange]. simplify_eq.
  assert (Hnew : order_ok (<[p:=o]> h) (Order.id o) (Order.is_buy o)
                   (PriceLevel.price lvl) p).
  { exists o. rewrite lookup_insert_eq. repeat split; try done; try lia.
    destruct Hlvl as [[_ E]|Hok]; [rewrite E in Hrange; lia|].
    pose proof (level_ok_total_positive _ _ _ _ _ Hok). lia. }
  destruct Hlvl as [[El Et]|Hok].
  - split; simpl; try done.
    + rewrite El. done.
    + rewrite El. simpl. apply NoDup_singleton.
    + rewrite El. simpl. by apply Forall_singleton.
    + rewrite El, Et. simpl. rewrite lookup_insert_eq. simpl. lia.
    + lia.
  - assert (Hnotin : p ∉ PriceLevel.orders lvl).
    { intros Hin. destruct Hok as [_ _ _ _ Hall _ _].
      eapply Forall_forall in Hall as (o' & Ho' & _); [|done]. congruence. }
    assert (Hag : ∀ q, q ∈ PriceLevel.orders lvl → <[p:=o]> h !! q = h !! q).
    { intros q Hin. apply lookup_insert_ne. by intros ->. }
    eapply (level_ok_agree _ _ _ (Order.id o)) in Hok; [|exact Hag|lia].
    destruct Hok as [? ? ? Hnd Hall Htot ?].
    split; simpl; try done.
    + by intros [? _]%app_eq_nil.
    + apply NoDup_app. split; [done|]. split; [|apply NoDup_singleton].
      intros q Hin ->%list_elem_of_singleton. done.
    + apply Forall_app. split; [done|]. by apply Forall_singleton.
    + rewrite sum_quantity_app, <- Htot. simpl. rewrite lookup_insert_eq. simpl. lia.
    + lia.
Qed.

(** ** The containers of one side *)

Lemma price_map_with_side buy buy' ps m b :
  OrderBook.price_map buy (OrderBook.with_side buy' ps m b)
  = if decide (buy = buy') then m else OrderBook.price_map buy b.
Proof. by destruct buy, buy'. Qed.

Lemma prices_with_side buy buy' ps m b :
  OrderBook.prices buy (OrderBook.with_side buy' ps m b)
  = if decide (buy = buy') then ps else OrderBook.prices buy b.
Proof. by destruct buy, buy'. Qed.

Lemma price_map_with_index buy ix b :
  OrderBook.price_map buy (OrderBook.with_index ix b) = OrderBook.price_map buy b.
Proof. by destruct buy. Qed.

Lemma prices_with_index buy ix b :
  OrderBook.prices buy (OrderBook.with_index ix b) = OrderBook.prices buy b.
Proof. by destruct buy. Qed.

Lemma price_map_with_counter buy n b :
  OrderBook.price_map buy (OrderBook.with_counter n b) = OrderBook.price_map buy b.
Proof. by destruct buy. Qed.

Lemma prices_with_counter buy n b :
  OrderBook.prices buy (OrderBook.with_counter n b) = OrderBook.prices buy b.
Proof. by destruct buy. Qed.

Lemma counter_with_side buy ps m b :
  OrderBook.current_order_id (OrderBook.with_side buy ps m b)
  = OrderBook.current_order_id b.
Proof. by destruct buy. Qed.

Lemma index_with_side buy ps m b :
  OrderBook.order_id_map (OrderBook.with_side buy ps m b) = OrderBook.order_id_map b.
Proof. by destruct buy. Qed.

Create Rewrite HintDb book.
#[local] Hint Rewrite price_map_with_side prices_with_side price_map_with_index
  prices_with_index price_map_with_counter prices_with_counter
  counter_with_side index_with_side : book.

(** A book whose side [buy] received the level [lvl] at [prc]. *)
Lemma book_inv_put σ h' buy prc lvl ps ix n :
  book_inv σ →
  (∀ p, is_Some (heap σ !! p) → h' !! p = heap σ !! p) →
  OrderBook.current_order_id (book σ) ≤ n ≤ INT_MAX →
  level_ok h' n buy prc lvl →
  ps = {[prc]} ∪ OrderBook.prices buy (book σ) →
  map_Forall (λ k p, k ≤ n ∧ ∃ o, h' !! p = Some o ∧ Order.id o = k) ix →
  book_inv (State h'
    (OrderBook.with_side buy ps (<[prc := lvl]> (OrderBook.price_map buy (book σ)))
       (OrderBook.with_index ix (OrderBook.with_counter n (book σ))))).
Proof.
  intros [Hdom Hlvls Hcnt Hix] Hag Hn Hlvl -> Hix'.
  assert (Hold : ∀ side, map_Forall (level_ok h' n side)
                           (OrderBook.price_map side (book σ))).
  { intros side k l Hk. eapply level_ok_agree; [|apply Hn|by eapply Hlvls].
    intros p Hp. apply Hag.
    destruct (Hlvls side k l Hk) as [_ _ _ _ Hall _ _].
    eapply Forall_forall in Hall as (o & -> & _); done. }
  split; simpl.
  - intros side. autorewrite with book. case_decide as E.
    + subst side. by rewrite dom_insert_L, Hdom.
    + apply Hdom.
  - intros side. autorewrite with book. case_decide as E.
    + subst side. apply map_Forall_insert_2; [done|apply Hold].
    + apply Hold.
  - autorewrite with book. simpl. lia.
  - autorewrite with book. simpl. done.
Qed.

Lemma add_order_returns σ buy q prc c i σ' :
  add_order σ buy q prc c = Returns i σ' →
  0 < q ∧ (0 < prc)%Qc
  ∧ i = OrderBook.current_order_id (book σ) + 1
  ∧ i ≤ INT_MAX
  ∧ OrderBook.current_order_id (book σ') = i.
Proof.
  unfold add_order. intros H.
  case_decide as Hchk; [done|].
  destruct (int _) as [n|] eqn:Hint; [|done].
  apply int_Some in Hint as [-> Hr].
  assert (0 < q ∧ (0 < prc)%Qc) as [??].
  { split; [lia|]. apply Qcnot_le_lt. tauto. }
  destruct (OrderBook.price_map buy (book σ) !! prc);
    destruct (PriceLevel.add_order _ _ _); simplify_eq;
    simpl; autorewrite with book; simpl; repeat split; try done; lia.
Qed.

Lemma add_order_inv σ buy q prc c i σ' :
  book_inv σ →
  add_order σ buy q prc c = Returns i σ' →
  book_inv σ'.
Proof.
  intros Hinv H.
  destruct (add_order_returns _ _ _ _ _ _ _ H) as (Hq & Hprc & Hi & Himax & _).
  unfold add_order in H.
  case_decide as Hchk; [done|].
  destruct (int _) as [n|] eqn:Hint; [|done].
  apply int_Some in Hint as [-> Hr].
  set (p := fresh (dom (heap σ))) in *.
  set (o := Order.mk _ _ _ _ _) in *.
  assert (Hfresh : heap σ !! p = None).
  { apply not_elem_of_dom. apply is_fresh. }
  assert (Hag : ∀ p', is_Some (heap σ !! p') → <[p:=o]> (heap σ) !! p' = heap σ !! p').
  { intros p' [o' Ho']. apply lookup_insert_ne. intros ->. congruence. }
  pose proof Hinv as [Hdom Hlvls Hcnt Hix].
  assert (Hix' : map_Forall
            (λ k p0, k ≤ i ∧ ∃ o0, <[p:=o]> (heap σ) !! p0 = Some o0 ∧ Order.id o0 = k)
            (emplace i p (OrderBook.order_id_map (book σ)))).
  { unfold emplace.
    destruct (OrderBook.order_id_map (book σ) !! i) as [x|] eqn:Ei.
    { destruct (Hix _ _ Ei). lia. }
    apply map_Forall_insert_2.
    - split; [lia|]. exists o. by rewrite lookup_insert_eq.
    - intros k p' Hk. destruct (Hix _ _ Hk) as (Hle & o' & Ho' & Hid).
      split; [lia|]. exists o'. split; [|done]. rewrite Hag; eauto. }
  subst i.
  destruct (OrderBook.price_map buy (book σ) !! prc) as [level|] eqn:Elvl.
  - destruct (PriceLevel.add_order _ _ _) as [level'|] eqn:Eadd; [|done].
    simplify_eq.
    assert (Hlok := Hlvls buy _ _ Elvl).
    replace (OrderBook.prices buy (book σ))
      with ({[prc]} ∪ OrderBook.prices buy (book σ)).
    2:{ rewrite <- Hdom. apply subseteq_union_1_L, singleton_subseteq_l.
        by apply elem_of_dom_2 in Elvl. }
    apply book_inv_put; try done; [lia|].
    eapply level_ok_push; try exact Eadd; try done.
    + apply Hlok.
    + right. by replace (OrderBook.current_order_id (book σ) + 1 - 1)
        with (OrderBook.current_order_id (book σ)) by lia.
    + lia.
    + simpl. lia.
  - destruct (PriceLevel.add_order _ _ _) as [level'|] eqn:Eadd; [|done].
    simplify_eq.
    apply book_inv_put; try done; [lia|].
    eapply level_ok_push; try exact Eadd; try done.
    + by left.
    + lia.
    + simpl. lia.
Qed.

(** ** [remove_order] *)

Lemma erase_first_Some h k l q l' :
  PriceLevel.erase_first h k l = Some (Some (q, l')) →
  ∃ l1 p l2 o,
    l = l1 ++ p :: l2 ∧ l' = l1 ++ l2
    ∧ h !! p = Some o ∧ Order.id o = k ∧ Order.quantity o = q
    ∧ Forall (λ x, ∃ o', h !! x = Some o' ∧ Order.id o' ≠ k) l1.
Proof.
  revert q l'. induction l as [|x l IH]; intros q l' H; simpl in H; [done|].
  destruct (h !! x) as [o|] eqn:Hx; [|done]. simpl in H.
  case_decide as Hid.
  - simplify_eq. exists [], x, l', o. by repeat split.
  - destruct (PriceLevel.erase_first h k l) as [[[q0 l0]|]|] eqn:E; simplify_eq.
    destruct (IH _ _ eq_refl) as (l1 & p & l2 & o' & -> & -> & ? & ? & ? & Hall).
    exists (x :: l1), p, l2, o'. repeat split; try done.
    constructor; [|done]. by exists o.
Qed.

Lemma sum_quantity_cons h p l :
  sum_quantity h (p :: l) = from_option Order.quantity 0 (h !! p) + sum_quantity h l.
Proof. done. Qed.

(** A level from which [remove_order] took an order is either left with
    no order and a total of zero, or is a well-formed level. *)
Lemma remove_order_ok h n buy prc lvl k lvl' :
  level_ok h n buy prc lvl →
  PriceLevel.remove_order h k lvl = Ok lvl' →
  (PriceLevel.total_quantity lvl' = 0 ∧ PriceLevel.orders lvl' = [])
  ∨ (PriceLevel.total_quantity lvl' ≠ 0 ∧ level_ok h n buy prc lvl').
Proof.
  intros [Hp Hpos Hne Hnd Hall Htot Hr] H. unfold PriceLevel.remove_order in H.
  destruct (PriceLevel.erase_first _ _ _) as [[[q l']|]|] eqn:E; try done.
  destruct (int _) as [total|] eqn:Hint; [|done].
  apply int_Some in Hint as [-> Hrange]. injection H as <-.
  apply erase_first_Some in E as (l1 & p & l2 & o & El & -> & Ho & _ & <- & _).
  rewrite El in *.
  apply NoDup_app in Hnd as (Hnd1 & Hdisj & Hnd2).
  apply NoDup_cons in Hnd2 as [Hp2 Hnd2].
  apply Forall_app in Hall as [Hall1 Hall2].
  apply Forall_cons in Hall2 as [_ Hall2].
  assert (Hall' : Forall (order_ok h n buy prc) (l1 ++ l2)) by by apply Forall_app.
  assert (Hsum : PriceLevel.total_quantity lvl - Order.quantity o
                 = sum_quantity h (l1 ++ l2)).
  { rewrite Htot, !sum_quantity_app, sum_quantity_cons, Ho. simpl. lia. }
  pose proof (sum_quantity_lower _ _ _ _ _ Hall') as Hlow.
  destruct (l1 ++ l2) as [|x l] eqn:El'.
  - left. simpl. split; [|done]. rewrite Hsum. done.
  - right. rewrite length_cons in Hlow. split; [simpl; lia|].
    split; simpl; try done.
    + rewrite <- El'. apply NoDup_app. repeat split; try done.
      intros y Hy1 Hy2. eapply Hdisj; [done|]. by right.
    + lia.
Qed.

(** ** [cancel_order] *)

Lemma cancel_order_throws σ k e σ' :
  cancel_order σ k = Throws e σ' → σ' = σ.
Proof.
  unfold cancel_order. intros H.
  repeat (case_match; simplify_eq); done.
Qed.

Lemma cancel_order_inv σ k σ' :
  book_inv σ →
  cancel_order σ k = Returns tt σ' →
  book_inv σ'.
Proof.
  intros [Hdom Hlvls Hcnt Hix] H. unfold cancel_order in H.
  destruct (OrderBook.order_id_map (book σ) !! k) as [it|] eqn:Eit; [|done].
  destruct (heap σ !! it) as [order|] eqn:Eo; [|done].
  set (side := Order.is_buy order) in *.
  set (prc := Order.price order) in *.
  destruct (OrderBook.price_map side (book σ) !! prc) as [level|] eqn:Elvl; [|done].
  destruct (PriceLevel.remove_order _ _ _) as [level'| |] eqn:Erm; try done.
  injection H as <-.
  destruct (remove_order_ok _ _ _ _ _ _ _ (Hlvls side _ _ Elvl) Erm)
    as [[Ez El]|[Hnz Hok]].
  - rewrite decide_True by done.
    split; simpl.
    + intros buy. autorewrite with book. case_decide as E; [|apply Hdom].
      subst buy. by rewrite dom_delete_L, Hdom.
    + intros buy. autorewrite with book. case_decide as E; [|apply Hlvls].
      subst buy. by apply map_Forall_delete.
    + by autorewrite with book.
    + autorewrite with book. by apply map_Forall_delete.
  - rewrite decide_False by done.
    split; simpl.
    + intros buy. autorewrite with book. case_decide as E; [|apply Hdom].
      subst buy. rewrite dom_insert_L, Hdom.
      apply subseteq_union_1_L, singleton_subseteq_l.
      rewrite <- Hdom. by apply elem_of_dom_2 in Elvl.
    + intros buy. autorewrite with book. case_decide as E; [|apply Hlvls].
      subst buy. by apply map_Forall_insert_2.
    + by autorewrite with book.
    + autorewrite with book. by apply map_Forall_delete.
Qed.

(** ** One pass of the matching loop *)

Lemma erase_filled_ok h h2 n buy prc lvl p rest o t ix owned :
  level_ok h n buy prc lvl →
  PriceLevel.orders lvl = p :: rest →
  h !! p = Some o →
  1 ≤ t ≤ Order.quantity o →
  h2 !! p = Some (Order.set_quantity (Order.quantity o - t) o) →
  (∀ x, x ∈ rest → h2 !! x = h !! x) →
  ∃ lvl' ix',
    (erase_filled h2 owned p
       (PriceLevel.set_total (PriceLevel.total_quantity lvl - t) lvl) ix
     = Some (lvl', ix')
     ∨ erase_filled h2 owned p
         (PriceLevel.set_total (PriceLevel.total_quantity lvl - t) lvl) ix
       = None
       ∧ Order.quantity o = t ∧ rest = [] ∧ owned = false)
    ∧ ix' ⊆ ix
    ∧ (PriceLevel.orders lvl' = [] ∨ level_ok h2 n buy prc lvl')
    ∧ PriceLevel.orders lvl'
      = (if decide (Order.quantity o = t) then rest else p :: rest).
Proof.
  intros [Hp Hpos Hne Hnd Hall Htot Hr] El Ho Ht Hp2 Hag.
  rewrite El in *.
  apply NoDup_cons in Hnd as [Hnotin Hnd].
  apply Forall_cons in Hall as [Hpok Hall].
  assert (Hall2 : Forall (order_ok h2 n buy prc) rest).
  { apply Forall_forall. intros x Hx. eapply order_ok_agree; [by apply Hag|].
    by eapply Forall_forall in Hall. }
  assert (Hsum : sum_quantity h2 rest = sum_quantity h rest)
    by by apply sum_quantity_agree.
  rewrite sum_quantity_cons, Ho in Htot. simpl in Htot.
  pose proof (sum_quantity_lower _ _ _ _ _ Hall) as Hlow.
  unfold erase_filled. rewrite Hp2. simpl.
  case_decide as Hz.
  - assert (Order.quantity o = t) as Hqt by lia.
    rewrite decide_True by done. rewrite El. simpl.
    destruct rest as [|x rest'] eqn:Er; simpl.
    + exists (PriceLevel.set_orders []
                (PriceLevel.set_total (PriceLevel.total_quantity lvl - t) lvl)),
        (delete (Order.id o) ix).
      split.
      { destruct owned; [by left|by right]. }
      split; [apply delete_subseteq|]. split; [by left|done].
    + assert (is_Some (h2 !! x)) as [slot Hslot].
      { rewrite Hag by left. apply Forall_cons in Hall as [(ox & -> & _) _].
        by eexists. }
      rewrite Hslot. simpl.
      eexists _, _. split; [by left|]. split; [apply delete_subseteq|].
      split; [|done]. right. rewrite <- Er in *.
      split; simpl; try done; [by subst rest|lia|lia].
  - assert (Order.quantity o ≠ t) as Hqt by lia.
    rewrite decide_False by done.
    eexists _, _. split; [by left|]. split; [done|]. split; [|by simpl].
    right. split; simpl; rewrite ?El; try done.
    + by apply NoDup_cons.
    + apply Forall_cons. split; [|done].
      destruct Hpok as (o' & Ho' & ? & ? & ? & ?). simplify_eq.
      eexists. split; [done|]. simpl. repeat split; try done; lia.
    + rewrite sum_quantity_cons, Hp2. simpl. lia.
    + lia.
Qed.

Lemma price_map_erase_if_empty buy' buy prc lvl b :
  OrderBook.price_map buy' (erase_if_empty buy prc lvl b)
  = if decide (buy' = buy)
    then match PriceLevel.orders lvl with
         | [] => delete prc (OrderBook.price_map buy b)
         | _ :: _ => <[prc := lvl]> (OrderBook.price_map buy b)
         end
    else OrderBook.price_map buy' b.
Proof.
  unfold erase_if_empty.
  destruct (PriceLevel.orders lvl); autorewrite with book;
    by repeat case_decide; subst.
Qed.

Lemma prices_erase_if_empty buy' buy prc lvl b :
  OrderBook.prices buy' (erase_if_empty buy prc lvl b)
  = if decide (buy' = buy)
    then match PriceLevel.orders lvl with
         | [] => OrderBook.prices buy b ∖ {[prc]}
         | _ :: _ => OrderBook.prices buy b
         end
    else OrderBook.prices buy' b.
Proof.
  unfold erase_if_empty.
  destruct (PriceLevel.orders lvl); autorewrite with book;
    by repeat case_decide; subst.
Qed.

Lemma counter_erase_if_empty buy prc lvl b :
  OrderBook.current_order_id (erase_if_empty buy prc lvl b)
  = OrderBook.current_order_id b.
Proof.
  unfold erase_if_empty. by destruct (PriceLevel.orders lvl); autorewrite with book.
Qed.

Lemma index_erase_if_empty buy prc lvl b :
  OrderBook.order_id_map (erase_if_empty buy prc lvl b) = OrderBook.order_id_map b.
Proof.
  unfold erase_if_empty. by destruct (PriceLevel.orders lvl); autorewrite with book.
Qed.

#[local] Hint Rewrite price_map_erase_if_empty prices_erase_if_empty
  counter_erase_if_empty index_erase_if_empty : book.

Lemma side_inv_erase_if_empty h n buy prc lvl b :
  dom (OrderBook.price_map buy b) = OrderBook.prices buy b →
  prc ∈ OrderBook.prices buy b →
  map_Forall (level_ok h n buy) (delete prc (OrderBook.price_map buy b)) →
  PriceLevel.orders lvl = [] ∨ level_ok h n buy prc lvl →
  side_inv h n buy (erase_if_empty buy prc lvl b).
Proof.
  intros Hdom Hin Hall Hlvl. unfold side_inv. autorewrite with book.
  rewrite !decide_True by done.
  destruct Hlvl as [E|Hok].
  - rewrite E. split; [by rewrite dom_delete_L, Hdom|done].
  - destruct (PriceLevel.orders lvl) eqn:E; [by destruct Hok|].
    split.
    + rewrite dom_insert_L, Hdom.
      by apply subseteq_union_1_L, singleton_subseteq_l.
    + rewrite <- insert_delete_eq. by apply map_Forall_insert_2.
Qed.

Lemma side_inv_erase_if_empty_other h n buy buy' prc lvl b :
  buy' ≠ buy →
  side_inv h n buy' b → side_inv h n buy' (erase_if_empty buy prc lvl b).
Proof.
  intros Hne. unfold side_inv. autorewrite with book.
  by rewrite !decide_False by done.
Qed.

(** ** The weight of a side *)

Lemma level_weight_delete m k lvl :
  m !! k = Some lvl →
  level_weight m = (S (length (PriceLevel.orders lvl)) + level_weight (delete k m))%nat.
Proof.
  intros Hk. unfold level_weight.
  apply (map_fold_delete_L (λ _ l acc, S (length (PriceLevel.orders l)) + acc)%nat);
    [|done].
  intros. lia.
Qed.

Lemma level_weight_insert m k lvl :
  level_weight (<[k := lvl]> m)
  = (S (length (PriceLevel.orders lvl)) + level_weight (delete k m))%nat.
Proof.
  rewrite (level_weight_delete (<[k:=lvl]> m) k lvl) by apply lookup_insert_eq.
  by rewrite delete_insert_eq.
Qed.

Lemma level_weight_erase_if_empty buy prc lvl old b :
  OrderBook.price_map buy b !! prc = Some old →
  (length (PriceLevel.orders lvl) ≤ length (PriceLevel.orders old))%nat →
  (level_weight (OrderBook.price_map buy (erase_if_empty buy prc lvl b))
   + (length (PriceLevel.orders old) - length (PriceLevel.orders lvl))
   ≤ level_weight (OrderBook.price_map buy b))%nat.
Proof.
  intros Hold Hlen. autorewrite with book. rewrite decide_True by done.
  rewrite (level_weight_delete _ _ _ Hold).
  destruct (PriceLevel.orders lvl) eqn:E.
  - simpl. lia.
  - rewrite level_weight_insert, E. lia.
Qed.

Lemma level_ok_front h n buy prc lvl p rest :
  level_ok h n buy prc lvl →
  PriceLevel.orders lvl = p :: rest →
  order_ok h n buy prc p.
Proof. intros [_ _ _ _ Hall _ _] E. rewrite E in Hall. by apply Forall_cons in Hall as [? _]. Qed.

Lemma level_ok_member h n buy prc lvl p :
  level_ok h n buy prc lvl →
  p ∈ PriceLevel.orders lvl →
  order_ok h n buy prc p.
Proof. intros [_ _ _ _ Hall _ _] E. by eapply Forall_forall in Hall. Qed.

Lemma level_ok_front_le_total h n buy prc lvl p rest o :
  level_ok h n buy prc lvl →
  PriceLevel.orders lvl = p :: rest →
  h !! p = Some o →
  Order.quantity o ≤ PriceLevel.total_quantity lvl.
Proof.
  intros [_ _ _ _ Hall Htot _] E Ho. rewrite E in *.
  apply Forall_cons in Hall as [_ Hall].
  pose proof (sum_quantity_lower _ _ _ _ _ Hall).
  rewrite Htot, sum_quantity_cons, Ho. simpl. lia.
Qed.

Lemma sub_quantity_Some p n h o :
  h !! p = Some o →
  INT_MIN ≤ Order.quantity o - n ≤ INT_MAX →
  sub_quantity p n h
  = Some (<[p := Order.set_quantity (Order.quantity o - n) o]> h).
Proof.
  intros Ho Hr. unfold sub_quantity. rewrite Ho. simpl.
  by rewrite int_in_range.
Qed.

#[local] Arguments sub_quantity : simpl never.
#[local] Arguments int : simpl never.
#[local] Arguments erase_filled : simpl never.
#[local] Arguments erase_if_empty : simpl never.

Lemma decide_side_same {A} (buy : bool) (x y : A) :
  (if decide (buy = buy) then x else y) = x.
Proof. by rewrite decide_True. Qed.

Lemma decide_side_bid_ask {A} (x y : A) :
  (if decide (true = false) then x else y) = y.
Proof. done. Qed.

Lemma decide_side_ask_bid {A} (x y : A) :
  (if decide (false = true) then x else y) = y.
Proof. done. Qed.

#[local] Hint Rewrite @decide_side_same @decide_side_bid_ask
  @decide_side_ask_bid : book.

Lemma book_inv_intro h b :
  (∀ buy, side_inv h (OrderBook.current_order_id b) buy b) →
  0 ≤ OrderBook.current_order_id b ≤ INT_MAX →
  map_Forall (λ k p, k ≤ OrderBook.current_order_id b
                     ∧ ∃ o, h !! p = Some o ∧ Order.id o = k)
             (OrderBook.order_id_map b) →
  book_inv (State h b).
Proof.
  intros Hs Hc Hi. split; simpl; try done; intros buy; apply (Hs buy).
Qed.

(** A pass that finds an order at the head of both best levels emits a
    trade for their ids, keeps the invariant and removes at least one
    order from its queue. *)
Lemma fill_ok σ bb ba bl al pb rb pa ra :
  book_inv σ →
  OrderBook.price_map true (book σ) !! bb = Some bl →
  OrderBook.price_map false (book σ) !! ba = Some al →
  PriceLevel.orders bl = pb :: rb →
  PriceLevel.orders al = pa :: ra →
  ∃ bo ao σ',
    heap σ !! pb = Some bo ∧ heap σ !! pa = Some ao
    ∧ (fill σ bb ba bl al pb pa
       = Some (TRADE (Order.id bo) (Order.id ao)
                 (Z.min (Order.quantity bo) (Order.quantity ao))
                 (stream_double ba), σ')
       ∨ fill σ bb ba bl al pb pa = None)
    ∧ 1 ≤ Z.min (Order.quantity bo) (Order.quantity ao)
    ∧ book_inv σ'
    ∧ (weight σ' < weight σ)%nat
    ∧ OrderBook.current_order_id (book σ') = OrderBook.current_order_id (book σ).
Proof.
  intros Hinv Ebl Eal Eb Ea.
  pose proof Hinv as [Hdom Hlvls Hcnt Hix].
  destruct σ as [h b]. simpl in *.
  set (n := OrderBook.current_order_id b) in *.
  assert (Hbl := Hlvls true _ _ Ebl). assert (Hal := Hlvls false _ _ Eal).
  destruct (level_ok_front _ _ _ _ _ _ _ Hbl Eb)
    as (bo & Hbo & Hbside & Hbprc & Hbq & Hbid).
  destruct (level_ok_front _ _ _ _ _ _ _ Hal Ea)
    as (ao & Hao & Haside & Haprc & Haq & Haid).
  assert (Hne : pb ≠ pa) by (intros ->; congruence).
  set (t := Z.min (Order.quantity bo) (Order.quantity ao)).
  assert (Ht : 1 ≤ t ∧ t ≤ Order.quantity bo ∧ t ≤ Order.quantity ao) by lia.
  pose proof (level_ok_front_le_total _ _ _ _ _ _ _ _ Hbl Eb Hbo) as Hbtot.
  pose proof (level_ok_front_le_total _ _ _ _ _ _ _ _ Hal Ea Hao) as Hatot.
  pose proof (lvl_range _ _ _ _ _ Hbl) as Hbr.
  pose proof (lvl_range _ _ _ _ _ Hal) as Har.
  set (bo' := Order.set_quantity (Order.quantity bo - t) bo).
  set (ao' := Order.set_quantity (Order.quantity ao - t) ao).
  set (h2 := <[pa := ao']> (<[pb := bo']> h)).
  assert (Hpb2 : h2 !! pb = Some bo').
  { unfold h2. rewrite lookup_insert_ne by done. apply lookup_insert_eq. }
  assert (Hpa2 : h2 !! pa = Some ao') by apply lookup_insert_eq.
  assert (Hother : ∀ x, x ≠ pb → x ≠ pa → h2 !! x = h !! x).
  { intros x ? ?. unfold h2. by rewrite !lookup_insert_ne. }
  (* an order of another queue is neither of the two heads *)
  assert (Hsep : ∀ buy prc lvl x,
            OrderBook.price_map buy b !! prc = Some lvl →
            x ∈ PriceLevel.orders lvl →
            (buy, prc) ≠ (true, bb) → x ≠ pb).
  { intros buy prc lvl x Hl Hx Hk ->.
    destruct (level_ok_member _ _ _ _ _ _ (Hlvls buy _ _ Hl) Hx)
      as (o & Ho & ? & ? & _). apply Hk. congruence. }
  assert (Hsep' : ∀ buy prc lvl x,
            OrderBook.price_map buy b !! prc = Some lvl →
            x ∈ PriceLevel.orders lvl →
            (buy, prc) ≠ (false, ba) → x ≠ pa).
  { intros buy prc lvl x Hl Hx Hk ->.
    destruct (level_ok_member _ _ _ _ _ _ (Hlvls buy _ _ Hl) Hx)
      as (o & Ho & ? & ? & _). apply Hk. congruence. }
  assert (Hrb : ∀ x, x ∈ rb → h2 !! x = h !! x).
  { intros x Hx. apply Hother.
    - destruct Hbl as [_ _ _ Hnd _ _ _]. rewrite Eb in Hnd.
      apply NoDup_cons in Hnd as [Hnd _]. by intros ->.
    - eapply (Hsep' true); [exact Ebl|rewrite Eb; by right|done]. }
  assert (Hra : ∀ x, x ∈ ra → h2 !! x = h !! x).
  { intros x Hx. apply Hother.
    - eapply (Hsep false); [exact Eal|rewrite Ea; by right|done].
    - destruct Hal as [_ _ _ Hnd _ _ _]. rewrite Ea in Hnd.
      apply NoDup_cons in Hnd as [Hnd _]. by intros ->. }
  set (ob := bool_decide
                (indexed (OrderBook.order_id_map b) pb
                 ∨ holds (delete bb (OrderBook.bid_price_map b)) pb
                 ∨ holds (OrderBook.ask_price_map b) pb)).
  destruct (erase_filled_ok h h2 n true bb bl pb rb bo t
              (OrderBook.order_id_map b) ob Hbl Eb Hbo ltac:(lia) Hpb2 Hrb)
    as (bl' & ix1 & Hef1 & Hsub1 & Hbl' & Eb').
  set (oa := bool_decide
                (indexed ix1 pa
                 ∨ holds (<[bb := bl']> (OrderBook.bid_price_map b)) pa
                 ∨ holds (delete ba (OrderBook.ask_price_map b)) pa)).
  destruct (erase_filled_ok h h2 n false ba al pa ra ao t ix1 oa
              Hal Ea Hao ltac:(lia) Hpa2 Hra)
    as (al' & ix2 & Hef2 & Hsub2 & Hal' & Ea').
  eexists bo, ao, _. split; [done|]. split; [done|].
  split.
  { unfold fill. simpl. rewrite Hbo. simpl. rewrite Hao. simpl. fold t.
    assert (Hrb1 : INT_MIN ≤ Order.quantity bo - t ≤ INT_MAX)
      by (unfold INT_MIN; lia).
    assert (Hra1 : INT_MIN ≤ Order.quantity ao - t ≤ INT_MAX)
      by (unfold INT_MIN; lia).
    rewrite (sub_quantity_Some pb t h bo Hbo Hrb1). simpl.
    rewrite (sub_quantity_Some pa t _ ao); [|by rewrite lookup_insert_ne|done].
    simpl.
    rewrite int_in_range by (unfold INT_MIN; lia). simpl.
    rewrite int_in_range by (unfold INT_MIN; lia). simpl.
    fold bo' ao' h2. fold ob.
    destruct Hef1 as [Hef1|[Hef1 _]]; rewrite Hef1; simpl; [|by right].
    fold oa.
    destruct Hef2 as [Hef2|[Hef2 _]]; rewrite Hef2; simpl; [by left|by right]. }
  split; [lia|].
  assert (Hbbin : bb ∈ OrderBook.prices true b).
  { rewrite <- Hdom. by apply elem_of_dom_2 in Ebl. }
  assert (Hbain : ba ∈ OrderBook.prices false b).
  { rewrite <- Hdom. by apply elem_of_dom_2 in Eal. }
  split; [|split].
  - (* the invariant *)
    assert (Hb : side_inv h2 n true
              (erase_if_empty true bb bl' (OrderBook.with_index ix2 b))).
    { apply side_inv_erase_if_empty; autorewrite with book; try done.
      intros k l [Hk Hl]%lookup_delete_Some.
      eapply level_ok_agree; [|reflexivity|by eapply (Hlvls true)].
      intros x Hx. apply Hother.
      - eapply (Hsep true); [exact Hl|done|congruence].
      - eapply (Hsep' true); [exact Hl|done|congruence]. }
    assert (Ha : side_inv h2 n false
              (erase_if_empty false ba al'
                 (erase_if_empty true bb bl' (OrderBook.with_index ix2 b)))).
    { apply side_inv_erase_if_empty; autorewrite with book; try done.
      intros k l [Hk Hl]%lookup_delete_Some.
      eapply level_ok_agree; [|reflexivity|by eapply (Hlvls false)].
      intros x Hx. apply Hother.
      - eapply (Hsep false); [exact Hl|done|congruence].
      - eapply (Hsep' false); [exact Hl|done|congruence]. }
    apply (side_inv_erase_if_empty_other _ _ false true ba al') in Hb; [|done].
    apply book_inv_intro; simpl; autorewrite with book; simpl; try done.
    + by intros [].
    + intros k p Hk.
      destruct (Hix k p) as (Hle & o & Ho & Hid).
      { eapply lookup_weaken; [exact Hk|]. by etrans. }
      split; [done|].
      destruct (decide (p = pa)) as [->|Hpa].
      { exists ao'. split; [done|]. simpl in *. congruence. }
      destruct (decide (p = pb)) as [->|Hpb].
      { exists bo'. split; [done|]. simpl in *. congruence. }
      exists o. by rewrite Hother.
  - (* the weight *)
    unfold weight. simpl.
    pose proof (level_weight_erase_if_empty true bb bl' bl
                  (OrderBook.with_index ix2 b)) as Hwb.
    pose proof (level_weight_erase_if_empty false ba al' al
                  (erase_if_empty true bb bl' (OrderBook.with_index ix2 b))) as Hwa.
    autorewrite with book in Hwb, Hwa.
    change (OrderBook.bid_price_map ?x) with (OrderBook.price_map true x).
    change (OrderBook.ask_price_map ?x) with (OrderBook.price_map false x).
    autorewrite with book.
    assert (Hlb : (length (PriceLevel.orders bl)
                   = length (PriceLevel.orders bl')
                     + (if decide (Order.quantity bo = t) then 1 else 0))%nat).
    { rewrite Eb', Eb. destruct (decide (Order.quantity bo = t)); simpl; lia. }
    assert (Hla : (length (PriceLevel.orders al)
                   = length (PriceLevel.orders al')
                     + (if decide (Order.quantity ao = t) then 1 else 0))%nat).
    { rewrite Ea', Ea. destruct (decide (Order.quantity ao = t)); simpl; lia. }
    specialize (Hwb Ebl). specialize (Hwa Eal).
    destruct (decide (Order.quantity bo = t)), (decide (Order.quantity ao = t));
      lia.
  - simpl. by autorewrite with book.
Qed.

Lemma best_bid_level σ :
  book_inv σ →
  OrderBook.bid_prices (book σ) ≠ ∅ →
  ∃ lvl, OrderBook.price_map true (book σ) !! OrderBook.get_best_bid (book σ) = Some lvl
         ∧ (0 < OrderBook.get_best_bid (book σ))%Qc.
Proof.
  intros [Hdom Hlvls _ _] Hne.
  destruct (get_best_bid_max _ Hne) as [Hin _].
  change (OrderBook.bid_prices (book σ)) with (OrderBook.prices true (book σ)) in Hin.
  rewrite <- Hdom in Hin. apply elem_of_dom in Hin as [lvl Hl].
  exists lvl. split; [done|]. by destruct (Hlvls true _ _ Hl).
Qed.

Lemma best_ask_level σ :
  book_inv σ →
  OrderBook.ask_prices (book σ) ≠ ∅ →
  ∃ lvl, OrderBook.price_map false (book σ) !! OrderBook.get_best_ask (book σ) = Some lvl
         ∧ (0 < OrderBook.get_best_ask (book σ))%Qc.
Proof.
  intros [Hdom Hlvls _ _] Hne.
  destruct (get_best_ask_min _ Hne) as [Hin _].
  change (OrderBook.ask_prices (book σ)) with (OrderBook.prices false (book σ)) in Hin.
  rewrite <- Hdom in Hin. apply elem_of_dom in Hin as [lvl Hl].
  exists lvl. split; [done|]. by destruct (Hlvls false _ _ Hl).
Qed.

Lemma positive_not_minus_one (x : Qc) : (0 < x)%Qc → x ≠ minus_one.
Proof.
  intros Hx ->. apply (Qclt_not_le _ _ Hx). apply Qclt_le_weak, minus_one_negative.
Qed.

Lemma iterate_ok σ : book_inv σ → pass_ok σ (iterate σ).
Proof.
  intros Hinv. unfold iterate.
  destruct (decide (OrderBook.bid_prices (book σ) = ∅)) as [Eb|Eb].
  { rewrite decide_True; [by left|]. left. by apply get_best_bid_empty. }
  destruct (decide (OrderBook.ask_prices (book σ) = ∅)) as [Ea|Ea].
  { rewrite decide_True; [by right; left|]. right; left. by apply get_best_ask_empty. }
  destruct (best_bid_level _ Hinv Eb) as (bl & Hbl & Hbpos).
  destruct (best_ask_level _ Hinv Ea) as (al & Hal & Hapos).
  case_decide as Hbrk.
  { destruct Hbrk as [E|[E|Hlt]]; simpl.
    - exfalso. by apply (positive_not_minus_one _ Hbpos).
    - exfalso. by apply (positive_not_minus_one _ Hapos).
    - by right; right. }
  change (OrderBook.bid_price_map (book σ)) with (OrderBook.price_map true (book σ)).
  change (OrderBook.ask_price_map (book σ)) with (OrderBook.price_map false (book σ)).
  rewrite Hbl, Hal.
  pose proof (inv_levels _ Hinv true _ _ Hbl) as Hbok.
  pose proof (inv_levels _ Hinv false _ _ Hal) as Haok.
  destruct (PriceLevel.orders bl) as [|pb rb] eqn:Eob; [by destruct Hbok|].
  destruct (PriceLevel.orders al) as [|pa ra] eqn:Eoa; [by destruct Haok|].
  destruct (fill_ok σ _ _ bl al pb rb pa ra Hinv Hbl Hal Eob Eoa)
    as (bo & ao & σ' & Hbo & Hao & [-> | ->] & Hq & Hinv' & Hw & Hc);
    [|done].
  simpl. split_and!; try done.
  - exists (OrderBook.get_best_bid (book σ)), bl, pb, bo.
    split_and!; try done; [rewrite Eob; by left|lia].
  - exists (OrderBook.get_best_ask (book σ)), al, pa, ao.
    split_and!; try done; [rewrite Eoa; by left|lia].
Qed.

(** ** The loop *)

Lemma loop_sound fuel σ acc out σ' :
  execute_trades_loop fuel σ acc = Some (Returns out σ') →
  ∃ msgs, out = acc ++ msgs ∧ loop σ msgs σ'.
Proof.
  revert σ acc. induction fuel as [|fuel IH]; intros σ acc H; simpl in H; [done|].
  destruct (iterate σ) as [|σ1|msg σ1|] eqn:E; simplify_eq.
  - exists []. split; [by rewrite app_nil_r|by constructor].
  - destruct (IH _ _ H) as (msgs & -> & Hl).
    exists msgs. split; [done|]. by eapply loop_cleanup.
  - destruct (IH _ _ H) as (msgs & -> & Hl).
    exists (msg :: msgs). split; [by rewrite <- app_assoc|]. by eapply loop_fill.
Qed.

Lemma loop_complete σ msgs σ' :
  loop σ msgs σ' →
  ∃ fuel0, ∀ fuel acc, (fuel0 ≤ fuel)%nat →
    execute_trades_loop fuel σ acc = Some (Returns (acc ++ msgs) σ').
Proof.
  induction 1 as [σ E|σ σ1 msgs σ' E _ [f IH]|σ msg σ1 msgs σ' E _ [f IH]].
  - exists 1%nat. intros [|fuel] acc Hf; [lia|]. simpl. by rewrite E, app_nil_r.
  - exists (S f). intros [|fuel] acc Hf; [lia|]. simpl. rewrite E. apply IH. lia.
  - exists (S f). intros [|fuel] acc Hf; [lia|]. simpl. rewrite E.
    rewrite IH by lia. by rewrite <- app_assoc.
Qed.

Lemma loop_deterministic σ msgs1 σ1 msgs2 σ2 :
  loop σ msgs1 σ1 → loop σ msgs2 σ2 → msgs1 = msgs2 ∧ σ1 = σ2.
Proof.
  intros H1. revert msgs2 σ2.
  induction H1 as [σ E|σ σa msgs σ' E _ IH|σ msg σa msgs σ' E _ IH];
    intros msgs2 σ2 H2; inversion H2 as [? E2|? ? ? ? E2 H2'|? ? ? ? ? E2 H2'];
    subst; rewrite E in E2; try done.
  - injection E2 as <-. by apply IH.
  - injection E2 as <- <-. by destruct (IH _ _ H2') as [-> ->].
Qed.

Lemma execute_trades_loop_S fuel σ acc :
  execute_trades_loop (S fuel) σ acc
  = match iterate σ with
    | Break => Some (Returns acc σ)
    | Cleanup σ' => execute_trades_loop fuel σ' acc
    | Fill msg σ' => execute_trades_loop fuel σ' (acc ++ [msg])
    | Crash => Some Undefined
    end.
Proof. done. Qed.

(** More fuel does not change a result. *)
Lemma execute_trades_loop_mono a b σ acc r :
  (a ≤ b)%nat →
  execute_trades_loop a σ acc = Some r →
  execute_trades_loop b σ acc = Some r.
Proof.
  revert b σ acc. induction a as [|a IHa]; intros b σ acc Hab Ha; [done|].
  destruct b as [|b]; [lia|]. simpl in *.
  destruct (iterate σ); try done; apply IHa; try done; lia.
Qed.

(** From a state that satisfies the invariant the loop comes to an end
    within [weight σ] fills: it leaves at a [break], or a pass reads a freed
    order. *)
Lemma loop_terminates σ :
  book_inv σ →
  ∃ r, execute_trades (S (weight σ)) σ = Some r
       ∧ (r = Undefined
          ∨ ∃ msgs σ', r = Returns msgs σ' ∧ loop σ msgs σ').
Proof.
  intros Hinv.
  cut (∀ acc, ∃ r, execute_trades_loop (S (weight σ)) σ acc = Some r
         ∧ (r = Undefined
            ∨ ∃ msgs σ', r = Returns (acc ++ msgs) σ' ∧ loop σ msgs σ')).
  { intros H. destruct (H []) as (r & ? & ?). by exists r. }
  remember (weight σ) as w eqn:Ew. revert σ Hinv Ew.
  induction w as [w IH] using lt_wf_ind. intros σ Hinv Ew acc.
  pose proof (iterate_ok _ Hinv) as Hok.
  rewrite execute_trades_loop_S.
  destruct (iterate σ) as [|σ1|msg σ1|] eqn:E; simpl in Hok; try done.
  - exists (Returns acc σ). split; [done|]. right. exists [], σ.
    split; [by rewrite app_nil_r|by constructor].
  - destruct Hok as (Hinv1 & Hw & _).
    destruct (IH (weight σ1) ltac:(lia) σ1 Hinv1 eq_refl (acc ++ [msg]))
      as (r & Hex & Hr).
    exists r. split.
    { eapply execute_trades_loop_mono; [|exact Hex]. lia. }
    destruct Hr as [->|(msgs & σ' & -> & Hl)]; [by left|right].
    exists (msg :: msgs), σ'. split; [by rewrite <- app_assoc|].
    by eapply loop_fill.
  - exists Undefined. split; [done|by left].
Qed.

Lemma loop_inv σ msgs σ' :
  book_inv σ → loop σ msgs σ' →
  book_inv σ'
  ∧ iterate σ' = Break
  ∧ OrderBook.current_order_id (book σ') = OrderBook.current_order_id (book σ).
Proof.
  intros Hinv Hl.
  induction Hl as [σ E|σ σ1 msgs σ' E _ IH|σ msg σ1 msgs σ' E _ IH].
  - done.
  - pose proof (iterate_ok _ Hinv) as Hok. by rewrite E in Hok.
  - pose proof (iterate_ok _ Hinv) as Hok. rewrite E in Hok.
    destruct Hok as (Hinv1 & _ & Hc & _).
    destruct (IH Hinv1) as (? & ? & ?). split_and!; try done. congruence.
Qed.

Lemma pass_inv σ σi : book_inv σ → pass σ σi → book_inv σi.
Proof.
  intros Hinv Hp. induction Hp as [σ|σ σ1 σ2 _ IH E|σ σ1 msg σ2 _ IH E].
  - done.
  - pose proof (iterate_ok _ (IH Hinv)) as Hok. by rewrite E in Hok.
  - pose proof (iterate_ok _ (IH Hinv)) as Hok. rewrite E in Hok. apply Hok.
Qed.

Lemma pass_step σ σ1 σi :
  (iterate σ = Cleanup σ1 ∨ ∃ msg, iterate σ = Fill msg σ1) →
  pass σ1 σi → pass σ σi.
Proof.
  intros Hstep Hp. induction Hp as [σ1|σ1 σ2 σ3 _ IH E|σ1 σ2 msg σ3 _ IH E].
  - destruct Hstep as [E|[msg E]].
    + eapply pass_cleanup; [apply pass_first|done].
    + eapply pass_fill; [apply pass_first|done].
  - eapply pass_cleanup; [by apply IH|done].
  - eapply pass_fill; [by apply IH|done].
Qed.

(** Every message of the loop is emitted by a pass. *)
Lemma loop_messages σ msgs σ' msg :
  loop σ msgs σ' → msg ∈ msgs →
  ∃ σi σj, pass σ σi ∧ iterate σi = Fill msg σj.
Proof.
  intros Hl. induction Hl as [σ E|σ σ1 msgs σ' E _ IH|σ m σ1 msgs σ' E _ IH];
    intros Hin.
  - by apply elem_of_nil in Hin.
  - destruct (IH Hin) as (σi & σj & Hp & Hf).
    exists σi, σj. split; [|done]. eapply pass_step; [|done]. by left.
  - apply elem_of_cons in Hin as [->|Hin].
    + exists σ, σ1. split; [apply pass_first|done].
    + destruct (IH Hin) as (σi & σj & Hp & Hf).
      exists σi, σj. split; [|done]. eapply pass_step; [|done]. right. by exists m.
Qed.

Lemma fill_Some σ bb ba bl al pb pa msg σ' :
  fill σ bb ba bl al pb pa = Some (msg, σ') →
  ∃ bo ao,
    heap σ !! pb = Some bo ∧ heap σ !! pa = Some ao
    ∧ msg = TRADE (Order.id bo) (Order.id ao)
              (Z.min (Order.quantity bo) (Order.quantity ao))
              (stream_double ba).
Proof.
  unfold fill. intros Ef.
  destruct (heap σ !! pb) as [bo|]; [|done]. simpl in Ef.
  destruct (heap σ !! pa) as [ao|]; [|done]. simpl in Ef.
  destruct (sub_quantity pb _ _) as [h1|]; [|done]. simpl in Ef.
  destruct (sub_quantity pa _ _) as [h2|]; [|done]. simpl in Ef.
  destruct (int (PriceLevel.total_quantity bl - _)) as [bt|]; [|done].
  simpl in Ef.
  destruct (int (PriceLevel.total_quantity al - _)) as [at'|]; [|done].
  simpl in Ef.
  destruct (erase_filled h2 _ pb _ _) as [[bl' ix1]|]; [|done]. simpl in Ef.
  destruct (erase_filled h2 _ pa _ _) as [[al' ix2]|]; [|done]. simpl in Ef.
  injection Ef as <- <-. by exists bo, ao.
Qed.

(** The price of a message is the text of [best_ask] of the pass. *)
Lemma iterate_Fill_price σ msg σ' :
  iterate σ = Fill msg σ' →
  trade_price msg = stream_double (OrderBook.get_best_ask (book σ)).
Proof.
  unfold iterate. intros H.
  case_decide; [done|].
  destruct (OrderBook.bid_price_map (book σ) !! _) as [bl|]; [|done].
  destruct (OrderBook.ask_price_map (book σ) !! _) as [al|]; [|done].
  destruct (PriceLevel.orders bl) as [|pb rb]; [done|].
  destruct (PriceLevel.orders al) as [|pa ra]; [done|].
  destruct (fill _ _ _ _ _ _ _) as [[m s]|] eqn:Ef; [|done].
  injection H as -> ->.
  by apply fill_Some in Ef as (bo & ao & _ & _ & ->).
Qed.

(** ** The id counter *)

Lemma fill_counter σ bb ba bl al pb pa msg σ' :
  fill σ bb ba bl al pb pa = Some (msg, σ') →
  OrderBook.current_order_id (book σ') = OrderBook.current_order_id (book σ).
Proof.
  unfold fill. intros Ef.
  destruct (heap σ !! pb) as [bo|]; [|done]. simpl in Ef.
  destruct (heap σ !! pa) as [ao|]; [|done]. simpl in Ef.
  destruct (sub_quantity pb _ _) as [h1|]; [|done]. simpl in Ef.
  destruct (sub_quantity pa _ _) as [h2|]; [|done]. simpl in Ef.
  destruct (int (PriceLevel.total_quantity bl - _)) as [bt|]; [|done].
  simpl in Ef.
  destruct (int (PriceLevel.total_quantity al - _)) as [at'|]; [|done].
  simpl in Ef.
  destruct (erase_filled h2 _ pb _ _) as [[bl' ix1]|]; [|done]. simpl in Ef.
  destruct (erase_filled h2 _ pa _ _) as [[al' ix2]|]; [|done]. simpl in Ef.
  injection Ef as <- <-. simpl. by autorewrite with book.
Qed.

Lemma iterate_counter σ :
  match iterate σ with
  | Cleanup σ' | Fill _ σ' =>
      OrderBook.current_order_id (book σ') = OrderBook.current_order_id (book σ)
  | Break | Crash => True
  end.
Proof.
  unfold iterate. case_decide; [done|].
  destruct (OrderBook.bid_price_map (book σ) !! _) as [bl|]; [|done].
  destruct (OrderBook.ask_price_map (book σ) !! _) as [al|]; [|done].
  destruct (PriceLevel.orders bl) as [|pb rb] eqn:Eb;
    destruct (PriceLevel.orders al) as [|pa ra] eqn:Ea;
    try (unfold cleanup; rewrite ?Eb, ?Ea; simpl; by autorewrite with book).
  destruct (fill _ _ _ _ _ _ _) as [[m s]|] eqn:Ef; [|done].
  by eapply fill_counter.
Qed.

Lemma loop_counter σ msgs σ' :
  loop σ msgs σ' →
  OrderBook.current_order_id (book σ') = OrderBook.current_order_id (book σ).
Proof.
  induction 1 as [σ E|σ σ1 msgs σ' E _ IH|σ msg σ1 msgs σ' E _ IH]; [done|..];
    pose proof (iterate_counter σ) as Hc; rewrite E in Hc; congruence.
Qed.

Lemma execute_trades_counter fuel σ msgs σ' :
  execute_trades fuel σ = Some (Returns msgs σ') →
  OrderBook.current_order_id (book σ') = OrderBook.current_order_id (book σ).
Proof.
  intros H. apply loop_sound in H as (? & _ & Hl). by eapply loop_counter.
Qed.

Lemma add_order_throws σ buy q prc c e σ' :
  add_order σ buy q prc c = Throws e σ' →
  (q ≤ 0 ∨ (prc ≤ 0)%Qc)
  ∧ e = invalid_argument "Quantity and price must be positive"
  ∧ σ' = σ.
Proof.
  unfold add_order. intros H. case_decide as Hchk.
  - by injection H as <- <-.
  - destruct (int _); [|done]. repeat case_match; done.
Qed.

Lemma cancel_order_counter σ k σ' :
  cancel_order σ k = Returns tt σ' →
  OrderBook.current_order_id (book σ') = OrderBook.current_order_id (book σ).
Proof.
  unfold cancel_order. intros H.
  repeat case_match; simplify_eq; simpl; by autorewrite with book.
Qed.

Lemma book_inv_initial : book_inv initial.
Proof.
  split; simpl.
  - by intros []; simpl; rewrite dom_empty_L.
  - intros []; apply map_Forall_empty.
  - unfold INT_MAX. lia.
  - apply map_Forall_empty.
Qed.

Lemma execute_trades_inv fuel σ msgs σ' :
  book_inv σ →
  execute_trades fuel σ = Some (Returns msgs σ') →
  book_inv σ'.
Proof.
  intros Hinv H. apply loop_sound in H as (? & _ & Hl).
  by destruct (loop_inv _ _ _ Hinv Hl).
Qed.

(** Sequences of calls keep the invariant; the ids they return lie
    between the two values of the counter and increase. *)
Lemma run_inv σ ids σ' : book_inv σ → run σ ids σ' → book_inv σ'.
Proof.
  intros Hinv Hr.
  induction Hr as [σ|σ ids σ1 b q p c i σ2 _ IH H|σ ids σ1 b q p c e σ2 _ IH H
                  |σ ids σ1 k σ2 _ IH H|σ ids σ1 k e σ2 _ IH H
                  |σ ids σ1 fuel msgs σ2 _ IH H].
  - done.
  - eapply add_order_inv; [by apply IH|done].
  - apply add_order_throws in H as (_ & _ & ->). auto.
  - eapply cancel_order_inv; [by apply IH|done].
  - apply cancel_order_throws in H as ->. auto.
  - eapply execute_trades_inv; [by apply IH|done].
Qed.

Lemma run_ids σ ids σ' :
  run σ ids σ' →
  OrderBook.current_order_id (book σ) ≤ OrderBook.current_order_id (book σ')
  ∧ Forall (λ i, OrderBook.current_order_id (book σ) < i
                 ≤ OrderBook.current_order_id (book σ')) ids
  ∧ StronglySorted Z.lt ids.
Proof.
  intros Hr.
  induction Hr as [σ|σ ids σ1 b q p c i σ2 _ IH H|σ ids σ1 b q p c e σ2 _ IH H
                  |σ ids σ1 k σ2 _ IH H|σ ids σ1 k e σ2 _ IH H
                  |σ ids σ1 fuel msgs σ2 _ IH H].
  - split; [done|]. split; constructor.
  - destruct IH as (Hle & Hall & Hs).
    apply add_order_returns in H as (_ & _ & Hi & _ & Hc).
    rewrite Hc. split; [lia|]. split.
    + apply Forall_app. split.
      * eapply Forall_impl; [exact Hall|]. simpl. intros; lia.
      * apply Forall_singleton. lia.
    + clear Hle. induction Hs as [|x l Hs IHs Hx]; simpl.
      * repeat constructor.
      * apply Forall_cons in Hall as [Hx1 Hall].
        constructor; [by apply IHs|].
        apply Forall_app. split; [done|]. apply Forall_singleton. lia.
  - apply add_order_throws in H as (_ & _ & ->). done.
  - apply cancel_order_counter in H. by rewrite H.
  - apply cancel_order_throws in H as ->. done.
  - apply execute_trades_counter in H. by rewrite H.
Qed.

(** ** [add_order] followed by [cancel_order] *)

Lemma index_with_index ix b :
  OrderBook.order_id_map (OrderBook.with_index ix b) = ix.
Proof. done. Qed.

Lemma index_with_counter n b :
  OrderBook.order_id_map (OrderBook.with_counter n b) = OrderBook.order_id_map b.
Proof. done. Qed.

Lemma counter_with_index ix b :
  OrderBook.current_order_id (OrderBook.with_index ix b)
  = OrderBook.current_order_id b.
Proof. done. Qed.

Lemma counter_with_counter n b :
  OrderBook.current_order_id (OrderBook.with_counter n b) = n.
Proof. done. Qed.

#[local] Hint Rewrite index_with_index index_with_counter counter_with_index
  counter_with_counter : book.

Lemma erase_first_last h k l p o :
  Forall (λ x, ∃ o', h !! x = Some o' ∧ Order.id o' ≠ k) l →
  h !! p = Some o → Order.id o = k →
  PriceLevel.erase_first h k (l ++ [p]) = Some (Some (Order.quantity o, l)).
Proof.
  intros Hall Hp Hid. induction Hall as [|x l (o' & Hx & Hne) _ IH]; simpl.
  - rewrite Hp. simpl. by rewrite decide_True.
  - rewrite Hx. simpl. rewrite decide_False by done. by rewrite IH.
Qed.

Lemma insert_then_erase (x : Qc) (X : gset Qc) :
  x ∉ X → ({[x]} ∪ X) ∖ {[x]} = X.
Proof.
  intros Hx. rewrite difference_union_distr_l_L, difference_diag_L.
  rewrite (left_id_L ∅ (∪)). apply difference_disjoint_L.
  by apply disjoint_singleton_r.
Qed.

Lemma add_then_cancel σ buy q prc c i σ1 :
  book_inv σ →
  add_order σ buy q prc c = Returns i σ1 →
  ∃ σ2,
    cancel_order σ1 i = Returns tt σ2
    ∧ book σ2 = OrderBook.with_counter i (book σ)
    ∧ ∀ p o, heap σ !! p = Some o → heap σ2 !! p = Some o.
Proof.
  intros Hinv H.
  destruct (add_order_returns _ _ _ _ _ _ _ H) as (Hq & Hprc & Hi & Himax & _).
  pose proof Hinv as [Hdom Hlvls Hcnt Hix].
  unfold add_order in H.
  case_decide as Hchk; [done|].
  destruct (int _) as [n|] eqn:Hint; [|done].
  apply int_Some in Hint as [-> Hr].
  set (p := fresh (dom (heap σ))) in *.
  set (o := Order.mk _ _ _ _ _) in *.
  assert (Hfresh : heap σ !! p = None).
  { apply not_elem_of_dom. apply is_fresh. }
  assert (Hkeep : ∀ p' o', heap σ !! p' = Some o' → <[p:=o]> (heap σ) !! p' = Some o').
  { intros p' o' Ho'. rewrite lookup_insert_ne; [done|]. intros ->. congruence. }
  assert (Hnone : OrderBook.order_id_map (book σ) !! i = None).
  { destruct (OrderBook.order_id_map (book σ) !! i) as [x|] eqn:Ei; [|done].
    destruct (Hix _ _ Ei). lia. }
  unfold emplace in H. subst i. rewrite Hnone in H.
  set (i := OrderBook.current_order_id (book σ) + 1) in *.
  assert (Hold : ∀ lvl, level_ok (heap σ) (OrderBook.current_order_id (book σ)) buy prc lvl →
            Forall (λ x, ∃ o', <[p:=o]> (heap σ) !! x = Some o' ∧ Order.id o' ≠ i)
                   (PriceLevel.orders lvl)).
  { intros lvl [_ _ _ _ Hall _ _]. eapply Forall_impl; [exact Hall|].
    intros x (o' & Ho' & _ & _ & _ & Hid). exists o'. split; [by apply Hkeep|].
    unfold i. lia. }
  destruct (OrderBook.price_map buy (book σ) !! prc) as [level|] eqn:Elvl.
  - (* the level existed *)
    pose proof (Hlvls buy _ _ Elvl) as Hlok.
    pose proof (level_ok_total_positive _ _ _ _ _ Hlok) as Htpos.
    unfold PriceLevel.add_order in H. rewrite lookup_insert_eq in H. simpl in H.
    destruct (int _) as [total|] eqn:Hint; [|done].
    apply int_Some in Hint as [-> Hrange]. simpl in H. injection H as <-.
    eexists. split.
    + unfold cancel_order. simpl. autorewrite with book. simpl.
      rewrite !lookup_insert_eq. simpl. autorewrite with book.
      rewrite lookup_insert_eq.
      unfold PriceLevel.remove_order. simpl.
      rewrite (erase_first_last _ i _ p o); [|by apply Hold|apply lookup_insert_eq|done].
      simpl.
      replace (PriceLevel.total_quantity level + q - q)
        with (PriceLevel.total_quantity level) by lia.
      rewrite int_in_range by (unfold INT_MIN; pose proof (lvl_range _ _ _ _ _ Hlok); lia).
      simpl. rewrite decide_False by lia. done.
    + simpl. split; [|done].
      autorewrite with book. rewrite insert_insert_eq, delete_insert_eq.
      rewrite (delete_id _ _ Hnone).
      destruct level as [lp lo lt]. simpl.
      rewrite insert_id by done.
      clear. by destruct buy, (book σ).
  - (* the level is new *)
    assert (Hnotin : prc ∉ OrderBook.prices buy (book σ)).
    { rewrite <- Hdom. by apply not_elem_of_dom. }
    unfold PriceLevel.add_order in H. rewrite lookup_insert_eq in H. simpl in H.
    destruct (int _) as [total|] eqn:Hint; [|done].
    apply int_Some in Hint as [-> Hrange]. simpl in H. injection H as <-.
    eexists. split.
    + unfold cancel_order. simpl. autorewrite with book. simpl.
      rewrite !lookup_insert_eq. simpl. autorewrite with book.
      rewrite lookup_insert_eq.
      unfold PriceLevel.remove_order.
      cbn [PriceLevel.orders PriceLevel.total_quantity PriceLevel.price app].
      pose proof (erase_first_last (<[p:=o]> (heap σ)) i [] p o
                    ltac:(constructor) ltac:(apply lookup_insert_eq) eq_refl) as He.
      simpl app in He. rewrite He.
      simpl. replace (0 + q - q) with 0 by lia.
      rewrite int_in_range by (unfold INT_MIN, INT_MAX; lia).
      simpl. done.
    + simpl. split; [|done].
      autorewrite with book. rewrite delete_insert_eq, delete_insert_eq.
      rewrite (delete_id _ _ Hnone), (delete_id _ _ Elvl).
      rewrite (insert_then_erase _ _ Hnotin).
      clear. by destruct buy, (book σ).
Qed.

(** ** Which orders a pass touches *)

Lemma sub_quantity_other p n h h' x :
  sub_quantity p n h = Some h' → x ≠ p → h' !! x = h !! x.
Proof.
  unfold sub_quantity. intros H Hx.
  destruct (h !! p) as [o|]; [|done]. simpl in H.
  destruct (int _) as [q|]; [|done]. simpl in H.
  injection H as <-. by rewrite lookup_insert_ne.
Qed.

(** A pass that emits a message writes only to the two orders at the head
    of the queues of the best bid and best ask levels; the orders behind
    them keep their quantity and their place. *)
Lemma iterate_Fill_heads σ msg σ' :
  iterate σ = Fill msg σ' →
  ∃ bl al pb rb pa ra bo ao,
    OrderBook.bid_price_map (book σ) !! OrderBook.get_best_bid (book σ) = Some bl
    ∧ OrderBook.ask_price_map (book σ) !! OrderBook.get_best_ask (book σ) = Some al
    ∧ PriceLevel.orders bl = pb :: rb
    ∧ PriceLevel.orders al = pa :: ra
    ∧ heap σ !! pb = Some bo ∧ heap σ !! pa = Some ao
    ∧ buy_id msg = Order.id bo ∧ sell_id msg = Order.id ao
    ∧ trade_qty msg = Z.min (Order.quantity bo) (Order.quantity ao)
    ∧ ∀ x, x ≠ pb → x ≠ pa → heap σ' !! x = heap σ !! x.
Proof.
  unfold iterate. intros H.
  case_decide; [done|].
  destruct (OrderBook.bid_price_map (book σ) !! _) as [bl|]; [|done].
  destruct (OrderBook.ask_price_map (book σ) !! _) as [al|]; [|done].
  destruct (PriceLevel.orders bl) as [|pb rb] eqn:Eb; [done|].
  destruct (PriceLevel.orders al) as [|pa ra] eqn:Ea; [done|].
  destruct (fill _ _ _ _ _ _ _) as [[m s]|] eqn:Ef; [|done].
  injection H as -> ->.
  unfold fill in Ef.
  destruct (heap σ !! pb) as [bo|] eqn:Hbo; [|done]. simpl in Ef.
  destruct (heap σ !! pa) as [ao|] eqn:Hao; [|done]. simpl in Ef.
  destruct (sub_quantity pb _ _) as [h1|] eqn:E1; [|done]. simpl in Ef.
  destruct (sub_quantity pa _ _) as [h2|] eqn:E2; [|done]. simpl in Ef.
  destruct (int (PriceLevel.total_quantity bl - _)) as [bt|]; [|done].
  simpl in Ef.
  destruct (int (PriceLevel.total_quantity al - _)) as [at'|]; [|done].
  simpl in Ef.
  destruct (erase_filled h2 _ pb _ _) as [[bl' ix1]|]; [|done]. simpl in Ef.
  destruct (erase_filled h2 _ pa _ _) as [[al' ix2]|]; [|done]. simpl in Ef.
  injection Ef as <- <-.
  exists bl, al, pb, rb, pa, ra, bo, ao. split_and!; try done.
  intros x Hb Ha. simpl.
  rewrite (sub_quantity_other _ _ _ _ _ E2 Ha).
  by rewrite (sub_quantity_other _ _ _ _ _ E1 Hb).
Qed.

(** ** Further facts about [add_order] and [cancel_order] *)

(** With a total of [INT_MAX] at a level, one more unit overflows
    [total_quantity += order->quantity]. *)
Lemma add_order_total_overflow :
  add_order (added initial true INT_MAX (of_int 100) 1) true 1 (of_int 100) 2
  = Undefined.
Proof. vm_compute. reflexivity. Qed.

(** The throw at the head of [cancel_order] happens exactly for an id that
    is not a key of [order_id_map]. *)
Lemma cancel_order_not_found σ k :
  OrderBook.order_id_map (book σ) !! k = None
  ↔ cancel_order σ k = Throws (runtime_error "Order not found") σ.
Proof.
  unfold cancel_order. split.
  - by intros ->.
  - intros H.
    destruct (OrderBook.order_id_map (book σ) !! k) as [it|]; [|done].
    destruct (heap σ !! it) as [order|]; [|done].
    destruct (OrderBook.price_map _ _ !! _) as [level|]; [|done].
    unfold PriceLevel.remove_order in H.
    destruct (PriceLevel.erase_first _ _ _) as [[[q l]|]|]; try done.
    destruct (int _); done.
Qed.

(** X7.  After a [cancel_order] that returned, a second one of the same id
    throws "Order not found" and leaves the state as it is. *)
Lemma cancel_order_twice σ k σ' :
  cancel_order σ k = Returns tt σ' →
  cancel_order σ' k = Throws (runtime_error "Order not found") σ'.
Proof.
  intros H. apply cancel_order_not_found.
  unfold cancel_order in H.
  destruct (OrderBook.order_id_map (book σ) !! k) as [it|]; [|done].
  destruct (heap σ !! it) as [order|]; [|done].
  destruct (OrderBook.price_map _ _ !! _) as [level|]; [|done].
  destruct (PriceLevel.remove_order _ _ _) as [level'| |]; try done.
  injection H as <-. simpl. apply lookup_delete_eq.
Qed.

(** ** The snapshot of a book with integer prices *)

Lemma append_assoc (s1 s2 s3 : string) : (s1 +:+ s2) +:+ s3 = s1 +:+ s2 +:+ s3.
Proof.
  induction s1 as [|c s1 IH]; simpl; [done|].
  unfold String.app in *. simpl. by rewrite IH.
Qed.

Lemma append_empty_r (s : string) : s +:+ "" = s.
Proof. induction s as [|c s IH]; [done|]. unfold String.app in *. simpl. by rewrite IH. Qed.

Lemma to_int_of_int z : INT_MIN ≤ z ≤ INT_MAX → to_int (of_int z) = Some z.
Proof.
  intros Hz. unfold to_int, of_int. simpl.
  rewrite Qred_identity by (simpl; apply Z.gcd_1_r).
  simpl. rewrite Z.quot_1_r. by apply int_in_range.
Qed.

Lemma to_ints_of_ints (l : list Qc) :
  Forall (λ p, ∃ z, p = of_int z ∧ INT_MIN ≤ z ≤ INT_MAX) l →
  ∃ zs, to_ints l = Some zs ∧ of_int <$> zs = l.
Proof.
  induction 1 as [|p l (z & -> & Hz) _ (zs & IH & E)]; simpl.
  - by exists [].
  - rewrite to_int_of_int by done. simpl. rewrite IH. simpl.
    exists (z :: zs). by rewrite fmap_cons, E.
Qed.

Lemma print_levels_ok m l ss :
  Forall (λ z, is_Some (m !! of_int z)) l →
  print_levels m l ss = Ok (ss +:+ level_lines m l).
Proof.
  intros Hall. revert ss. induction Hall as [|z l [lvl Hl] _ IH]; intros ss; simpl.
  - by rewrite append_empty_r.
  - rewrite Hl, IH. simpl. unfold level_line. by rewrite !append_assoc.
Qed.

#[local] Instance Z_ge_total : Total Z.ge.
Proof. intros x y. lia. Qed.

(** X8.  When every price of the book is an integer that fits an [int], the
    snapshot lists the bid levels in descending and the ask levels in
    ascending order of price, one line per level. *)
Lemma snapshot_of_integer_prices σ :
  dom (OrderBook.bid_price_map (book σ)) = OrderBook.bid_prices (book σ) →
  dom (OrderBook.ask_price_map (book σ)) = OrderBook.ask_prices (book σ) →
  (∀ p, p ∈ OrderBook.bid_prices (book σ) ∪ OrderBook.ask_prices (book σ) →
        ∃ z, p = of_int z ∧ INT_MIN ≤ z ≤ INT_MAX) →
  ∃ bids asks,
    get_order_book_string σ
    = Ok ("BIDS:" +:+ newline
          +:+ level_lines (OrderBook.bid_price_map (book σ)) bids
          +:+ "ASKS:" +:+ newline
          +:+ level_lines (OrderBook.ask_price_map (book σ)) asks)
    ∧ Sorted Z.ge bids
    ∧ of_int <$> bids ≡ₚ elements (OrderBook.bid_prices (book σ))
    ∧ Sorted Z.le asks
    ∧ of_int <$> asks ≡ₚ elements (OrderBook.ask_prices (book σ)).
Proof.
  intros Hdb Hda Hint.
  destruct (to_ints_of_ints (elements (OrderBook.bid_prices (book σ))))
    as (bs & Hbs & Eb).
  { apply Forall_forall. intros p Hp. apply Hint, elem_of_union_l.
    by apply elem_of_elements. }
  destruct (to_ints_of_ints (elements (OrderBook.ask_prices (book σ))))
    as (as' & Has & Ea).
  { apply Forall_forall. intros p Hp. apply Hint, elem_of_union_r.
    by apply elem_of_elements. }
  exists (merge_sort Z.ge bs), (merge_sort Z.le as').
  assert (Hpb : merge_sort Z.ge bs ≡ₚ bs) by apply merge_sort_Permutation.
  assert (Hpa : merge_sort Z.le as' ≡ₚ as') by apply merge_sort_Permutation.
  split_and!.
  - unfold get_order_book_string. rewrite Hbs.
    rewrite print_levels_ok.
    2:{ apply Forall_forall. intros z Hz. apply elem_of_dom. rewrite Hdb.
        apply elem_of_elements. rewrite <- Eb. apply list_elem_of_fmap.
        exists z. split; [done|]. by rewrite <- Hpb. }
    rewrite Has. rewrite print_levels_ok.
    2:{ apply Forall_forall. intros z Hz. apply elem_of_dom. rewrite Hda.
        apply elem_of_elements. rewrite <- Ea. apply list_elem_of_fmap.
        exists z. split; [done|]. by rewrite <- Hpa. }
    by rewrite !append_assoc.
  - apply Sorted_merge_sort. apply _.
  - by rewrite Hpb, Eb.
  - apply Sorted_merge_sort. apply _.
  - by rewrite Hpa, Ea.
Qed.

(** ** The ids of the order objects *)

Lemma ids_inv_initial : ids_inv initial.
Proof. split; intros *; simpl; by rewrite lookup_empty. Qed.

Lemma add_order_ids_inv σ buy q prc c i σ' :
  ids_inv σ → add_order σ buy q prc c = Returns i σ' → ids_inv σ'.
Proof.
  intros [Hle Huniq] H.
  destruct (add_order_returns _ _ _ _ _ _ _ H) as (_ & _ & Hi & _ & Hc).
  assert (Hh : heap σ' = <[fresh (dom (heap σ)) := Order.mk i buy q prc c]> (heap σ)).
  { unfold add_order in H. case_decide; [done|].
    destruct (int _) as [n|] eqn:Hint; [|done].
    apply int_Some in Hint as [-> _].
    repeat case_match; simplify_eq; done. }
  assert (Hfresh : heap σ !! fresh (dom (heap σ)) = None).
  { apply not_elem_of_dom. apply is_fresh. }
  split.
  - intros p o. rewrite Hh, Hc. intros [[_ <-]|[_ Ho]]%lookup_insert_Some; simpl.
    + lia.
    + apply Hle in Ho. lia.
  - intros p1 p2 o1 o2. rewrite Hh.
    intros [[<- <-]|[? Ho1]]%lookup_insert_Some
           [[<- <-]|[? Ho2]]%lookup_insert_Some; simpl; intros E.
    + done.
    + apply Hle in Ho2. lia.
    + apply Hle in Ho1. lia.
    + by eapply Huniq.
Qed.

Lemma cancel_order_heap σ k σ' :
  cancel_order σ k = Returns tt σ' → heap σ' = heap σ.
Proof.
  unfold cancel_order. intros H. repeat case_match; simplify_eq; done.
Qed.

Lemma cancel_order_ids_inv σ k σ' :
  ids_inv σ → cancel_order σ k = Returns tt σ' → ids_inv σ'.
Proof.
  intros [Hle Huniq] H.
  pose proof (cancel_order_counter _ _ _ H) as Hc.
  pose proof (cancel_order_heap _ _ _ H) as Hh.
  split; rewrite Hh, ?Hc; done.
Qed.

Lemma sub_quantity_id p n h h' x :
  sub_quantity p n h = Some h' → Order.id <$> h' !! x = Order.id <$> h !! x.
Proof.
  unfold sub_quantity. intros H.
  destruct (h !! p) as [o|] eqn:Hp; [|done]. simpl in H.
  destruct (int _) as [q|]; [|done]. simpl in H. injection H as <-.
  destruct (decide (x = p)) as [->|Hx].
  - by rewrite lookup_insert_eq, Hp.
  - by rewrite lookup_insert_ne.
Qed.

(** A pass changes no id. *)
Lemma iterate_ids σ x :
  match iterate σ with
  | Cleanup σ' | Fill _ σ' => Order.id <$> heap σ' !! x = Order.id <$> heap σ !! x
  | Break | Crash => True
  end.
Proof.
  unfold iterate. case_decide; [done|].
  destruct (OrderBook.bid_price_map (book σ) !! _) as [bl|]; [|done].
  destruct (OrderBook.ask_price_map (book σ) !! _) as [al|]; [|done].
  destruct (PriceLevel.orders bl) as [|pb rb] eqn:Eb;
    destruct (PriceLevel.orders al) as [|pa ra] eqn:Ea; try done.
  destruct (fill _ _ _ _ _ _ _) as [[m s]|] eqn:Ef; [|done].
  unfold fill in Ef.
  destruct (heap σ !! pb) as [bo|] eqn:Hbo; [|done]. simpl in Ef.
  destruct (heap σ !! pa) as [ao|] eqn:Hao; [|done]. simpl in Ef.
  destruct (sub_quantity pb _ _) as [h1|] eqn:E1; [|done]. simpl in Ef.
  destruct (sub_quantity pa _ _) as [h2|] eqn:E2; [|done]. simpl in Ef.
  destruct (int (PriceLevel.total_quantity bl - _)) as [bt|]; [|done].
  simpl in Ef.
  destruct (int (PriceLevel.total_quantity al - _)) as [at'|]; [|done].
  simpl in Ef.
  destruct (erase_filled h2 _ pb _ _) as [[bl' ix1]|]; [|done]. simpl in Ef.
  destruct (erase_filled h2 _ pa _ _) as [[al' ix2]|]; [|done]. simpl in Ef.
  injection Ef as <- <-. simpl.
  rewrite (sub_quantity_id _ _ _ _ x E2). by rewrite (sub_quantity_id _ _ _ _ x E1).
Qed.

Lemma ids_inv_agree σ σ' :
  (∀ x, Order.id <$> heap σ' !! x = Order.id <$> heap σ !! x) →
  OrderBook.current_order_id (book σ') = OrderBook.current_order_id (book σ) →
  ids_inv σ → ids_inv σ'.
Proof.
  intros Hid Hc [Hle Huniq]. split.
  - intros p o Ho. pose proof (Hid p) as E. rewrite Ho in E. simpl in E.
    destruct (heap σ !! p) as [o0|] eqn:Hp; [|done]. simpl in E.
    injection E as E. rewrite E, Hc. by eapply Hle.
  - intros p1 p2 o1 o2 H1 H2 E.
    pose proof (Hid p1) as E1. rewrite H1 in E1.
    pose proof (Hid p2) as E2. rewrite H2 in E2.
    destruct (heap σ !! p1) as [a1|] eqn:Ha1; [|done].
    destruct (heap σ !! p2) as [a2|] eqn:Ha2; [|done].
    simpl in E1, E2. eapply Huniq; [done..|]. congruence.
Qed.

Lemma loop_ids_inv σ msgs σ' : ids_inv σ → loop σ msgs σ' → ids_inv σ'.
Proof.
  intros Hinv Hl.
  induction Hl as [σ E|σ σ1 msgs σ' E _ IH|σ msg σ1 msgs σ' E _ IH]; [done|..];
    apply IH; (eapply ids_inv_agree; [| |exact Hinv]);
    [intros x; pose proof (iterate_ids σ x) as H; by rewrite E in H
    |pose proof (iterate_counter σ) as H; by rewrite E in H
    |intros x; pose proof (iterate_ids σ x) as H; by rewrite E in H
    |pose proof (iterate_counter σ) as H; by rewrite E in H].
Qed.

Lemma run_ids_inv σ ids σ' : ids_inv σ → run σ ids σ' → ids_inv σ'.
Proof.
  intros Hinv Hr.
  induction Hr as [σ|σ ids σ1 b q p c i σ2 _ IH H|σ ids σ1 b q p c e σ2 _ IH H
                  |σ ids σ1 k σ2 _ IH H|σ ids σ1 k e σ2 _ IH H
                  |σ ids σ1 fuel msgs σ2 _ IH H].
  - done.
  - eapply add_order_ids_inv; [by apply IH|done].
  - apply add_order_throws in H as (_ & _ & ->). auto.
  - eapply cancel_order_ids_inv; [by apply IH|done].
  - apply cancel_order_throws in H as ->. auto.
  - apply loop_sound in H as (? & _ & Hl). eapply loop_ids_inv; [by apply IH|done].
Qed.

(** ** [cancel_order] of an order that is indexed and queued *)

Lemma erase_first_middle h k l1 p o l2 :
  Forall (λ x, ∃ o', h !! x = Some o' ∧ Order.id o' ≠ k) l1 →
  h !! p = Some o → Order.id o = k →
  PriceLevel.erase_first h k (l1 ++ p :: l2)
  = Some (Some (Order.quantity o, l1 ++ l2)).
Proof.
  intros Hall Hp Hid. induction Hall as [|x l (o' & Hx & Hne) _ IH]; simpl.
  - rewrite Hp. simpl. by rewrite decide_True.
  - rewrite Hx. simpl. rewrite decide_False by done. by rewrite IH.
Qed.


(** * Scenarios *)

Lemma added_inv σ buy q prc c : book_inv σ → book_inv (added σ buy q prc c).
Proof.
  intros Hinv. unfold added.
  destruct (add_order σ buy q prc c) as [i σ'|e σ'|] eqn:E; [| |done].
  - by eapply add_order_inv.
  - by apply add_order_throws in E as (_ & _ & ->).
Qed.

Lemma book_sell_then_buy_inv : book_inv book_sell_then_buy.
Proof. repeat apply added_inv. apply book_inv_initial. Qed.

Lemma book_two_buys_one_sell_inv : book_inv book_two_buys_one_sell.
Proof. repeat apply added_inv. apply book_inv_initial. Qed.

(** * The properties of the specification *)

(** C1.  When [execute_trades] returns from a call on a book that
    satisfies the invariants, then in the book it leaves either the bid
    side is empty, or the ask side is empty, or the best bid is strictly
    below the best ask: every bid price is below every ask price.  The
    loop always comes to an end, within [weight σ] fills, and its result
    does not depend on the fuel. *)
Theorem execute_trades_no_cross σ :
  book_inv σ →
  (∃ r, execute_trades (S (weight σ)) σ = Some r
        ∧ ∀ fuel r', execute_trades fuel σ = Some r' → r' = r)
  ∧ ∀ fuel msgs σ',
      execute_trades fuel σ = Some (Returns msgs σ') →
      OrderBook.bid_prices (book σ') = ∅ ∧ OrderBook.bid_price_map (book σ') = ∅
      ∨ OrderBook.ask_prices (book σ') = ∅ ∧ OrderBook.ask_price_map (book σ') = ∅
      ∨ (OrderBook.get_best_bid (book σ') < OrderBook.get_best_ask (book σ'))%Qc
        ∧ ∀ bid ask, bid ∈ OrderBook.bid_prices (book σ') →
                     ask ∈ OrderBook.ask_prices (book σ') → (bid < ask)%Qc.
Proof.
  intros Hinv. split.
  { destruct (loop_terminates _ Hinv) as (r & Hex & _).
    exists r. split; [done|].
    intros fuel r' Hr. unfold execute_trades in *.
    destruct (Nat.le_ge_cases fuel (S (weight σ))) as [Hle|Hle].
    - pose proof (execute_trades_loop_mono _ _ _ _ _ Hle Hr). congruence.
    - pose proof (execute_trades_loop_mono _ _ _ _ _ Hle Hex). congruence. }
  intros fuel msgs σ' Hex.
  apply loop_sound in Hex as (msgs' & _ & Hl).
  destruct (loop_inv _ _ _ Hinv Hl) as (Hinv' & Hbrk & _).
  pose proof (iterate_ok _ Hinv') as Hok. rewrite Hbrk in Hok. simpl in Hok.
  pose proof (inv_dom _ Hinv' true) as Hdb. pose proof (inv_dom _ Hinv' false) as Hda.
  simpl in Hdb, Hda.
  destruct Hok as [E|[E|Hlt]].
  - left. split; [done|]. apply dom_empty_iff_L. by rewrite Hdb.
  - right; left. split; [done|]. apply dom_empty_iff_L. by rewrite Hda.
  - right; right. split; [done|]. intros bid ask Hb Ha.
    assert (OrderBook.bid_prices (book σ') ≠ ∅) as Hbne by (intros E; by rewrite E in Hb).
    assert (OrderBook.ask_prices (book σ') ≠ ∅) as Hane by (intros E; by rewrite E in Ha).
    destruct (get_best_bid_max _ Hbne) as [_ Hmax].
    destruct (get_best_ask_min _ Hane) as [_ Hmin].
    eapply Qcle_lt_trans; [by apply Hmax|].
    eapply Qclt_le_trans; [done|by apply Hmin].
Qed.

Lemma execute_trades_no_cross_witness :
  book_inv book_sell_then_buy
  ∧ execute_trades 2 book_sell_then_buy
    = Some (Returns [TRADE 2 1 10 "99"] (matched 2 book_sell_then_buy))
  ∧ (OrderBook.bid_prices (book (matched 2 book_sell_then_buy)) = ∅
     ∧ OrderBook.bid_price_map (book (matched 2 book_sell_then_buy)) = ∅
     ∨ OrderBook.ask_prices (book (matched 2 book_sell_then_buy)) = ∅
       ∧ OrderBook.ask_price_map (book (matched 2 book_sell_then_buy)) = ∅
     ∨ (OrderBook.get_best_bid (book (matched 2 book_sell_then_buy))
        < OrderBook.get_best_ask (book (matched 2 book_sell_then_buy)))%Qc
       ∧ ∀ bid ask,
           bid ∈ OrderBook.bid_prices (book (matched 2 book_sell_then_buy)) →
           ask ∈ OrderBook.ask_prices (book (matched 2 book_sell_then_buy)) →
           (bid < ask)%Qc).
Proof.
  assert (H : execute_trades 2 book_sell_then_buy
              = Some (Returns [TRADE 2 1 10 "99"] (matched 2 book_sell_then_buy)))
    by (vm_compute; reflexivity).
  split; [apply book_sell_then_buy_inv|]. split; [exact H|].
  exact (proj2 (execute_trades_no_cross book_sell_then_buy book_sell_then_buy_inv)
           2%nat _ _ H).
Defined.

(** C2.  The price of every message emitted by [execute_trades] is the
    text that the stream gives the best ask price of the book at the pass
    that emitted it, whichever of the two orders was added last: a sell at
    99 followed by a buy at 100 trades at 99, and so does a buy at 100
    followed by a sell at 99.  In the first case the ids are 1 and 2 and
    the only message is TRADE 2 1 10 99. *)
Theorem trade_price_is_streamed_best_ask :
  (∀ fuel σ msgs σ' msg,
     execute_trades fuel σ = Some (Returns msgs σ') →
     msg ∈ msgs →
     ∃ σi σj, pass σ σi ∧ iterate σi = Fill msg σj
              ∧ trade_price msg
                = stream_double (OrderBook.get_best_ask (book σi)))
  ∧ (∀ c1 c2, ∃ σ1 σ2 σ3,
       add_order initial false 10 (of_int 99) c1 = Returns 1 σ1
       ∧ add_order σ1 true 10 (of_int 100) c2 = Returns 2 σ2
       ∧ execute_trades 2 σ2 = Some (Returns [TRADE 2 1 10 "99"] σ3))
  ∧ (∀ c1 c2, ∃ σ1 σ2 σ3,
       add_order initial true 10 (of_int 100) c1 = Returns 1 σ1
       ∧ add_order σ1 false 10 (of_int 99) c2 = Returns 2 σ2
       ∧ execute_trades 2 σ2 = Some (Returns [TRADE 1 2 10 "99"] σ3)).
Proof.
  split; [|split].
  - intros fuel σ msgs σ' msg H Hin.
    apply loop_sound in H as (msgs' & -> & Hl). simpl in Hin.
    destruct (loop_messages _ _ _ _ Hl Hin) as (σi & σj & Hp & Hf).
    exists σi, σj. split_and!; try done. by eapply iterate_Fill_price.
  - intros c1 c2. eexists _, _, _.
    split; [vm_compute; reflexivity|].
    split; [vm_compute; reflexivity|].
    vm_compute; reflexivity.
  - intros c1 c2. eexists _, _, _.
    split; [vm_compute; reflexivity|].
    split; [vm_compute; reflexivity|].
    vm_compute; reflexivity.
Qed.

Lemma trade_price_is_streamed_best_ask_witness :
  execute_trades 2 book_sell_then_buy
  = Some (Returns [TRADE 2 1 10 "99"] (matched 2 book_sell_then_buy))
  ∧ ∃ σi σj, pass book_sell_then_buy σi
             ∧ iterate σi = Fill (TRADE 2 1 10 "99") σj
             ∧ trade_price (TRADE 2 1 10 "99")
               = stream_double (OrderBook.get_best_ask (book σi)).
Proof.
  assert (H : execute_trades 2 book_sell_then_buy
              = Some (Returns [TRADE 2 1 10 "99"] (matched 2 book_sell_then_buy)))
    by (vm_compute; reflexivity).
  split; [exact H|].
  apply (proj1 trade_price_is_streamed_best_ask 2%nat book_sell_then_buy
           [TRADE 2 1 10 "99"] (matched 2 book_sell_then_buy) _ H).
  by left.
Defined.

(** A sell of 10 at 1234567 followed by a buy of 10 at 1234567: the best
    ask is 1234567 and the message reads 1.23457e+06, the text of
    1234570. *)
Lemma trade_price_keeps_six_digits :
  execute_trades 2 book_seven_digits
  = Some (Returns [TRADE 2 1 10 "1.23457e+06"] (matched 2 book_seven_digits))
  ∧ OrderBook.get_best_ask (book book_seven_digits) = of_int 1234567
  ∧ stream_double (of_int 1234570) = "1.23457e+06"
  ∧ of_int 1234567 ≠ of_int 1234570.
Proof. split_and!; try (vm_compute; reflexivity). by vm_compute. Qed.

(** C10.  From every book that satisfies the invariants (every queued
    order has a remaining quantity of at least 1), every message emitted by
    one call of [execute_trades] has a quantity of at least 1, and its two
    ids are those of an order resting on the bid side and of an order
    resting on the ask side in the book at the pass that emitted it. *)
Theorem trades_are_positive_and_between_resting_orders fuel σ msgs σ' msg :
  book_inv σ →
  execute_trades fuel σ = Some (Returns msgs σ') →
  msg ∈ msgs →
  1 ≤ trade_qty msg
  ∧ ∃ σi σj, pass σ σi ∧ iterate σi = Fill msg σj
             ∧ resting σi true (buy_id msg)
             ∧ resting σi false (sell_id msg).
Proof.
  intros Hinv H Hin.
  apply loop_sound in H as (msgs' & -> & Hl). simpl in Hin.
  destruct (loop_messages _ _ _ _ Hl Hin) as (σi & σj & Hp & Hf).
  pose proof (iterate_ok _ (pass_inv _ _ Hinv Hp)) as Hok.
  rewrite Hf in Hok. destruct Hok as (_ & _ & _ & Hq & _ & Hb & Ha).
  split; [done|]. by exists σi, σj.
Qed.

Lemma trades_are_positive_and_between_resting_orders_witness :
  book_inv book_two_buys_one_sell
  ∧ 1 ≤ trade_qty (TRADE 1 3 5 "100")
  ∧ ∃ σi σj, pass book_two_buys_one_sell σi
             ∧ iterate σi = Fill (TRADE 1 3 5 "100") σj
             ∧ resting σi true (buy_id (TRADE 1 3 5 "100"))
             ∧ resting σi false (sell_id (TRADE 1 3 5 "100")).
Proof.
  split; [apply book_two_buys_one_sell_inv|].
  apply (trades_are_positive_and_between_resting_orders 2%nat
           book_two_buys_one_sell [TRADE 1 3 5 "100"]
           (matched 2 book_two_buys_one_sell)).
  - apply book_two_buys_one_sell_inv.
  - vm_compute. reflexivity.
  - by left.
Defined.

Lemma book_inv_joint σ : book_inv σ → joint_inv σ.
Proof.
  intros Hinv buy prc lvl Hl.
  pose proof (inv_levels _ Hinv buy _ _ Hl) as Hok.
  pose proof (level_ok_total_positive _ _ _ _ _ Hok).
  split_and!; [apply Hok|lia|apply Hok].
Qed.

(** With a positive quantity and price, [add_order] returns when neither
    the counter nor the total of the level overflows. *)
Lemma add_order_in_range σ is_buy quantity price client_id :
  book_inv σ →
  0 < quantity → (0 < price)%Qc →
  OrderBook.current_order_id (book σ) < INT_MAX →
  from_option PriceLevel.total_quantity 0
    (OrderBook.price_map is_buy (book σ) !! price) + quantity ≤ INT_MAX →
  ∃ σ', add_order σ is_buy quantity price client_id
        = Returns (OrderBook.current_order_id (book σ) + 1) σ'.
Proof.
  intros Hinv Hq Hp Hc Ht. unfold add_order.
  rewrite decide_False.
  2:{ intros [?|Hle]; [lia|]. by apply Qcle_not_lt in Hle. }
  pose proof (inv_counter _ Hinv) as Hcnt.
  assert (INT_MIN ≤ 0) as Hmin by (by vm_compute).
  rewrite (int_in_range (OrderBook.current_order_id (book σ) + 1)) by lia.
  destruct (OrderBook.price_map is_buy (book σ) !! price) as [lvl|] eqn:Hl;
    unfold PriceLevel.add_order; rewrite lookup_insert_eq; simpl; simpl in Ht.
  - pose proof (inv_levels _ Hinv is_buy _ _ Hl) as Hok.
    pose proof (level_ok_total_positive _ _ _ _ _ Hok) as Hpos.
    rewrite (int_in_range (PriceLevel.total_quantity lvl + quantity)) by lia.
    simpl. eauto.
  - rewrite (int_in_range (0 + quantity)) by lia. simpl. eauto.
Qed.

(** C4.  The public operations keep the joint invariant as long as no
    [int] overflows.  The books are those of [book_inv], which the fresh
    book satisfies.  [add_order] with a positive quantity and price returns
    and leaves such a book when the counter is below [INT_MAX] and the
    total of the level, plus the quantity, does not exceed [INT_MAX];
    [add_order], [cancel_order] and [execute_trades] leave such a book
    whenever they return or throw, and so does any sequence of such calls.
    In every level of such a book the total is the sum of the remaining
    quantities of the queue, and no level with a zero total or an empty
    queue is indexed. *)
Theorem operations_keep_joint_invariant :
  book_inv initial
  ∧ ∀ σ, book_inv σ →
      joint_inv σ
      ∧ (∀ is_buy quantity price client_id,
           0 < quantity → (0 < price)%Qc →
           OrderBook.current_order_id (book σ) < INT_MAX →
           from_option PriceLevel.total_quantity 0
             (OrderBook.price_map is_buy (book σ) !! price) + quantity
           ≤ INT_MAX →
           ∃ σ', add_order σ is_buy quantity price client_id
                 = Returns (OrderBook.current_order_id (book σ) + 1) σ'
                 ∧ book_inv σ' ∧ joint_inv σ')
      ∧ (∀ is_buy quantity price client_id i σ',
           add_order σ is_buy quantity price client_id = Returns i σ' →
           book_inv σ' ∧ joint_inv σ')
      ∧ (∀ is_buy quantity price client_id e σ',
           add_order σ is_buy quantity price client_id = Throws e σ' →
           book_inv σ' ∧ joint_inv σ')
      ∧ (∀ order_id σ',
           cancel_order σ order_id = Returns tt σ' →
           book_inv σ' ∧ joint_inv σ')
      ∧ (∀ order_id e σ',
           cancel_order σ order_id = Throws e σ' →
           book_inv σ' ∧ joint_inv σ')
      ∧ (∀ fuel msgs σ',
           execute_trades fuel σ = Some (Returns msgs σ') →
           book_inv σ' ∧ joint_inv σ')
      ∧ (∀ ids σ', run σ ids σ' → book_inv σ' ∧ joint_inv σ').
Proof.
  split; [apply book_inv_initial|]. intros σ Hinv.
  assert (Hj : ∀ σ', book_inv σ' → book_inv σ' ∧ joint_inv σ').
  { intros σ' H. split; [done|by apply book_inv_joint]. }
  split_and!.
  - by apply book_inv_joint.
  - intros is_buy quantity price client_id Hq Hp Hc Ht.
    destruct (add_order_in_range σ is_buy quantity price client_id
                Hinv Hq Hp Hc Ht) as [σ' Hadd].
    exists σ'. split; [done|]. apply Hj. by eapply add_order_inv.
  - intros. apply Hj. by eapply add_order_inv.
  - intros ? ? ? ? e σ' (_ & _ & ->)%add_order_throws. by apply Hj.
  - intros. apply Hj. by eapply cancel_order_inv.
  - intros ? e σ' ->%cancel_order_throws. by apply Hj.
  - intros. apply Hj. by eapply execute_trades_inv.
  - intros. apply Hj. by eapply run_inv.
Qed.

Lemma operations_keep_joint_invariant_witness :
  book_inv book_two_buys_one_sell
  ∧ 0 < 8 ∧ (0 < of_int 100)%Qc
  ∧ OrderBook.current_order_id (book book_two_buys_one_sell) < INT_MAX
  ∧ from_option PriceLevel.total_quantity 0
      (OrderBook.price_map true (book book_two_buys_one_sell) !! of_int 100) + 8
    ≤ INT_MAX
  ∧ (∃ σ', add_order book_two_buys_one_sell true 8 (of_int 100) 9
           = Returns (OrderBook.current_order_id (book book_two_buys_one_sell) + 1)
               σ'
           ∧ book_inv σ' ∧ joint_inv σ')
  ∧ execute_trades 2 book_two_buys_one_sell
    = Some (Returns [TRADE 1 3 5 "100"] (matched 2 book_two_buys_one_sell))
  ∧ book_inv (matched 2 book_two_buys_one_sell)
  ∧ joint_inv (matched 2 book_two_buys_one_sell).
Proof.
  assert (H1 : 0 < 8) by lia.
  assert (H2 : (0 < of_int 100)%Qc) by (vm_compute; reflexivity).
  assert (H3 : OrderBook.current_order_id (book book_two_buys_one_sell) < INT_MAX)
    by (vm_compute; reflexivity).
  assert (H4 : from_option PriceLevel.total_quantity 0
                 (OrderBook.price_map true (book book_two_buys_one_sell)
                  !! of_int 100) + 8 ≤ INT_MAX)
    by (vm_compute; discriminate).
  assert (H5 : execute_trades 2 book_two_buys_one_sell
               = Some (Returns [TRADE 1 3 5 "100"]
                         (matched 2 book_two_buys_one_sell)))
    by (vm_compute; reflexivity).
  split; [apply book_two_buys_one_sell_inv|].
  split; [exact H1|]. split; [exact H2|]. split; [exact H3|]. split; [exact H4|].
  destruct (proj2 operations_keep_joint_invariant book_two_buys_one_sell
              book_two_buys_one_sell_inv) as (_ & Ha & _ & _ & _ & _ & Hm & _).
  split; [exact (Ha true 8 (of_int 100) 9 H1 H2 H3 H4)|].
  split; [exact H5|].
  exact (Hm 2%nat _ _ H5).
Defined.

(** A buy of [INT_MAX] at 100 leaves a book that satisfies the invariant;
    a further buy of 1 at 100 has a positive quantity and price, and
    [total_quantity += order->quantity] overflows. *)
Lemma add_order_past_int_max :
  book_inv (added initial true INT_MAX (of_int 100) 1)
  ∧ joint_inv (added initial true INT_MAX (of_int 100) 1)
  ∧ OrderBook.price_map true (book (added initial true INT_MAX (of_int 100) 1))
      !! of_int 100
    = Some (PriceLevel.mk (of_int 100) [1%positive] INT_MAX)
  ∧ 0 < 1 ∧ (0 < of_int 100)%Qc
  ∧ add_order (added initial true INT_MAX (of_int 100) 1) true 1 (of_int 100) 2
    = Undefined.
Proof.
  assert (Hinv : book_inv (added initial true INT_MAX (of_int 100) 1))
    by (apply added_inv, book_inv_initial).
  split_and!; [done|by apply book_inv_joint|vm_compute; reflexivity|lia
              |vm_compute; reflexivity|vm_compute; reflexivity].
Qed.

(** C5.  [add_order] throws exactly when [quantity <= 0] or [price <= 0];
    what it throws is [std::invalid_argument], and the state at the throw
    is the state of the call: the counter, the price sets and maps, the
    index and the orders are unchanged. *)
Theorem add_order_invalid_argument σ is_buy quantity price client_id :
  ((quantity ≤ 0 ∨ (price ≤ 0)%Qc) ↔
   ∃ e σ', add_order σ is_buy quantity price client_id = Throws e σ')
  ∧ ∀ e σ',
      add_order σ is_buy quantity price client_id = Throws e σ' →
      e = invalid_argument "Quantity and price must be positive" ∧ σ' = σ.
Proof.
  split; [split|].
  - intros Hbad. unfold add_order. rewrite decide_True by done. eauto.
  - intros (e & σ' & H). by apply add_order_throws in H as (? & _).
  - intros e σ' H. by apply add_order_throws in H as (_ & ? & ?).
Qed.

Lemma add_order_invalid_argument_witness :
  add_order book_two_buys_one_sell true 0 (of_int 100) 4
  = Throws (invalid_argument "Quantity and price must be positive")
      book_two_buys_one_sell
  ∧ invalid_argument "Quantity and price must be positive"
    = invalid_argument "Quantity and price must be positive"
  ∧ book_two_buys_one_sell = book_two_buys_one_sell.
Proof.
  assert (H : add_order book_two_buys_one_sell true 0 (of_int 100) 4
              = Throws (invalid_argument "Quantity and price must be positive")
                  book_two_buys_one_sell)
    by (vm_compute; reflexivity).
  split; [exact H|].
  apply (proj2 (add_order_invalid_argument book_two_buys_one_sell true 0
                  (of_int 100) 4) _ _ H).
Defined.



(** C8.  In every sequence of calls on a fresh book, the ids returned by
    the successful [add_order] calls strictly increase and are at least 1,
    and the first successful [add_order] on the fresh book returns 1. *)
Theorem add_order_ids_increase :
  (∀ ids σ, run initial ids σ →
     StronglySorted Z.lt ids ∧ Forall (λ i, 1 ≤ i) ids)
  ∧ (∀ σ is_buy quantity price client_id i σ',
       add_order σ is_buy quantity price client_id = Returns i σ' →
       i = OrderBook.current_order_id (book σ) + 1
       ∧ OrderBook.current_order_id (book σ') = i)
  ∧ (∀ is_buy quantity price client_id,
       0 < quantity ≤ INT_MAX → (0 < price)%Qc →
       ∃ σ', add_order initial is_buy quantity price client_id = Returns 1 σ').
Proof.
  split_and!.
  - intros ids σ Hr. apply run_ids in Hr as (_ & Hall & Hs).
    split; [done|]. eapply Forall_impl; [exact Hall|]. simpl. intros; lia.
  - intros σ b q p c i σ' H.
    by apply add_order_returns in H as (_ & _ & ? & _ & ?).
  - intros b q p c Hq Hp. unfold add_order.
    rewrite decide_False.
    2:{ intros [?|Hle]; [lia|]. by apply Qcle_not_lt in Hle. }
    change (OrderBook.current_order_id (book initial)) with 0.
    rewrite (int_in_range (0 + 1)) by (unfold INT_MIN, INT_MAX; lia).
    assert (OrderBook.price_map b (book initial) !! p = None) as ->
      by (destruct b; apply lookup_empty).
    unfold PriceLevel.add_order. rewrite lookup_insert_eq. simpl.
    rewrite (int_in_range (0 + q)) by (unfold INT_MIN; lia). simpl. eauto.
Qed.

Lemma add_order_ids_increase_witness :
  run initial [1; 2; 3] book_two_buys_one_sell
  ∧ StronglySorted Z.lt [1; 2; 3] ∧ Forall (λ i, 1 ≤ i) [1; 2; 3].
Proof.
  assert (H : run initial [1; 2; 3] book_two_buys_one_sell);
    [|split; [exact H|];
      exact (proj1 add_order_ids_increase [1; 2; 3] book_two_buys_one_sell H)].
  apply (run_add initial [1; 2]
           (added (added initial true 5 (of_int 100) 1) true 5 (of_int 100) 2)
           false 5 (of_int 100) 3 3 book_two_buys_one_sell);
    [|vm_compute; reflexivity].
  apply (run_add initial [1] (added initial true 5 (of_int 100) 1)
           true 5 (of_int 100) 2 2);
    [|vm_compute; reflexivity].
  apply (run_add initial [] initial true 5 (of_int 100) 1 1);
    [apply run_nil|vm_compute; reflexivity].
Defined.

(** ** The index after a fill, and the snapshot *)

(** C3.  After two buys of 5 at 100 (ids 1 and 2) and a sell of 5 at 100
    (id 3), [execute_trades] returns the single message TRADE 1 3 5 100;
    the queue of the bid level at 100 holds the order with id 2 alone,
    with a quantity of 5.  [order_id_map] however still maps id 1, to the
    filled order, and no longer maps id 2: the [erase] after the fill
    receives the id of the order that moved to the head of the queue. *)
Theorem time_priority_scenario :
  execute_trades 2 book_two_buys_one_sell
  = Some (Returns [TRADE 1 3 5 "100"] (matched 2 book_two_buys_one_sell))
  ∧ OrderBook.bid_price_map (book (matched 2 book_two_buys_one_sell)) !! of_int 100
    = Some (PriceLevel.mk (of_int 100) [2%positive] 5)
  ∧ heap (matched 2 book_two_buys_one_sell) !! 2%positive
    = Some (Order.mk 2 true 5 (of_int 100) 2)
  ∧ OrderBook.ask_price_map (book (matched 2 book_two_buys_one_sell)) = ∅
  ∧ OrderBook.order_id_map (book (matched 2 book_two_buys_one_sell)) !! 1
    = Some 1%positive
  ∧ heap (matched 2 book_two_buys_one_sell) !! 1%positive
    = Some (Order.mk 1 true 0 (of_int 100) 1)
  ∧ OrderBook.order_id_map (book (matched 2 book_two_buys_one_sell)) !! 2 = None
  ∧ get_status (matched 2 book_two_buys_one_sell)
    = "Orders: 1, Bid levels: 1, Ask levels: 0".
Proof. split_and!; vm_compute; reflexivity. Qed.

(** C6.  [cancel_order] of an id that [execute_trades] filled completely
    does not report "Order not found".  After two buys of 5 at 100 (ids 1
    and 2) and a sell of 5 at 100, id 1 is filled and still indexed:
    cancelling it throws from [PriceLevel::remove_order], and cancelling
    id 2, which rests with a quantity of 5, throws "Order not found".
    After a sell of 10 instead, the second pass fills the order with id 2,
    which [order_id_map] no longer holds: the erase frees it and the id is
    read from the freed order. *)
Theorem cancel_after_fill :
  cancel_order (matched 2 book_two_buys_one_sell) 1
  = Throws (runtime_error "Order not found in PriceLevel")
      (matched 2 book_two_buys_one_sell)
  ∧ cancel_order (matched 2 book_two_buys_one_sell) 2
    = Throws (runtime_error "Order not found") (matched 2 book_two_buys_one_sell)
  ∧ resting (matched 2 book_two_buys_one_sell) true 2
  ∧ execute_trades 3 book_two_buys_big_sell = Some Undefined.
Proof.
  split_and!; try (vm_compute; reflexivity).
  exists (of_int 100), (PriceLevel.mk (of_int 100) [2%positive] 5), 2%positive,
    (Order.mk 2 true 5 (of_int 100) 2).
  split_and!; try (vm_compute; reflexivity); [by left|done].
Qed.

(** C9.  [get_order_book_string] prints the prices converted to [int].
    With integer prices the lines are those of the levels, bids in
    descending and asks in ascending order.  With a bid of 10 at 99.5 the
    look-up of the level at 99 throws [std::out_of_range]; with a further
    bid of 3 at 99 the level at 99 is printed twice and the level at 99.5
    is not printed. *)
Theorem snapshot_truncates_prices :
  get_order_book_string
    (added (added (added book_two_buys_one_sell true 7 (of_int 98) 4)
                  false 4 (of_int 102) 5) false 6 (of_int 101) 6)
  = Ok ("BIDS:" +:+ newline +:+ "  100 : 10" +:+ newline
        +:+ "  98 : 7" +:+ newline
        +:+ "ASKS:" +:+ newline +:+ "  100 : 5" +:+ newline
        +:+ "  101 : 6" +:+ newline +:+ "  102 : 4" +:+ newline)
  ∧ OrderBook.bid_price_map (book book_fractional_bid) !! Q2Qc (199 # 2)
    = Some (PriceLevel.mk (Q2Qc (199 # 2)) [1%positive] 10)
  ∧ get_order_book_string book_fractional_bid
    = Throw (out_of_range "invalid unordered_map<K, T> key")
  ∧ get_order_book_string (added book_fractional_bid true 3 (of_int 99) 2)
    = Ok ("BIDS:" +:+ newline +:+ "  99 : 3" +:+ newline
          +:+ "  99 : 3" +:+ newline +:+ "ASKS:" +:+ newline).
Proof. split_and!; vm_compute; reflexivity. Qed.

(** * Further properties *)

(** ** The effect of a fill *)

(** The id that [order_id_map.erase] receives after the head [p] of a queue
    was erased: that of the next order of the queue, or of [p] itself when
    the queue had no other order and the order still has an owner. *)
Lemma erase_filled_eq h owned p lvl ix o :
  h !! p = Some o →
  (Order.quantity o = 0 → ∀ x, head (tail (PriceLevel.orders lvl)) = Some x →
     is_Some (h !! x)) →
  erase_filled h owned p lvl ix
  = if decide (Order.quantity o = 0 ∧ tail (PriceLevel.orders lvl) = []
               ∧ owned = false)
    then None
    else Some (if decide (Order.quantity o = 0)
               then (PriceLevel.set_orders (tail (PriceLevel.orders lvl)) lvl,
                     delete (from_option Order.id 0
                               (h !! default p
                                       (head (tail (PriceLevel.orders lvl)))))
                            ix)
               else (lvl, ix)).
Proof.
  intros Hp Hnext. unfold erase_filled. rewrite Hp. simpl.
  destruct (decide (Order.quantity o = 0)) as [Hz|Hz].
  - destruct (tail (PriceLevel.orders lvl)) as [|x rest] eqn:Ex; simpl.
    + destruct owned.
      * rewrite decide_False by (by intros (_ & _ & ?)). by rewrite Hp.
      * by rewrite decide_True.
    + rewrite decide_False by (by intros (_ & ? & _)).
      destruct (Hnext Hz x eq_refl) as [ox Hx]. by rewrite Hx.
  - by rewrite decide_False by (by intros (? & _)).
Qed.

(** The state that a fill leaves, from a state that satisfies the
    invariant: the two head orders lose the traded quantity, a head that
    reaches zero leaves its queue, the totals of the two levels decrease by
    the traded quantity, and after each erased head [order_id_map] loses
    the id found in slot 0 of the queue. *)
Lemma fill_effect σ bb ba bl al pb rb pa ra bo ao :
  book_inv σ →
  OrderBook.price_map true (book σ) !! bb = Some bl →
  OrderBook.price_map false (book σ) !! ba = Some al →
  PriceLevel.orders bl = pb :: rb →
  PriceLevel.orders al = pa :: ra →
  heap σ !! pb = Some bo → heap σ !! pa = Some ao →
  let t := Z.min (Order.quantity bo) (Order.quantity ao) in
  let slot h p rest := from_option Order.id 0 (h !! default p (head rest)) in
  let ix1 := if decide (Order.quantity bo = t)
             then delete (slot (heap σ) pb rb) (OrderBook.order_id_map (book σ))
             else OrderBook.order_id_map (book σ) in
  let ix2 := if decide (Order.quantity ao = t)
             then delete (slot (heap σ) pa ra) ix1 else ix1 in
  let bl' := PriceLevel.mk (PriceLevel.price bl)
               (if decide (Order.quantity bo = t) then rb else pb :: rb)
               (PriceLevel.total_quantity bl - t) in
  let al' := PriceLevel.mk (PriceLevel.price al)
               (if decide (Order.quantity ao = t) then ra else pa :: ra)
               (PriceLevel.total_quantity al - t) in
  ∀ r, fill σ bb ba bl al pb pa = Some r →
  r = (TRADE (Order.id bo) (Order.id ao) t (stream_double ba),
       State (<[pa := Order.set_quantity (Order.quantity ao - t) ao]>
                (<[pb := Order.set_quantity (Order.quantity bo - t) bo]>
                   (heap σ)))
         (erase_if_empty false ba al'
            (erase_if_empty true bb bl' (OrderBook.with_index ix2 (book σ))))).
Proof.
  intros Hinv Ebl Eal Eb Ea Hbo Hao t slot ix1 ix2 bl' al' r.
  pose proof Hinv as [Hdom Hlvls Hcnt Hix].
  destruct σ as [h b]. simpl in *.
  assert (Hbl := Hlvls true _ _ Ebl). assert (Hal := Hlvls false _ _ Eal).
  destruct (level_ok_front _ _ _ _ _ _ _ Hbl Eb)
    as (bo0 & Hbo0 & Hbside & Hbprc & Hbq & Hbid).
  destruct (level_ok_front _ _ _ _ _ _ _ Hal Ea)
    as (ao0 & Hao0 & Haside & Haprc & Haq & Haid).
  assert (bo0 = bo) as -> by congruence. assert (ao0 = ao) as -> by congruence.
  assert (Hne : pb ≠ pa) by (intros ->; congruence).
  assert (Ht : 1 ≤ t ∧ t ≤ Order.quantity bo ∧ t ≤ Order.quantity ao)
    by (unfold t; lia).
  pose proof (level_ok_front_le_total _ _ _ _ _ _ _ _ Hbl Eb Hbo) as Hbtot.
  pose proof (level_ok_front_le_total _ _ _ _ _ _ _ _ Hal Ea Hao) as Hatot.
  pose proof (lvl_range _ _ _ _ _ Hbl) as Hbr.
  pose proof (lvl_range _ _ _ _ _ Hal) as Har.
  set (bo' := Order.set_quantity (Order.quantity bo - t) bo).
  set (ao' := Order.set_quantity (Order.quantity ao - t) ao).
  set (h2 := <[pa := ao']> (<[pb := bo']> h)).
  assert (Hpb2 : h2 !! pb = Some bo').
  { unfold h2. rewrite lookup_insert_ne by done. apply lookup_insert_eq. }
  assert (Hpa2 : h2 !! pa = Some ao') by apply lookup_insert_eq.
  (* the ids of the store are those of the earlier store *)
  assert (Hids : ∀ x, Order.id <$> h2 !! x = Order.id <$> h !! x).
  { intros x. unfold h2.
    destruct (decide (x = pa)) as [->|?]; [by rewrite lookup_insert_eq, Hao|].
    rewrite lookup_insert_ne by done.
    destruct (decide (x = pb)) as [->|?]; [by rewrite lookup_insert_eq, Hbo|].
    by rewrite lookup_insert_ne. }
  assert (Hslot : ∀ x, from_option Order.id 0 (h2 !! x) = from_option Order.id 0 (h !! x)).
  { intros x. specialize (Hids x).
    destruct (h2 !! x), (h !! x); simpl in *; congruence. }
  assert (Hsome : ∀ lvl buy prc x, level_ok h (OrderBook.current_order_id b) buy prc lvl →
            x ∈ PriceLevel.orders lvl → is_Some (h2 !! x)).
  { intros lvl buy prc x Hok Hx.
    destruct (level_ok_member _ _ _ _ _ _ Hok Hx) as (o & Ho & _).
    specialize (Hids x). rewrite Ho in Hids. destruct (h2 !! x); [by eexists|done]. }
  unfold fill. simpl. rewrite Hbo. simpl. rewrite Hao. simpl. fold t.
  assert (Hrb1 : INT_MIN ≤ Order.quantity bo - t ≤ INT_MAX) by (unfold INT_MIN; lia).
  assert (Hra1 : INT_MIN ≤ Order.quantity ao - t ≤ INT_MAX) by (unfold INT_MIN; lia).
  rewrite (sub_quantity_Some pb t h bo Hbo Hrb1). simpl.
  rewrite (sub_quantity_Some pa t _ ao); [|by rewrite lookup_insert_ne|done].
  simpl.
  rewrite int_in_range by (unfold INT_MIN; lia). simpl.
  rewrite int_in_range by (unfold INT_MIN; lia). simpl.
  fold bo' ao' h2.
  rewrite (erase_filled_eq h2 _ pb _ _ bo' Hpb2).
  2:{ simpl. rewrite Eb. simpl. intros _ x Hx. eapply Hsome; [exact Hbl|].
      rewrite Eb. right. destruct rb; simplify_eq/=. by left. }
  destruct (decide (_ ∧ _ ∧ _)) as [_|_]; [done|].
  simpl. rewrite Eb. simpl. rewrite Hslot.
  assert (Hfb : ∀ A (x y : A),
            (if decide (Order.quantity bo - t = 0) then x else y)
            = if decide (Order.quantity bo = t) then x else y).
  { intros. destruct (decide (Order.quantity bo = t));
      [rewrite decide_True by lia|rewrite decide_False by lia]; done. }
  assert (Hfa : ∀ A (x y : A),
            (if decide (Order.quantity ao - t = 0) then x else y)
            = if decide (Order.quantity ao = t) then x else y).
  { intros. destruct (decide (Order.quantity ao = t));
      [rewrite decide_True by lia|rewrite decide_False by lia]; done. }
  rewrite Hfb.
  unfold ix2, ix1, bl', al', slot, PriceLevel.set_orders, PriceLevel.set_total.
  destruct (decide (Order.quantity bo = t)) as [Eqb|Eqb]; simpl;
    (rewrite (erase_filled_eq h2 _ pa _ _ ao' Hpa2);
     [|simpl; rewrite Ea; simpl; intros _ x Hx; eapply Hsome; [exact Hal|];
       rewrite Ea; right; destruct ra; simplify_eq/=; by left]);
    (destruct (decide (_ ∧ _ ∧ _)) as [_|_]; [done|]);
    simpl; rewrite Ea; simpl; rewrite Hslot, Hfa;
    destruct (decide (Order.quantity ao = t)) as [Eqa|Eqa]; simpl;
    rewrite <- ?Eb, <- ?Ea; by intros [= <-].
Qed.

Lemma iterate_Fill_effect σ msg σ' :
  book_inv σ →
  iterate σ = Fill msg σ' →
  ∃ bl al pb rb pa ra bo ao,
    let bb := OrderBook.get_best_bid (book σ) in
    let ba := OrderBook.get_best_ask (book σ) in
    let t := Z.min (Order.quantity bo) (Order.quantity ao) in
    let slot h p rest := from_option Order.id 0 (h !! default p (head rest)) in
    let ix1 := if decide (Order.quantity bo = t)
               then delete (slot (heap σ) pb rb) (OrderBook.order_id_map (book σ))
               else OrderBook.order_id_map (book σ) in
    let ix2 := if decide (Order.quantity ao = t)
               then delete (slot (heap σ) pa ra) ix1 else ix1 in
    let bl' := PriceLevel.mk (PriceLevel.price bl)
                 (if decide (Order.quantity bo = t) then rb else pb :: rb)
                 (PriceLevel.total_quantity bl - t) in
    let al' := PriceLevel.mk (PriceLevel.price al)
                 (if decide (Order.quantity ao = t) then ra else pa :: ra)
                 (PriceLevel.total_quantity al - t) in
    OrderBook.price_map true (book σ) !! bb = Some bl
    ∧ OrderBook.price_map false (book σ) !! ba = Some al
    ∧ PriceLevel.orders bl = pb :: rb
    ∧ PriceLevel.orders al = pa :: ra
    ∧ heap σ !! pb = Some bo ∧ heap σ !! pa = Some ao
    ∧ (ba ≤ bb)%Qc
    ∧ msg = TRADE (Order.id bo) (Order.id ao) t (stream_double ba)
    ∧ σ' = State (<[pa := Order.set_quantity (Order.quantity ao - t) ao]>
                    (<[pb := Order.set_quantity (Order.quantity bo - t) bo]>
                       (heap σ)))
             (erase_if_empty false ba al'
                (erase_if_empty true bb bl' (OrderBook.with_index ix2 (book σ)))).
Proof.
  intros Hinv H. unfold iterate in H.
  case_decide as Hbrk; [done|].
  destruct (OrderBook.bid_price_map (book σ) !! _) as [bl|] eqn:Ebl; [|done].
  destruct (OrderBook.ask_price_map (book σ) !! _) as [al|] eqn:Eal; [|done].
  destruct (PriceLevel.orders bl) as [|pb rb] eqn:Eb; [done|].
  destruct (PriceLevel.orders al) as [|pa ra] eqn:Ea; [done|].
  destruct (level_ok_front _ _ _ _ _ _ _ (inv_levels _ Hinv true _ _ Ebl) Eb)
    as (bo & Hbo & _).
  destruct (level_ok_front _ _ _ _ _ _ _ (inv_levels _ Hinv false _ _ Eal) Ea)
    as (ao & Hao & _).
  destruct (fill σ _ _ bl al pb pa) as [[m s]|] eqn:Ef; [|done].
  injection H as <- <-.
  pose proof (fill_effect σ _ _ bl al pb rb pa ra bo ao Hinv Ebl Eal Eb Ea Hbo Hao
                _ Ef) as Hf.
  simpl in Hf. injection Hf as -> ->.
  exists bl, al, pb, rb, pa, ra, bo, ao. simpl. split_and!; try done.
  apply Qcnot_lt_le. tauto.
Qed.

(** ** Best prices *)

(** X1.  [get_best_bid] returns -1 for an empty [bid_prices]; otherwise it
    returns a member of [bid_prices] that no member exceeds. *)
Theorem get_best_bid_is_maximum b :
  (OrderBook.bid_prices b = ∅ → OrderBook.get_best_bid b = minus_one)
  ∧ ∀ p, p ∈ OrderBook.bid_prices b →
      OrderBook.get_best_bid b ∈ OrderBook.bid_prices b
      ∧ (p ≤ OrderBook.get_best_bid b)%Qc.
Proof.
  split; [apply get_best_bid_empty|].
  intros p Hp.
  assert (OrderBook.bid_prices b ≠ ∅) as Hne by (intros E; by rewrite E in Hp).
  destruct (get_best_bid_max _ Hne) as [Hin Hmax]. auto.
Qed.

Lemma get_best_bid_is_maximum_witness :
  of_int 100 ∈ OrderBook.bid_prices (book book_sell_then_buy)
  ∧ OrderBook.get_best_bid (book book_sell_then_buy)
    ∈ OrderBook.bid_prices (book book_sell_then_buy)
  ∧ (of_int 100 ≤ OrderBook.get_best_bid (book book_sell_then_buy))%Qc.
Proof.
  assert (H : of_int 100 ∈ OrderBook.bid_prices (book book_sell_then_buy))
    by (vm_compute; reflexivity).
  split; [exact H|].
  exact (proj2 (get_best_bid_is_maximum (book book_sell_then_buy)) _ H).
Defined.

(** X2.  [get_best_ask] returns -1 for an empty [ask_prices]; otherwise it
    returns a member of [ask_prices] that is at most every member. *)
Theorem get_best_ask_is_minimum b :
  (OrderBook.ask_prices b = ∅ → OrderBook.get_best_ask b = minus_one)
  ∧ ∀ p, p ∈ OrderBook.ask_prices b →
      OrderBook.get_best_ask b ∈ OrderBook.ask_prices b
      ∧ (OrderBook.get_best_ask b ≤ p)%Qc.
Proof.
  split; [apply get_best_ask_empty|].
  intros p Hp.
  assert (OrderBook.ask_prices b ≠ ∅) as Hne by (intros E; by rewrite E in Hp).
  destruct (get_best_ask_min _ Hne) as [Hin Hmin]. auto.
Qed.

Lemma get_best_ask_is_minimum_witness :
  of_int 99 ∈ OrderBook.ask_prices (book book_sell_then_buy)
  ∧ OrderBook.get_best_ask (book book_sell_then_buy)
    ∈ OrderBook.ask_prices (book book_sell_then_buy)
  ∧ (OrderBook.get_best_ask (book book_sell_then_buy) ≤ of_int 99)%Qc.
Proof.
  assert (H : of_int 99 ∈ OrderBook.ask_prices (book book_sell_then_buy))
    by (vm_compute; reflexivity).
  split; [exact H|].
  exact (proj2 (get_best_ask_is_minimum (book book_sell_then_buy)) _ H).
Defined.

(** ** [PriceLevel::remove_order] *)

Lemma erase_first_None h k l :
  PriceLevel.erase_first h k l = Some None →
  Forall (λ x, ∃ o', h !! x = Some o' ∧ Order.id o' ≠ k) l.
Proof.
  induction l as [|x l IH]; intros H; simpl in H; [constructor|].
  destruct (h !! x) as [o|] eqn:Hx; [|done]. simpl in H.
  case_decide as Hid; [done|].
  destruct (PriceLevel.erase_first h k l) as [[[q0 l0]|]|] eqn:E; simplify_eq.
  constructor; [by exists o|]. by apply IH.
Qed.

(** X3.  When [remove_order] returns, exactly one order has left the
    queue: the first one whose id is [order_id]; the orders before and
    after it keep their places, the total has decreased by the quantity of
    that order and the price of the level is unchanged.  When it throws,
    it throws "Order not found in PriceLevel" and no order of the queue has
    that id. *)
Theorem remove_order_first_match h order_id lvl :
  (∀ lvl', PriceLevel.remove_order h order_id lvl = Ok lvl' →
     ∃ l1 p l2 o,
       PriceLevel.orders lvl = l1 ++ p :: l2
       ∧ PriceLevel.orders lvl' = l1 ++ l2
       ∧ h !! p = Some o ∧ Order.id o = order_id
       ∧ Forall (λ x, ∃ o', h !! x = Some o' ∧ Order.id o' ≠ order_id) l1
       ∧ PriceLevel.total_quantity lvl'
         = PriceLevel.total_quantity lvl - Order.quantity o
       ∧ PriceLevel.price lvl' = PriceLevel.price lvl)
  ∧ (∀ e, PriceLevel.remove_order h order_id lvl = Throw e →
       e = runtime_error "Order not found in PriceLevel"
       ∧ Forall (λ x, ∃ o', h !! x = Some o' ∧ Order.id o' ≠ order_id)
                (PriceLevel.orders lvl)).
Proof.
  unfold PriceLevel.remove_order. split.
  - intros lvl' H.
    destruct (PriceLevel.erase_first _ _ _) as [[[q l']|]|] eqn:E; try done.
    destruct (int _) as [total|] eqn:Hint; [|done].
    apply int_Some in Hint as [-> _]. injection H as <-.
    apply erase_first_Some in E as (l1 & p & l2 & o & El & -> & Ho & Hid & <- & Hl1).
    exists l1, p, l2, o. by split_and!.
  - intros e H.
    destruct (PriceLevel.erase_first _ _ _) as [[[q l']|]|] eqn:E; try done.
    + destruct (int _); done.
    + injection H as <-. split; [done|]. by apply erase_first_None.
Qed.

Lemma remove_order_first_match_witness :
  PriceLevel.remove_order (heap book_two_buys_one_sell) 2
    (PriceLevel.mk (of_int 100) [1%positive; 2%positive] 10)
  = Ok (PriceLevel.mk (of_int 100) [1%positive] 5)
  ∧ ∃ l1 p l2 o,
      [1%positive; 2%positive] = l1 ++ p :: l2
      ∧ [1%positive] = l1 ++ l2
      ∧ heap book_two_buys_one_sell !! p = Some o ∧ Order.id o = 2
      ∧ Forall (λ x, ∃ o', heap book_two_buys_one_sell !! x = Some o'
                           ∧ Order.id o' ≠ 2) l1
      ∧ 5 = 10 - Order.quantity o
      ∧ of_int 100 = of_int 100.
Proof.
  assert (H : PriceLevel.remove_order (heap book_two_buys_one_sell) 2
                (PriceLevel.mk (of_int 100) [1%positive; 2%positive] 10)
              = Ok (PriceLevel.mk (of_int 100) [1%positive] 5))
    by (vm_compute; reflexivity).
  split; [exact H|].
  exact (proj1 (remove_order_first_match (heap book_two_buys_one_sell) 2
                  (PriceLevel.mk (of_int 100) [1%positive; 2%positive] 10)) _ H).
Defined.

(** ** The effect of [add_order] *)

(** X4.  A returning [add_order] on a book that satisfies the invariant
    creates one order object with the returned id and the given fields, at
    an address that was free; it puts it at the back of the queue of the
    level at its price on its side (a new level when there was none), adds
    its quantity to the total of that level, and maps the id to it.  The
    other levels, the other side and the order objects that existed are
    unchanged. *)
Theorem add_order_effect σ is_buy quantity price client_id i σ' :
  book_inv σ →
  add_order σ is_buy quantity price client_id = Returns i σ' →
  ∃ p,
    heap σ !! p = None
    ∧ heap σ' = <[p := Order.mk i is_buy quantity price client_id]> (heap σ)
    ∧ OrderBook.price_map is_buy (book σ')
      = <[price :=
            let old := OrderBook.price_map is_buy (book σ) !! price in
            PriceLevel.mk price
              (from_option PriceLevel.orders [] old ++ [p])
              (from_option PriceLevel.total_quantity 0 old + quantity)]>
          (OrderBook.price_map is_buy (book σ))
    ∧ OrderBook.prices is_buy (book σ')
      = {[price]} ∪ OrderBook.prices is_buy (book σ)
    ∧ OrderBook.price_map (negb is_buy) (book σ')
      = OrderBook.price_map (negb is_buy) (book σ)
    ∧ OrderBook.prices (negb is_buy) (book σ')
      = OrderBook.prices (negb is_buy) (book σ)
    ∧ OrderBook.order_id_map (book σ')
      = <[i := p]> (OrderBook.order_id_map (book σ)).
Proof.
  intros Hinv H. unfold add_order in H.
  case_decide as Hchk; [done|].
  destruct (int _) as [n|] eqn:Hint; [|done].
  apply int_Some in Hint as [-> Hr].
  set (p := fresh (dom (heap σ))) in *.
  set (o := Order.mk _ _ _ _ _) in *.
  assert (heap σ !! p = None) as Hp.
  { apply not_elem_of_dom. apply is_fresh. }
  assert (emplace (OrderBook.current_order_id (book σ) + 1) p
            (OrderBook.order_id_map (book σ))
          = <[OrderBook.current_order_id (book σ) + 1 := p]>
              (OrderBook.order_id_map (book σ))) as Hix.
  { unfold emplace.
    destruct (OrderBook.order_id_map (book σ) !! _) as [x|] eqn:E; [|done].
    apply (inv_index _ Hinv) in E as [? _]. lia. }
  assert (negb is_buy ≠ is_buy) as Hneg by (by destruct is_buy).
  exists p.
  destruct (OrderBook.price_map is_buy (book σ) !! price) as [lvl|] eqn:Hl;
    unfold PriceLevel.add_order in H; rewrite lookup_insert_eq in H;
    simpl in H;
    destruct (int _) as [total|] eqn:Htot; try done;
    apply int_Some in Htot as [-> _]; injection H as <- <-; simpl;
    autorewrite with book; simpl;
    rewrite ?(decide_False (P := negb is_buy = is_buy)) by done.
  - pose proof (inv_levels _ Hinv is_buy _ _ Hl) as Hok.
    rewrite (lvl_price _ _ _ _ _ Hok).
    split_and!; try done.
    assert (price ∈ OrderBook.prices is_buy (book σ)) as Hin.
    { rewrite <- (inv_dom _ Hinv). apply elem_of_dom. eauto. }
    symmetry. apply subseteq_union_1_L. by apply singleton_subseteq_l.
  - by split_and!.
Qed.

Lemma add_order_effect_witness :
  book_inv book_two_buys_one_sell
  ∧ add_order book_two_buys_one_sell true 8 (of_int 100) 9
    = Returns 4 (added book_two_buys_one_sell true 8 (of_int 100) 9)
  ∧ ∃ p,
    heap book_two_buys_one_sell !! p = None
    ∧ heap (added book_two_buys_one_sell true 8 (of_int 100) 9)
      = <[p := Order.mk 4 true 8 (of_int 100) 9]> (heap book_two_buys_one_sell)
    ∧ OrderBook.price_map true
        (book (added book_two_buys_one_sell true 8 (of_int 100) 9))
      = <[of_int 100 :=
            let old := OrderBook.price_map true (book book_two_buys_one_sell)
                       !! of_int 100 in
            PriceLevel.mk (of_int 100)
              (from_option PriceLevel.orders [] old ++ [p])
              (from_option PriceLevel.total_quantity 0 old + 8)]>
          (OrderBook.price_map true (book book_two_buys_one_sell))
    ∧ OrderBook.prices true
        (book (added book_two_buys_one_sell true 8 (of_int 100) 9))
      = {[of_int 100]} ∪ OrderBook.prices true (book book_two_buys_one_sell)
    ∧ OrderBook.price_map (negb true)
        (book (added book_two_buys_one_sell true 8 (of_int 100) 9))
      = OrderBook.price_map (negb true) (book book_two_buys_one_sell)
    ∧ OrderBook.prices (negb true)
        (book (added book_two_buys_one_sell true 8 (of_int 100) 9))
      = OrderBook.prices (negb true) (book book_two_buys_one_sell)
    ∧ OrderBook.order_id_map
        (book (added book_two_buys_one_sell true 8 (of_int 100) 9))
      = <[4 := p]> (OrderBook.order_id_map (book book_two_buys_one_sell)).
Proof.
  assert (H : add_order book_two_buys_one_sell true 8 (of_int 100) 9
              = Returns 4 (added book_two_buys_one_sell true 8 (of_int 100) 9))
    by (vm_compute; reflexivity).
  split; [apply book_two_buys_one_sell_inv|].
  split; [exact H|].
  exact (add_order_effect _ _ _ _ _ _ _ book_two_buys_one_sell_inv H).
Defined.

(** X5.  On a book that satisfies the invariant, [add_order] with a
    positive quantity and a positive price returns the counter plus one,
    provided that the counter is below [INT_MAX] and that the total of the
    level at that price, plus the quantity, does not exceed [INT_MAX]. *)
Theorem add_order_succeeds σ is_buy quantity price client_id :
  book_inv σ →
  0 < quantity → (0 < price)%Qc →
  OrderBook.current_order_id (book σ) < INT_MAX →
  from_option PriceLevel.total_quantity 0
    (OrderBook.price_map is_buy (book σ) !! price) + quantity ≤ INT_MAX →
  ∃ σ', add_order σ is_buy quantity price client_id
        = Returns (OrderBook.current_order_id (book σ) + 1) σ'.
Proof.
  intros Hinv Hq Hp Hc Ht. unfold add_order.
  rewrite decide_False.
  2:{ intros [?|Hle]; [lia|]. by apply Qcle_not_lt in Hle. }
  pose proof (inv_counter _ Hinv) as Hcnt.
  assert (INT_MIN ≤ 0) as Hmin by (by vm_compute).
  assert (int (OrderBook.current_order_id (book σ) + 1)
          = Some (OrderBook.current_order_id (book σ) + 1)) as ->.
  { unfold int. rewrite decide_True; [done|lia]. }
  destruct (OrderBook.price_map is_buy (book σ) !! price) as [lvl|] eqn:Hl;
    unfold PriceLevel.add_order; rewrite lookup_insert_eq; simpl; simpl in Ht.
  - pose proof (inv_levels _ Hinv is_buy _ _ Hl) as Hok.
    pose proof (level_ok_total_positive _ _ _ _ _ Hok) as Hpos.
    assert (int (PriceLevel.total_quantity lvl + quantity)
            = Some (PriceLevel.total_quantity lvl + quantity)) as ->.
    { unfold int. rewrite decide_True; [done|lia]. }
    simpl. eauto.
  - assert (int (0 + quantity) = Some (0 + quantity)) as ->.
    { unfold int. rewrite decide_True; [done|lia]. }
    simpl. eauto.
Qed.

Lemma add_order_succeeds_witness :
  book_inv book_two_buys_one_sell
  ∧ 0 < 8 ∧ (0 < of_int 100)%Qc
  ∧ OrderBook.current_order_id (book book_two_buys_one_sell) < INT_MAX
  ∧ from_option PriceLevel.total_quantity 0
      (OrderBook.price_map true (book book_two_buys_one_sell) !! of_int 100) + 8
    ≤ INT_MAX
  ∧ ∃ σ', add_order book_two_buys_one_sell true 8 (of_int 100) 9
          = Returns (OrderBook.current_order_id (book book_two_buys_one_sell) + 1) σ'.
Proof.
  assert (H1 : 0 < 8) by lia.
  assert (H2 : (0 < of_int 100)%Qc) by (vm_compute; reflexivity).
  assert (H3 : OrderBook.current_order_id (book book_two_buys_one_sell) < INT_MAX)
    by (vm_compute; reflexivity).
  assert (H4 : from_option PriceLevel.total_quantity 0
                 (OrderBook.price_map true (book book_two_buys_one_sell)
                  !! of_int 100) + 8 ≤ INT_MAX)
    by (vm_compute; discriminate).
  split_and!; try done; [apply book_two_buys_one_sell_inv|].
  exact (add_order_succeeds _ true 8 (of_int 100) 9
           book_two_buys_one_sell_inv H1 H2 H3 H4).
Defined.

(** ** Witnesses for [cancel_order] and the snapshot *)

Lemma added_ids_inv σ buy q prc c : ids_inv σ → ids_inv (added σ buy q prc c).
Proof.
  intros H. unfold added.
  destruct (add_order σ buy q prc c) as [i σ'|e σ'|] eqn:E; [| |done].
  - by eapply add_order_ids_inv.
  - unfold add_order in E. case_decide; [by simplify_eq|].
    destruct (int _); [|done].
    destruct (OrderBook.price_map buy (book σ) !! prc);
      destruct (PriceLevel.add_order _ _ _); done.
Qed.

Lemma book_two_buys_one_sell_ids : ids_inv book_two_buys_one_sell.
Proof. repeat apply added_ids_inv. apply ids_inv_initial. Qed.


Lemma cancel_order_twice_witness :
  ∃ σ', cancel_order book_two_buys_one_sell 2 = Returns tt σ'
        ∧ cancel_order σ' 2 = Throws (runtime_error "Order not found") σ'.
Proof.
  eexists. split; [vm_compute; reflexivity|].
  apply (cancel_order_twice book_two_buys_one_sell 2).
  vm_compute. reflexivity.
Defined.

Lemma snapshot_of_integer_prices_witness :
  dom (OrderBook.bid_price_map (book book_two_buys_one_sell))
  = OrderBook.bid_prices (book book_two_buys_one_sell)
  ∧ dom (OrderBook.ask_price_map (book book_two_buys_one_sell))
    = OrderBook.ask_prices (book book_two_buys_one_sell)
  ∧ (∀ p, p ∈ OrderBook.bid_prices (book book_two_buys_one_sell)
              ∪ OrderBook.ask_prices (book book_two_buys_one_sell) →
          ∃ z, p = of_int z ∧ INT_MIN ≤ z ≤ INT_MAX)
  ∧ ∃ bids asks,
    get_order_book_string book_two_buys_one_sell
    = Ok ("BIDS:" +:+ newline
          +:+ level_lines (OrderBook.bid_price_map (book book_two_buys_one_sell)) bids
          +:+ "ASKS:" +:+ newline
          +:+ level_lines (OrderBook.ask_price_map (book book_two_buys_one_sell)) asks)
    ∧ Sorted Z.ge bids
    ∧ of_int <$> bids ≡ₚ elements (OrderBook.bid_prices (book book_two_buys_one_sell))
    ∧ Sorted Z.le asks
    ∧ of_int <$> asks ≡ₚ elements (OrderBook.ask_prices (book book_two_buys_one_sell)).
Proof.
  assert (H1 := inv_dom _ book_two_buys_one_sell_inv true).
  assert (H2 := inv_dom _ book_two_buys_one_sell_inv false).
  assert (H3 : ∀ p, p ∈ OrderBook.bid_prices (book book_two_buys_one_sell)
                        ∪ OrderBook.ask_prices (book book_two_buys_one_sell) →
                    ∃ z, p = of_int z ∧ INT_MIN ≤ z ≤ INT_MAX).
  { intros p Hp. exists 100. split; [|by vm_compute].
    assert (OrderBook.bid_prices (book book_two_buys_one_sell)
            ∪ OrderBook.ask_prices (book book_two_buys_one_sell)
            = {[of_int 100]}) as E by (vm_compute; reflexivity).
    rewrite E in Hp. by apply elem_of_singleton in Hp. }
  split; [exact H1|]. split; [exact H2|]. split; [exact H3|].
  exact (snapshot_of_integer_prices book_two_buys_one_sell H1 H2 H3).
Defined.

(** ** Quantities and orders consumed by a call of [execute_trades] *)

Lemma side_total_delete m k lvl :
  m !! k = Some lvl →
  side_total m = PriceLevel.total_quantity lvl + side_total (delete k m).
Proof.
  intros Hk. unfold side_total.
  apply (map_fold_delete_L (λ _ l acc, PriceLevel.total_quantity l + acc)); [|done].
  intros. lia.
Qed.

Lemma side_total_insert m k lvl :
  side_total (<[k := lvl]> m)
  = PriceLevel.total_quantity lvl + side_total (delete k m).
Proof.
  rewrite (side_total_delete (<[k:=lvl]> m) k lvl) by apply lookup_insert_eq.
  by rewrite delete_insert_eq.
Qed.

Lemma queued_delete m k lvl :
  m !! k = Some lvl →
  queued m = (length (PriceLevel.orders lvl) + queued (delete k m))%nat.
Proof.
  intros Hk. unfold queued.
  apply (map_fold_delete_L (λ _ l acc, length (PriceLevel.orders l) + acc)%nat);
    [|done].
  intros. lia.
Qed.

Lemma queued_insert m k lvl :
  queued (<[k := lvl]> m)
  = (length (PriceLevel.orders lvl) + queued (delete k m))%nat.
Proof.
  rewrite (queued_delete (<[k:=lvl]> m) k lvl) by apply lookup_insert_eq.
  by rewrite delete_insert_eq.
Qed.

(** The two sides after a filling pass. *)
Lemma iterate_Fill_sides σ msg σ' :
  book_inv σ →
  iterate σ = Fill msg σ' →
  ∃ bl al pb rb pa ra bo ao,
    OrderBook.price_map true (book σ) !! OrderBook.get_best_bid (book σ) = Some bl
    ∧ OrderBook.price_map false (book σ) !! OrderBook.get_best_ask (book σ) = Some al
    ∧ PriceLevel.orders bl = pb :: rb
    ∧ PriceLevel.orders al = pa :: ra
    ∧ heap σ !! pb = Some bo ∧ heap σ !! pa = Some ao
    ∧ msg = TRADE (Order.id bo) (Order.id ao)
              (Z.min (Order.quantity bo) (Order.quantity ao))
              (stream_double (OrderBook.get_best_ask (book σ)))
    ∧ heap σ' = <[pa := Order.set_quantity (Order.quantity ao - trade_qty msg) ao]>
                  (<[pb := Order.set_quantity (Order.quantity bo - trade_qty msg) bo]>
                     (heap σ))
    ∧ OrderBook.price_map true (book σ')
      = (if decide (Order.quantity bo = trade_qty msg ∧ rb = [])
         then delete (OrderBook.get_best_bid (book σ))
                (OrderBook.price_map true (book σ))
         else <[OrderBook.get_best_bid (book σ) :=
                  PriceLevel.mk (PriceLevel.price bl)
                    (if decide (Order.quantity bo = trade_qty msg)
                     then rb else pb :: rb)
                    (PriceLevel.total_quantity bl - trade_qty msg)]>
                (OrderBook.price_map true (book σ)))
    ∧ OrderBook.price_map false (book σ')
      = (if decide (Order.quantity ao = trade_qty msg ∧ ra = [])
         then delete (OrderBook.get_best_ask (book σ))
                (OrderBook.price_map false (book σ))
         else <[OrderBook.get_best_ask (book σ) :=
                  PriceLevel.mk (PriceLevel.price al)
                    (if decide (Order.quantity ao = trade_qty msg)
                     then ra else pa :: ra)
                    (PriceLevel.total_quantity al - trade_qty msg)]>
                (OrderBook.price_map false (book σ))).
Proof.
  intros Hinv H.
  destruct (iterate_Fill_effect _ _ _ Hinv H)
    as (bl & al & pb & rb & pa & ra & bo & ao & Heff).
  cbv zeta in Heff.
  destruct Heff as (Hbl & Hal & Eb & Ea & Hbo & Hao & Hle & -> & ->).
  exists bl, al, pb, rb, pa, ra, bo, ao. clear H.
  split_and!; try done; cbn [book trade_qty]; autorewrite with book.
  - destruct (decide (Order.quantity bo = _)) as [Eq|Ne].
    + destruct rb as [|p2 rb]; cbn [PriceLevel.orders].
      * by destruct (decide (_ ∧ _)) as [?|[]].
      * by destruct (decide (_ ∧ _)) as [[_ ?]|?].
    + by destruct (decide (_ ∧ _)) as [[? _]|?].
  - destruct (decide (Order.quantity ao = _)) as [Eq|Ne].
    + destruct ra as [|p2 ra]; cbn [PriceLevel.orders].
      * by destruct (decide (_ ∧ _)) as [?|[]].
      * by destruct (decide (_ ∧ _)) as [[_ ?]|?].
    + by destruct (decide (_ ∧ _)) as [[? _]|?].
Qed.

(** Induction over the passes of the loop from a state that satisfies the
    invariant: only filling passes occur. *)
Lemma loop_inv_ind (P : state → list Trade → state → Prop) :
  (∀ σ, book_inv σ → iterate σ = Break → P σ [] σ) →
  (∀ σ msg σ1 msgs σ',
     book_inv σ → iterate σ = Fill msg σ1 → book_inv σ1 →
     loop σ1 msgs σ' → P σ1 msgs σ' → P σ (msg :: msgs) σ') →
  ∀ σ msgs σ', book_inv σ → loop σ msgs σ' → P σ msgs σ'.
Proof.
  intros Hbreak Hfill σ msgs σ' Hinv Hloop.
  induction Hloop as [σ E|σ σ1 msgs σ' E Hloop IH|σ msg σ1 msgs σ' E Hloop IH].
  - by apply Hbreak.
  - pose proof (iterate_ok _ Hinv) as Hok. rewrite E in Hok. done.
  - pose proof (iterate_ok _ Hinv) as Hok. rewrite E in Hok.
    destruct Hok as (Hinv1 & _). eapply Hfill; eauto.
Qed.

Lemma execute_trades_loop_of fuel σ msgs σ' :
  execute_trades fuel σ = Some (Returns msgs σ') → loop σ msgs σ'.
Proof.
  intros H. apply loop_sound in H as (msgs' & E & Hloop). by simplify_eq/=.
Qed.

Lemma iterate_Fill_totals σ msg σ' buy :
  book_inv σ →
  iterate σ = Fill msg σ' →
  side_total (OrderBook.price_map buy (book σ'))
  = side_total (OrderBook.price_map buy (book σ)) - trade_qty msg.
Proof.
  intros Hinv H.
  destruct (iterate_Fill_sides _ _ _ Hinv H)
    as (bl & al & pb & rb & pa & ra & bo & ao & Hbl & Hal & Eb & Ea & Hbo & Hao
        & Hmsg & _ & Hb & Ha).
  destruct buy.
  - rewrite Hb, (side_total_delete _ _ _ Hbl). clear Ha Hb.
    destruct (decide (_ ∧ _)) as [[Eq ->]|_].
    + pose proof (lvl_total _ _ _ _ _ (inv_levels _ Hinv true _ _ Hbl)) as Ht.
      rewrite Eb in Ht. simpl in Ht. rewrite Hbo in Ht. simpl in Ht. lia.
    + rewrite side_total_insert. simpl. lia.
  - rewrite Ha, (side_total_delete _ _ _ Hal). clear Ha Hb.
    destruct (decide (_ ∧ _)) as [[Eq ->]|_].
    + pose proof (lvl_total _ _ _ _ _ (inv_levels _ Hinv false _ _ Hal)) as Ht.
      rewrite Ea in Ht. simpl in Ht. rewrite Hao in Ht. simpl in Ht. lia.
    + rewrite side_total_insert. simpl. lia.
Qed.

(** X9.  A call of [execute_trades] on a book that satisfies the invariant
    takes the quantity it reports from each side: on the bid side and on
    the ask side, the sum of the totals of the levels after the call is
    the sum before the call minus the sum of the quantities of the
    messages. *)
Theorem execute_trades_conserves_quantity fuel σ msgs σ' :
  book_inv σ →
  execute_trades fuel σ = Some (Returns msgs σ') →
  ∀ buy, side_total (OrderBook.price_map buy (book σ'))
         = side_total (OrderBook.price_map buy (book σ)) - traded msgs.
Proof.
  intros Hinv H buy. apply execute_trades_loop_of in H.
  revert σ msgs σ' Hinv H.
  apply (loop_inv_ind (λ σ msgs σ',
    side_total (OrderBook.price_map buy (book σ'))
    = side_total (OrderBook.price_map buy (book σ)) - traded msgs)).
  - intros σ _ _. simpl. lia.
  - intros σ msg σ1 msgs σ' Hinv E _ _ IH.
    rewrite IH, (iterate_Fill_totals _ _ _ buy Hinv E). simpl. lia.
Qed.

Lemma execute_trades_conserves_quantity_witness :
  book_inv book_two_buys_one_sell
  ∧ execute_trades 3 book_two_buys_one_sell
    = Some (Returns [TRADE 1 3 5 "100"] (matched 3 book_two_buys_one_sell))
  ∧ ∀ buy,
      side_total (OrderBook.price_map buy (book (matched 3 book_two_buys_one_sell)))
      = side_total (OrderBook.price_map buy (book book_two_buys_one_sell))
        - traded [TRADE 1 3 5 "100"].
Proof.
  assert (H : execute_trades 3 book_two_buys_one_sell
              = Some (Returns [TRADE 1 3 5 "100"]
                        (matched 3 book_two_buys_one_sell)))
    by (vm_compute; reflexivity).
  split; [apply book_two_buys_one_sell_inv|]. split; [exact H|].
  exact (execute_trades_conserves_quantity 3 _ _ _ book_two_buys_one_sell_inv H).
Defined.

Lemma iterate_Fill_queued σ msg σ' :
  book_inv σ →
  iterate σ = Fill msg σ' →
  let n σ := (queued (OrderBook.price_map true (book σ))
              + queued (OrderBook.price_map false (book σ)))%nat in
  (n σ' + 1 ≤ n σ ∧ n σ ≤ n σ' + 2)%nat.
Proof.
  intros Hinv H.
  destruct (iterate_Fill_sides _ _ _ Hinv H)
    as (bl & al & pb & rb & pa & ra & bo & ao & Hbl & Hal & Eb & Ea & Hbo & Hao
        & Hmsg & _ & Hb & Ha).
  cbv beta zeta. rewrite Hb, Ha. clear Ha Hb.
  rewrite (queued_delete _ _ _ Hbl), (queued_delete _ _ _ Hal), Eb, Ea.
  assert (Order.quantity bo = trade_qty msg ∨ Order.quantity ao = trade_qty msg)
    as Hmin by (rewrite Hmsg; simpl; lia).
  destruct (decide (Order.quantity bo = _ ∧ _)) as [[Eq1 ->]|N1];
    destruct (decide (Order.quantity ao = _ ∧ _)) as [[Eq2 ->]|N2];
    rewrite ?queued_insert; simpl;
    repeat (destruct (decide (_ = _)); simpl); lia.
Qed.

(** X10.  Every message of a call of [execute_trades] on a book that
    satisfies the invariant stands for one or two orders that left the
    queues: the number of queued orders decreases by at least the number
    of messages and by at most twice that number. *)
Theorem execute_trades_consumes_orders fuel σ msgs σ' :
  book_inv σ →
  execute_trades fuel σ = Some (Returns msgs σ') →
  let n σ := (queued (OrderBook.price_map true (book σ))
              + queued (OrderBook.price_map false (book σ)))%nat in
  (n σ' + length msgs ≤ n σ ∧ n σ ≤ n σ' + 2 * length msgs)%nat.
Proof.
  intros Hinv H. apply execute_trades_loop_of in H.
  revert σ msgs σ' Hinv H. cbv beta zeta.
  apply (loop_inv_ind (λ σ msgs σ',
    let n σ := (queued (OrderBook.price_map true (book σ))
                + queued (OrderBook.price_map false (book σ)))%nat in
    (n σ' + length msgs ≤ n σ ∧ n σ ≤ n σ' + 2 * length msgs)%nat)).
  - intros σ _ _. simpl. lia.
  - intros σ msg σ1 msgs σ' Hinv E _ _ IH.
    pose proof (iterate_Fill_queued _ _ _ Hinv E) as Hq.
    cbv beta zeta in *. cbn [length]. lia.
Qed.

Lemma execute_trades_consumes_orders_witness :
  book_inv book_two_buys_one_sell
  ∧ execute_trades 3 book_two_buys_one_sell
    = Some (Returns [TRADE 1 3 5 "100"] (matched 3 book_two_buys_one_sell))
  ∧ let n σ := (queued (OrderBook.price_map true (book σ))
                + queued (OrderBook.price_map false (book σ)))%nat in
    (n (matched 3 book_two_buys_one_sell) + length [TRADE 1 3 5 "100"]
     ≤ n book_two_buys_one_sell
     ∧ n book_two_buys_one_sell
       ≤ n (matched 3 book_two_buys_one_sell)
         + 2 * length [TRADE 1 3 5 "100"])%nat.
Proof.
  assert (H : execute_trades 3 book_two_buys_one_sell
              = Some (Returns [TRADE 1 3 5 "100"]
                        (matched 3 book_two_buys_one_sell)))
    by (vm_compute; reflexivity).
  split; [apply book_two_buys_one_sell_inv|]. split; [exact H|].
  exact (execute_trades_consumes_orders 3 _ _ _ book_two_buys_one_sell_inv H).
Defined.


(** ** Calls of [execute_trades] that trade nothing *)

Lemma iterate_Break_iff σ :
  book_inv σ →
  iterate σ = Break
  ↔ OrderBook.bid_prices (book σ) = ∅
    ∨ OrderBook.ask_prices (book σ) = ∅
    ∨ (OrderBook.get_best_bid (book σ) < OrderBook.get_best_ask (book σ))%Qc.
Proof.
  intros Hinv. split.
  - intros E. pose proof (iterate_ok _ Hinv) as Hok. by rewrite E in Hok.
  - intros H. unfold iterate. rewrite decide_True; [done|].
    destruct H as [H|[H|H]]; auto using get_best_bid_empty, get_best_ask_empty.
Qed.

(** X11.  On a book that satisfies the invariant, [execute_trades] returns
    no message exactly when a side is empty or the best bid is below the
    best ask, and it then leaves the book and the orders as they are. *)
Theorem execute_trades_without_cross σ :
  book_inv σ →
  (OrderBook.bid_prices (book σ) = ∅
   ∨ OrderBook.ask_prices (book σ) = ∅
   ∨ (OrderBook.get_best_bid (book σ) < OrderBook.get_best_ask (book σ))%Qc
   → ∀ fuel, execute_trades (S fuel) σ = Some (Returns [] σ))
  ∧ (∀ fuel σ', execute_trades fuel σ = Some (Returns [] σ') →
       σ' = σ
       ∧ (OrderBook.bid_prices (book σ) = ∅
          ∨ OrderBook.ask_prices (book σ) = ∅
          ∨ (OrderBook.get_best_bid (book σ)
             < OrderBook.get_best_ask (book σ))%Qc)).
Proof.
  intros Hinv. split.
  - intros H fuel. apply (iterate_Break_iff _ Hinv) in H.
    unfold execute_trades. by rewrite execute_trades_loop_S, H.
  - intros fuel σ' H. apply execute_trades_loop_of in H.
    inversion H as [σ0 E|σ0 σ1 msgs σ2 E Hloop|]; subst.
    + split; [done|]. by apply iterate_Break_iff.
    + pose proof (iterate_ok _ Hinv) as Hok. by rewrite E in Hok.
Qed.

Lemma execute_trades_without_cross_witness :
  book_inv (matched 3 book_two_buys_one_sell)
  ∧ OrderBook.ask_prices (book (matched 3 book_two_buys_one_sell)) = ∅
  ∧ ∀ fuel, execute_trades (S fuel) (matched 3 book_two_buys_one_sell)
            = Some (Returns [] (matched 3 book_two_buys_one_sell)).
Proof.
  assert (H : execute_trades 3 book_two_buys_one_sell
              = Some (Returns [TRADE 1 3 5 "100"]
                        (matched 3 book_two_buys_one_sell)))
    by (vm_compute; reflexivity).
  assert (Hinv := execute_trades_inv _ _ _ _ book_two_buys_one_sell_inv H).
  assert (He : OrderBook.ask_prices (book (matched 3 book_two_buys_one_sell)) = ∅)
    by (vm_compute; reflexivity).
  split; [exact Hinv|]. split; [exact He|].
  exact (proj1 (execute_trades_without_cross _ Hinv) (or_intror (or_introl He))).
Defined.

(** X12.  A call of [execute_trades] that follows a call that returned
    finds nothing to trade: it returns no message and changes nothing. *)
Theorem execute_trades_again fuel σ msgs σ' :
  book_inv σ →
  execute_trades fuel σ = Some (Returns msgs σ') →
  ∀ fuel', execute_trades (S fuel') σ' = Some (Returns [] σ').
Proof.
  intros Hinv H fuel'. apply execute_trades_loop_of in H.
  destruct (loop_inv _ _ _ Hinv H) as (_ & E & _).
  unfold execute_trades. by rewrite execute_trades_loop_S, E.
Qed.

Lemma execute_trades_again_witness :
  book_inv book_two_buys_one_sell
  ∧ execute_trades 3 book_two_buys_one_sell
    = Some (Returns [TRADE 1 3 5 "100"] (matched 3 book_two_buys_one_sell))
  ∧ ∀ fuel', execute_trades (S fuel') (matched 3 book_two_buys_one_sell)
             = Some (Returns [] (matched 3 book_two_buys_one_sell)).
Proof.
  assert (H : execute_trades 3 book_two_buys_one_sell
              = Some (Returns [TRADE 1 3 5 "100"]
                        (matched 3 book_two_buys_one_sell)))
    by (vm_compute; reflexivity).
  split; [apply book_two_buys_one_sell_inv|]. split; [exact H|].
  exact (execute_trades_again 3 _ _ _ book_two_buys_one_sell_inv H).
Defined.


(** ** The orders of a filling pass *)

(** The heads of the two best levels are different objects. *)
Lemma heads_differ σ bb ba bl al pb rb pa ra :
  book_inv σ →
  OrderBook.price_map true (book σ) !! bb = Some bl →
  OrderBook.price_map false (book σ) !! ba = Some al →
  PriceLevel.orders bl = pb :: rb →
  PriceLevel.orders al = pa :: ra →
  (pb ∉ pa :: ra) ∧ (pa ∉ pb :: rb).
Proof.
  intros Hinv Hbl Hal Eb Ea.
  pose proof (inv_levels _ Hinv true _ _ Hbl) as Hokb.
  pose proof (inv_levels _ Hinv false _ _ Hal) as Hoka.
  split; intros Hin.
  - rewrite <- Ea in Hin.
    destruct (level_ok_member _ _ _ _ _ _ Hoka Hin) as (o & Ho & Hs & _).
    destruct (level_ok_front _ _ _ _ _ _ _ Hokb Eb) as (o' & Ho' & Hs' & _).
    congruence.
  - rewrite <- Eb in Hin.
    destruct (level_ok_member _ _ _ _ _ _ Hokb Hin) as (o & Ho & Hs & _).
    destruct (level_ok_front _ _ _ _ _ _ _ Hoka Ea) as (o' & Ho' & Hs' & _).
    congruence.
Qed.

(** X13.  A filling pass trades between the order at the head of the queue
    of the best bid and the one at the head of the queue of the best ask.
    It lowers the quantity of both by the traded quantity and writes no
    other order.  An order that keeps a quantity stays at the head of its
    queue; one that is exhausted is in no queue afterwards. *)
Theorem fill_keeps_unfilled_head σ msg σ' :
  book_inv σ →
  iterate σ = Fill msg σ' →
  ∃ pb pa bo ao,
    head_order σ true (OrderBook.get_best_bid (book σ)) pb
    ∧ head_order σ false (OrderBook.get_best_ask (book σ)) pa
    ∧ heap σ !! pb = Some bo ∧ heap σ !! pa = Some ao
    ∧ msg = TRADE (Order.id bo) (Order.id ao)
              (Z.min (Order.quantity bo) (Order.quantity ao))
              (stream_double (OrderBook.get_best_ask (book σ)))
    ∧ heap σ' !! pb
      = Some (Order.set_quantity (Order.quantity bo - trade_qty msg) bo)
    ∧ heap σ' !! pa
      = Some (Order.set_quantity (Order.quantity ao - trade_qty msg) ao)
    ∧ (∀ x, x ≠ pb → x ≠ pa → heap σ' !! x = heap σ !! x)
    ∧ (trade_qty msg < Order.quantity bo →
       head_order σ' true (OrderBook.get_best_bid (book σ)) pb)
    ∧ (trade_qty msg < Order.quantity ao →
       head_order σ' false (OrderBook.get_best_ask (book σ)) pa)
    ∧ (∀ p buy prc lvl,
         p = pb ∧ trade_qty msg = Order.quantity bo
         ∨ p = pa ∧ trade_qty msg = Order.quantity ao →
         OrderBook.price_map buy (book σ') !! prc = Some lvl →
         p ∉ PriceLevel.orders lvl).
Proof.
  intros Hinv H.
  destruct (iterate_Fill_sides _ _ _ Hinv H)
    as (bl & al & pb & rb & pa & ra & bo & ao & Hbl & Hal & Eb & Ea & Hbo & Hao
        & Hmsg & Hheap & Hb & Ha).
  destruct (heads_differ _ _ _ _ _ _ _ _ _ Hinv Hbl Hal Eb Ea) as [Hne _].
  assert (pb ≠ pa) as Hpp by (intros ->; apply Hne; by left).
  assert (heap σ' !! pb
          = Some (Order.set_quantity (Order.quantity bo - trade_qty msg) bo)) as Hpb.
  { rewrite Hheap, lookup_insert_ne by done. apply lookup_insert_eq. }
  assert (heap σ' !! pa
          = Some (Order.set_quantity (Order.quantity ao - trade_qty msg) ao)) as Hpa.
  { rewrite Hheap. apply lookup_insert_eq. }
  exists pb, pa, bo, ao. split_and!; try done.
  - by exists bl, rb.
  - by exists al, ra.
  - intros x Hx1 Hx2. rewrite Hheap. by rewrite !lookup_insert_ne.
  - intros Hlt. unfold head_order. rewrite Hb.
    rewrite decide_False by (intros [? _]; lia).
    rewrite lookup_insert_eq. eexists _, rb. split; [done|]. simpl.
    rewrite decide_False; [done|lia].
  - intros Hlt. unfold head_order. rewrite Ha.
    rewrite decide_False by (intros [? _]; lia).
    rewrite lookup_insert_eq. eexists _, ra. split; [done|]. simpl.
    rewrite decide_False; [done|lia].
  - intros p buy prc lvl Hp Hl Hin.
    pose proof (iterate_ok _ Hinv) as Hok. rewrite H in Hok.
    destruct Hok as (Hinv' & _).
    destruct (level_ok_member _ _ _ _ _ _ (inv_levels _ Hinv' buy _ _ Hl) Hin)
      as (o & Ho & _ & _ & Hq & _).
    destruct Hp as [[-> Eq]|[-> Eq]].
    + rewrite Hpb in Ho. injection Ho as <-. simpl in Hq. lia.
    + rewrite Hpa in Ho. injection Ho as <-. simpl in Hq. lia.
Qed.

Lemma fill_keeps_unfilled_head_witness :
  book_inv book_two_buys_one_sell
  ∧ iterate book_two_buys_one_sell
    = Fill (TRADE 1 3 5 "100") (matched 3 book_two_buys_one_sell)
  ∧ ∃ pb pa bo ao,
    head_order book_two_buys_one_sell true
      (OrderBook.get_best_bid (book book_two_buys_one_sell)) pb
    ∧ head_order book_two_buys_one_sell false
        (OrderBook.get_best_ask (book book_two_buys_one_sell)) pa
    ∧ heap book_two_buys_one_sell !! pb = Some bo
    ∧ heap book_two_buys_one_sell !! pa = Some ao
    ∧ TRADE 1 3 5 "100"
      = TRADE (Order.id bo) (Order.id ao)
          (Z.min (Order.quantity bo) (Order.quantity ao))
          (stream_double (OrderBook.get_best_ask (book book_two_buys_one_sell)))
    ∧ heap (matched 3 book_two_buys_one_sell) !! pb
      = Some (Order.set_quantity
                (Order.quantity bo - trade_qty (TRADE 1 3 5 "100")) bo)
    ∧ heap (matched 3 book_two_buys_one_sell) !! pa
      = Some (Order.set_quantity
                (Order.quantity ao - trade_qty (TRADE 1 3 5 "100")) ao)
    ∧ (∀ x, x ≠ pb → x ≠ pa →
            heap (matched 3 book_two_buys_one_sell) !! x
            = heap book_two_buys_one_sell !! x)
    ∧ (trade_qty (TRADE 1 3 5 "100") < Order.quantity bo →
       head_order (matched 3 book_two_buys_one_sell) true
         (OrderBook.get_best_bid (book book_two_buys_one_sell)) pb)
    ∧ (trade_qty (TRADE 1 3 5 "100") < Order.quantity ao →
       head_order (matched 3 book_two_buys_one_sell) false
         (OrderBook.get_best_ask (book book_two_buys_one_sell)) pa)
    ∧ (∀ p buy prc lvl,
         p = pb ∧ trade_qty (TRADE 1 3 5 "100") = Order.quantity bo
         ∨ p = pa ∧ trade_qty (TRADE 1 3 5 "100") = Order.quantity ao →
         OrderBook.price_map buy (book (matched 3 book_two_buys_one_sell)) !! prc
         = Some lvl →
         p ∉ PriceLevel.orders lvl).
Proof.
  assert (H : iterate book_two_buys_one_sell
              = Fill (TRADE 1 3 5 "100") (matched 3 book_two_buys_one_sell))
    by (vm_compute; reflexivity).
  split; [apply book_two_buys_one_sell_inv|]. split; [exact H|].
  exact (fill_keeps_unfilled_head _ _ _ book_two_buys_one_sell_inv H).
Defined.


(** ** The index after a filling pass *)

(** The order whose id the pass erases for an exhausted head is one of the
    orders of that queue. *)
Lemma slot_order h n buy prc lvl p rest :
  level_ok h n buy prc lvl →
  PriceLevel.orders lvl = p :: rest →
  ∃ ox, default p (head rest) ∈ p :: rest
        ∧ h !! default p (head rest) = Some ox.
Proof.
  intros Hok E.
  assert (default p (head rest) ∈ PriceLevel.orders lvl) as Hin.
  { rewrite E. destruct rest as [|x rest]; simpl; [by left|right; by left]. }
  destruct (level_ok_member _ _ _ _ _ _ Hok Hin) as (ox & Hox & _).
  exists ox. by rewrite <- E.
Qed.

(** X14.  When a filling pass exhausts the order at the head of a queue
    that holds a second order, it is the id of the second order that
    leaves [order_id_map]: that order is then the head of the queue with
    its quantity untouched, and [cancel_order] of its id throws "Order not
    found"; the entry of the exhausted order is as it was. *)
Theorem fill_unindexes_next_order σ msg σ' (buy : bool) lvl p p2 rest o o2 :
  book_inv σ → ids_inv σ →
  iterate σ = Fill msg σ' →
  OrderBook.price_map buy (book σ)
    !! (if buy then OrderBook.get_best_bid (book σ)
        else OrderBook.get_best_ask (book σ)) = Some lvl →
  PriceLevel.orders lvl = p :: p2 :: rest →
  heap σ !! p = Some o → heap σ !! p2 = Some o2 →
  Order.quantity o = trade_qty msg →
  OrderBook.order_id_map (book σ') !! Order.id o2 = None
  ∧ head_order σ' buy (if buy then OrderBook.get_best_bid (book σ)
                       else OrderBook.get_best_ask (book σ)) p2
  ∧ heap σ' !! p2 = Some o2
  ∧ cancel_order σ' (Order.id o2) = Throws (runtime_error "Order not found") σ'
  ∧ OrderBook.order_id_map (book σ') !! Order.id o
    = OrderBook.order_id_map (book σ) !! Order.id o.
Proof.
  intros Hinv [_ Hinj] H Hl El Ho Ho2 Eq.
  destruct (iterate_Fill_sides _ _ _ Hinv H)
    as (bl & al & pb & rb & pa & ra & bo & ao & Hbl & Hal & Eb & Ea & Hbo & Hao
        & Hmsg & Hheap & Hb & Ha).
  destruct (heads_differ _ _ _ _ _ _ _ _ _ Hinv Hbl Hal Eb Ea) as [Hnb Hna].
  pose proof (inv_levels _ Hinv true _ _ Hbl) as Hokb.
  pose proof (inv_levels _ Hinv false _ _ Hal) as Hoka.
  destruct (slot_order _ _ _ _ _ _ _ Hokb Eb) as (oxb & Hxb & Hoxb).
  destruct (slot_order _ _ _ _ _ _ _ Hoka Ea) as (oxa & Hxa & Hoxa).
  assert (OrderBook.order_id_map (book σ')
          = let ix1 := if decide (Order.quantity bo = trade_qty msg)
                       then delete (Order.id oxb) (OrderBook.order_id_map (book σ))
                       else OrderBook.order_id_map (book σ) in
            if decide (Order.quantity ao = trade_qty msg)
            then delete (Order.id oxa) ix1 else ix1) as Hix.
  { destruct (iterate_Fill_effect _ _ _ Hinv H)
      as (bl0 & al0 & pb0 & rb0 & pa0 & ra0 & bo0 & ao0 & Heff).
    cbv zeta in Heff.
    destruct Heff as (Hbl0 & Hal0 & Eb0 & Ea0 & Hbo0 & Hao0 & _ & Hmsg0 & ->).
    rewrite Hbl in Hbl0. injection Hbl0 as <-.
    rewrite Hal in Hal0. injection Hal0 as <-.
    rewrite Eb in Eb0. injection Eb0 as <- <-.
    rewrite Ea in Ea0. injection Ea0 as <- <-.
    rewrite Hbo in Hbo0. injection Hbo0 as <-.
    rewrite Hao in Hao0. injection Hao0 as <-.
    cbn [book]. autorewrite with book. by rewrite Hoxb, Hoxa, Hmsg. }
  cbv zeta in Hix.
  pose proof (proj1 (cancel_order_not_found σ' (Order.id o2))) as Hcancel.
  destruct buy.
  - rewrite Hbl in Hl. injection Hl as <-. rewrite Eb in El.
    injection El as <- ->. rewrite Hbo in Ho. injection Ho as <-.
    simpl in Hoxb. rewrite Ho2 in Hoxb. injection Hoxb as <-.
    pose proof (lvl_nodup _ _ _ _ _ Hokb) as Hnd. rewrite Eb in Hnd.
    apply NoDup_cons in Hnd as [Hnd _].
    assert (pb ≠ p2) as Hp2 by (intros ->; apply Hnd; by left).
    assert (p2 ≠ pa) as Hp2a by (intros ->; apply Hna; right; by left).
    assert (OrderBook.order_id_map (book σ') !! Order.id o2 = None) as Hnone.
    { rewrite Hix, (decide_True (P := Order.quantity bo = _)) by done.
      destruct (decide (Order.quantity ao = _)); [|apply lookup_delete_eq].
      apply lookup_delete_None. right. apply lookup_delete_eq. }
    split_and!; auto.
    + unfold head_order. rewrite Hb.
      rewrite decide_False by (by intros [_ ?]).
      rewrite lookup_insert_eq. eexists _, rest. split; [done|]. simpl.
      by rewrite decide_True.
    + rewrite Hheap. by rewrite !lookup_insert_ne.
    + rewrite Hix, (decide_True (P := Order.quantity bo = _)) by done.
      assert (Order.id o2 ≠ Order.id bo) as Hid.
      { intros E. apply Hp2. symmetry. by eapply Hinj. }
      assert (Order.id oxa ≠ Order.id bo) as Hida.
      { intros E. apply Hnb. by rewrite <- (Hinj _ _ _ _ Hoxa Hbo E). }
      destruct (decide (Order.quantity ao = _)); by rewrite !lookup_delete_ne.
  - rewrite Hal in Hl. injection Hl as <-. rewrite Ea in El.
    injection El as <- ->. rewrite Hao in Ho. injection Ho as <-.
    simpl in Hoxa. rewrite Ho2 in Hoxa. injection Hoxa as <-.
    pose proof (lvl_nodup _ _ _ _ _ Hoka) as Hnd. rewrite Ea in Hnd.
    apply NoDup_cons in Hnd as [Hnd _].
    assert (pa ≠ p2) as Hp2 by (intros ->; apply Hnd; by left).
    assert (p2 ≠ pb) as Hp2b by (intros ->; apply Hnb; right; by left).
    assert (OrderBook.order_id_map (book σ') !! Order.id o2 = None) as Hnone.
    { rewrite Hix, (decide_True (P := Order.quantity ao = _)) by done.
      apply lookup_delete_eq. }
    split_and!; auto.
    + unfold head_order. rewrite Ha.
      rewrite decide_False by (by intros [_ ?]).
      rewrite lookup_insert_eq. eexists _, rest. split; [done|]. simpl.
      by rewrite decide_True.
    + rewrite Hheap. by rewrite !lookup_insert_ne.
    + rewrite Hix, (decide_True (P := Order.quantity ao = _)) by done.
      assert (Order.id o2 ≠ Order.id ao) as Hid.
      { intros E. apply Hp2. symmetry. by eapply Hinj. }
      assert (Order.id oxb ≠ Order.id ao) as Hidb.
      { intros E. apply Hna. by rewrite <- (Hinj _ _ _ _ Hoxb Hao E). }
      destruct (decide (Order.quantity bo = _)); by rewrite !lookup_delete_ne.
Qed.

Lemma fill_unindexes_next_order_witness :
  book_inv book_two_buys_one_sell ∧ ids_inv book_two_buys_one_sell
  ∧ iterate book_two_buys_one_sell
    = Fill (TRADE 1 3 5 "100") (matched 3 book_two_buys_one_sell)
  ∧ OrderBook.price_map true (book book_two_buys_one_sell)
      !! OrderBook.get_best_bid (book book_two_buys_one_sell)
    = Some (PriceLevel.mk (of_int 100) [1%positive; 2%positive] 10)
  ∧ heap book_two_buys_one_sell !! 1%positive
    = Some (Order.mk 1 true 5 (of_int 100) 1)
  ∧ heap book_two_buys_one_sell !! 2%positive
    = Some (Order.mk 2 true 5 (of_int 100) 2)
  ∧ OrderBook.order_id_map (book (matched 3 book_two_buys_one_sell)) !! 2 = None
  ∧ head_order (matched 3 book_two_buys_one_sell) true
      (OrderBook.get_best_bid (book book_two_buys_one_sell)) 2%positive
  ∧ heap (matched 3 book_two_buys_one_sell) !! 2%positive
    = Some (Order.mk 2 true 5 (of_int 100) 2)
  ∧ cancel_order (matched 3 book_two_buys_one_sell) 2
    = Throws (runtime_error "Order not found") (matched 3 book_two_buys_one_sell)
  ∧ OrderBook.order_id_map (book (matched 3 book_two_buys_one_sell)) !! 1
    = OrderBook.order_id_map (book book_two_buys_one_sell) !! 1.
Proof.
  assert (H : iterate book_two_buys_one_sell
              = Fill (TRADE 1 3 5 "100") (matched 3 book_two_buys_one_sell))
    by (vm_compute; reflexivity).
  assert (Hl : OrderBook.price_map true (book book_two_buys_one_sell)
                 !! OrderBook.get_best_bid (book book_two_buys_one_sell)
               = Some (PriceLevel.mk (of_int 100) [1%positive; 2%positive] 10))
    by (vm_compute; reflexivity).
  assert (H1 : heap book_two_buys_one_sell !! 1%positive
               = Some (Order.mk 1 true 5 (of_int 100) 1))
    by (vm_compute; reflexivity).
  assert (H2 : heap book_two_buys_one_sell !! 2%positive
               = Some (Order.mk 2 true 5 (of_int 100) 2))
    by (vm_compute; reflexivity).
  split; [apply book_two_buys_one_sell_inv|].
  split; [apply book_two_buys_one_sell_ids|].
  split; [exact H|]. split; [exact Hl|]. split; [exact H1|]. split; [exact H2|].
  exact (fill_unindexes_next_order book_two_buys_one_sell _ _ true
           (PriceLevel.mk (of_int 100) [1%positive; 2%positive] 10)
           1%positive 2%positive [] (Order.mk 1 true 5 (of_int 100) 1)
           (Order.mk 2 true 5 (of_int 100) 2)
           book_two_buys_one_sell_inv book_two_buys_one_sell_ids H Hl
           eq_refl H1 H2 eq_refl).
Defined.


(** ** The prices of the messages of a call *)

Lemma iterate_Fill_prices σ msg σ' buy :
  book_inv σ →
  iterate σ = Fill msg σ' →
  OrderBook.prices buy (book σ') ⊆ OrderBook.prices buy (book σ).
Proof.
  intros Hinv H.
  pose proof (iterate_ok _ Hinv) as Hok. rewrite H in Hok.
  destruct Hok as (Hinv' & _).
  destruct (iterate_Fill_sides _ _ _ Hinv H)
    as (bl & al & pb & rb & pa & ra & bo & ao & Hbl & Hal & Eb & Ea & Hbo & Hao
        & Hmsg & Hheap & Hb & Ha).
  rewrite <- (inv_dom _ Hinv' buy), <- (inv_dom _ Hinv buy).
  intros x Hx. apply elem_of_dom in Hx as [lvl Hx]. apply elem_of_dom.
  destruct buy.
  - rewrite Hb in Hx. clear Ha Hb.
    destruct (decide (_ ∧ _)).
    + apply lookup_delete_Some in Hx as [_ Hx]. eauto.
    + destruct (decide (x = OrderBook.get_best_bid (book σ))) as [->|Hne]; [eauto|].
      rewrite lookup_insert_ne in Hx by done. eauto.
  - rewrite Ha in Hx. clear Ha Hb.
    destruct (decide (_ ∧ _)).
    + apply lookup_delete_Some in Hx as [_ Hx]. eauto.
    + destruct (decide (x = OrderBook.get_best_ask (book σ))) as [->|Hne]; [eauto|].
      rewrite lookup_insert_ne in Hx by done. eauto.
Qed.

Lemma loop_prices σ msgs σ' buy :
  book_inv σ → loop σ msgs σ' →
  OrderBook.prices buy (book σ') ⊆ OrderBook.prices buy (book σ).
Proof.
  revert σ msgs σ'.
  apply (loop_inv_ind (λ σ msgs σ',
    OrderBook.prices buy (book σ') ⊆ OrderBook.prices buy (book σ))).
  - done.
  - intros σ msg σ1 msgs σ' Hinv E _ _ IH.
    etrans; [exact IH|]. by eapply iterate_Fill_prices.
Qed.

(** From a filling pass to the next one the best ask does not fall and the
    best bid does not rise. *)
Lemma iterate_Fill_best σ msg σ1 msg1 σ2 :
  book_inv σ →
  iterate σ = Fill msg σ1 →
  iterate σ1 = Fill msg1 σ2 →
  (OrderBook.get_best_ask (book σ) ≤ OrderBook.get_best_ask (book σ1))%Qc
  ∧ (OrderBook.get_best_bid (book σ1) ≤ OrderBook.get_best_bid (book σ))%Qc.
Proof.
  intros Hinv E E1.
  pose proof (iterate_ok _ Hinv) as Hok. rewrite E in Hok.
  destruct Hok as (Hinv1 & _).
  assert (iterate σ1 ≠ Break) as Hnb by (by rewrite E1).
  assert (OrderBook.bid_prices (book σ1) ≠ ∅) as Hb.
  { intros He. apply Hnb. apply iterate_Break_iff; auto. }
  assert (OrderBook.ask_prices (book σ1) ≠ ∅) as Ha.
  { intros He. apply Hnb. apply iterate_Break_iff; auto. }
  destruct (get_best_bid_max _ Hb) as [Hinb _].
  destruct (get_best_ask_min _ Ha) as [Hina _].
  apply (iterate_Fill_prices _ _ _ true Hinv E) in Hinb.
  apply (iterate_Fill_prices _ _ _ false Hinv E) in Hina.
  assert (OrderBook.bid_prices (book σ) ≠ ∅) as Hb0.
  { intros He. simpl in Hinb. rewrite He in Hinb. by apply not_elem_of_empty in Hinb. }
  assert (OrderBook.ask_prices (book σ) ≠ ∅) as Ha0.
  { intros He. simpl in Hina. rewrite He in Hina. by apply not_elem_of_empty in Hina. }
  split.
  - by apply (get_best_ask_min _ Ha0).
  - by apply (get_best_bid_max _ Hb0).
Qed.

Lemma loop_price_range σ msgs σ' :
  book_inv σ → loop σ msgs σ' →
  ∃ asks,
    trade_price <$> msgs = stream_double <$> asks
    ∧ StronglySorted Qcle asks
    ∧ Forall (λ a, (OrderBook.get_best_ask (book σ) ≤ a)%Qc
                   ∧ (a ≤ OrderBook.get_best_bid (book σ))%Qc) asks.
Proof.
  revert σ msgs σ'.
  apply (loop_inv_ind (λ σ msgs σ',
    ∃ asks,
      trade_price <$> msgs = stream_double <$> asks
      ∧ StronglySorted Qcle asks
      ∧ Forall (λ a, (OrderBook.get_best_ask (book σ) ≤ a)%Qc
                     ∧ (a ≤ OrderBook.get_best_bid (book σ))%Qc) asks)).
  - intros σ _ _. exists []. split_and!; [done|constructor..].
  - intros σ msg σ1 msgs σ' Hinv E Hinv1 Hloop (asks & Easks & IHs & IHf).
    pose proof (iterate_Fill_price _ _ _ E) as Hp.
    assert (OrderBook.get_best_ask (book σ) ≤ OrderBook.get_best_bid (book σ))%Qc
      as Hcross.
    { destruct (iterate_Fill_effect _ _ _ Hinv E)
        as (bl & al & pb & rb & pa & ra & bo & ao & Heff).
      cbv zeta in Heff. tauto. }
    assert (Forall (λ a, (OrderBook.get_best_ask (book σ) ≤ a)%Qc
                         ∧ (a ≤ OrderBook.get_best_bid (book σ))%Qc) asks)
      as Hall.
    { inversion Hloop as [σ0 E1|σ0 σ2 ms σ3 E1 Hl|σ0 m σ2 ms σ3 E1 Hl]; subst.
      - destruct asks; [constructor|done].
      - pose proof (iterate_ok _ Hinv1) as Hok. by rewrite E1 in Hok.
      - destruct (iterate_Fill_best _ _ _ _ _ Hinv E E1) as [Ha Hb].
        eapply Forall_impl; [exact IHf|]. intros x [Hx1 Hx2]. split.
        + by eapply Qcle_trans.
        + by eapply Qcle_trans. }
    exists (OrderBook.get_best_ask (book σ) :: asks). split_and!.
    + rewrite !fmap_cons. by rewrite Hp, Easks.
    + constructor; [done|]. eapply Forall_impl; [exact Hall|].
      by intros x [Hx _].
    + constructor; [|done]. split; [apply Qcle_refl|done].
Qed.

(** X15.  The prices of the messages of a call of [execute_trades] on a
    book that satisfies the invariant are the texts of a sequence of prices
    that does not fall and that lies between the best ask and the best bid
    of the book at the call.  The call adds no price to either side. *)
Theorem execute_trades_price_range fuel σ msgs σ' :
  book_inv σ →
  execute_trades fuel σ = Some (Returns msgs σ') →
  (∃ asks,
     trade_price <$> msgs = stream_double <$> asks
     ∧ StronglySorted Qcle asks
     ∧ Forall (λ a, (OrderBook.get_best_ask (book σ) ≤ a)%Qc
                    ∧ (a ≤ OrderBook.get_best_bid (book σ))%Qc) asks)
  ∧ ∀ buy, OrderBook.prices buy (book σ') ⊆ OrderBook.prices buy (book σ).
Proof.
  intros Hinv H. apply execute_trades_loop_of in H.
  split; [by eapply loop_price_range|].
  intros buy. by eapply loop_prices.
Qed.

Lemma book_buy_two_asks_inv : book_inv book_buy_two_asks.
Proof. repeat apply added_inv. apply book_inv_initial. Qed.

Lemma execute_trades_price_range_witness :
  book_inv book_buy_two_asks
  ∧ execute_trades 3 book_buy_two_asks
    = Some (Returns [TRADE 3 1 5 "99"; TRADE 3 2 5 "100"]
              (matched 3 book_buy_two_asks))
  ∧ (∃ asks,
       trade_price <$> [TRADE 3 1 5 "99"; TRADE 3 2 5 "100"]
       = stream_double <$> asks
       ∧ StronglySorted Qcle asks
       ∧ Forall (λ a, (OrderBook.get_best_ask (book book_buy_two_asks) ≤ a)%Qc
                      ∧ (a ≤ OrderBook.get_best_bid (book book_buy_two_asks))%Qc)
                asks)
  ∧ ∀ buy, OrderBook.prices buy (book (matched 3 book_buy_two_asks))
           ⊆ OrderBook.prices buy (book book_buy_two_asks).
Proof.
  assert (H : execute_trades 3 book_buy_two_asks
              = Some (Returns [TRADE 3 1 5 "99"; TRADE 3 2 5 "100"]
                        (matched 3 book_buy_two_asks)))
    by (vm_compute; reflexivity).
  split; [apply book_buy_two_asks_inv|]. split; [exact H|].
  exact (execute_trades_price_range 3 _ _ _ book_buy_two_asks_inv H).
Defined.

(** ** The queues after a call *)

Lemma iterate_Fill_suffix σ msg σ' buy prc lvl' :
  book_inv σ →
  iterate σ = Fill msg σ' →
  OrderBook.price_map buy (book σ') !! prc = Some lvl' →
  ∃ lvl, OrderBook.price_map buy (book σ) !! prc = Some lvl
         ∧ PriceLevel.orders lvl' `suffix_of` PriceLevel.orders lvl.
Proof.
  intros Hinv H Hl.
  destruct (iterate_Fill_sides _ _ _ Hinv H)
    as (bl & al & pb & rb & pa & ra & bo & ao & Hbl & Hal & Eb & Ea & Hbo & Hao
        & Hmsg & Hheap & Hb & Ha).
  destruct buy.
  - rewrite Hb in Hl. clear Ha Hb.
    destruct (decide (_ ∧ _)).
    + apply lookup_delete_Some in Hl as [_ Hl]. eauto.
    + destruct (decide (prc = OrderBook.get_best_bid (book σ))) as [->|Hne].
      * rewrite lookup_insert_eq in Hl. injection Hl as <-.
        exists bl. split; [done|]. simpl. rewrite Eb.
        destruct (decide _); [by apply suffix_cons_r|done].
      * rewrite lookup_insert_ne in Hl by done. eauto.
  - rewrite Ha in Hl. clear Ha Hb.
    destruct (decide (_ ∧ _)).
    + apply lookup_delete_Some in Hl as [_ Hl]. eauto.
    + destruct (decide (prc = OrderBook.get_best_ask (book σ))) as [->|Hne].
      * rewrite lookup_insert_eq in Hl. injection Hl as <-.
        exists al. split; [done|]. simpl. rewrite Ea.
        destruct (decide _); [by apply suffix_cons_r|done].
      * rewrite lookup_insert_ne in Hl by done. eauto.
Qed.

Lemma loop_suffix σ msgs σ' :
  book_inv σ → loop σ msgs σ' →
  ∀ buy prc lvl',
    OrderBook.price_map buy (book σ') !! prc = Some lvl' →
    ∃ lvl, OrderBook.price_map buy (book σ) !! prc = Some lvl
           ∧ PriceLevel.orders lvl' `suffix_of` PriceLevel.orders lvl.
Proof.
  revert σ msgs σ'.
  apply (loop_inv_ind (λ σ msgs σ',
    ∀ buy prc lvl',
      OrderBook.price_map buy (book σ') !! prc = Some lvl' →
      ∃ lvl, OrderBook.price_map buy (book σ) !! prc = Some lvl
             ∧ PriceLevel.orders lvl' `suffix_of` PriceLevel.orders lvl)).
  - intros σ _ _ buy prc lvl' Hl. eauto.
  - intros σ msg σ1 msgs σ' Hinv E _ _ IH buy prc lvl' Hl.
    destruct (IH _ _ _ Hl) as (lvl1 & Hl1 & Hs1).
    destruct (iterate_Fill_suffix _ _ _ _ _ _ Hinv E Hl1) as (lvl & Hl0 & Hs).
    exists lvl. split; [done|]. by etrans.
Qed.

(** X16.  A call of [execute_trades] on a book that satisfies the
    invariant takes orders from the front of the queues only: every level
    of the book after the call is a level of the book before it, and its
    queue is what is left of the earlier queue after some of its first
    orders were removed, in the same order. *)
Theorem execute_trades_takes_from_front fuel σ msgs σ' :
  book_inv σ →
  execute_trades fuel σ = Some (Returns msgs σ') →
  ∀ buy prc lvl',
    OrderBook.price_map buy (book σ') !! prc = Some lvl' →
    ∃ lvl, OrderBook.price_map buy (book σ) !! prc = Some lvl
           ∧ PriceLevel.orders lvl' `suffix_of` PriceLevel.orders lvl.
Proof.
  intros Hinv H. apply execute_trades_loop_of in H. by eapply loop_suffix.
Qed.

Lemma execute_trades_takes_from_front_witness :
  book_inv book_two_buys_one_sell
  ∧ execute_trades 3 book_two_buys_one_sell
    = Some (Returns [TRADE 1 3 5 "100"] (matched 3 book_two_buys_one_sell))
  ∧ ∀ buy prc lvl',
      OrderBook.price_map buy (book (matched 3 book_two_buys_one_sell)) !! prc
      = Some lvl' →
      ∃ lvl, OrderBook.price_map buy (book book_two_buys_one_sell) !! prc = Some lvl
             ∧ PriceLevel.orders lvl' `suffix_of` PriceLevel.orders lvl.
Proof.
  assert (H : execute_trades 3 book_two_buys_one_sell
              = Some (Returns [TRADE 1 3 5 "100"]
                        (matched 3 book_two_buys_one_sell)))
    by (vm_compute; reflexivity).
  split; [apply book_two_buys_one_sell_inv|]. split; [exact H|].
  exact (execute_trades_takes_from_front 3 _ _ _ book_two_buys_one_sell_inv H).
Defined.


(** ** The orders behind the messages *)

Lemma pass_inv_ind (P : state → state → Prop) :
  (∀ σ, book_inv σ → P σ σ) →
  (∀ σ σ1 msg σ2,
     book_inv σ → pass σ σ1 → book_inv σ1 → P σ σ1 →
     iterate σ1 = Fill msg σ2 → P σ σ2) →
  ∀ σ σi, book_inv σ → pass σ σi → P σ σi.
Proof.
  intros Hfirst Hfill σ σi Hinv Hpass.
  induction Hpass as [σ|σ σ1 σ2 Hpass IH E|σ σ1 msg σ2 Hpass IH E].
  - by apply Hfirst.
  - pose proof (iterate_ok _ (pass_inv _ _ Hinv Hpass)) as Hok.
    by rewrite E in Hok.
  - eapply Hfill; eauto using pass_inv.
Qed.

Lemma loop_pass σ msgs σ' : loop σ msgs σ' → pass σ σ'.
Proof.
  induction 1 as [σ E|σ σ1 msgs σ' E Hloop IH|σ msg σ1 msgs σ' E Hloop IH].
  - constructor.
  - eapply pass_step; eauto.
  - eapply pass_step; eauto.
Qed.

Lemma filled_from_refl o : filled_from o o.
Proof. unfold filled_from. split_and!; [done..|lia]. Qed.

Lemma filled_from_trans o1 o2 o3 :
  filled_from o1 o2 → filled_from o2 o3 → filled_from o1 o3.
Proof.
  unfold filled_from. intros (? & ? & ? & ? & ?) (? & ? & ? & ? & ?).
  split_and!; try congruence. lia.
Qed.

(** A filling pass keeps the order objects, their ids, sides, prices and
    clients; no quantity grows. *)
Lemma iterate_Fill_filled_from σ msg σ' p :
  book_inv σ →
  iterate σ = Fill msg σ' →
  option_Forall2 filled_from (heap σ !! p) (heap σ' !! p).
Proof.
  intros Hinv H.
  pose proof (iterate_ok _ Hinv) as Hok. rewrite H in Hok.
  destruct Hok as (_ & _ & _ & Hqty & _).
  destruct (iterate_Fill_sides _ _ _ Hinv H)
    as (bl & al & pb & rb & pa & ra & bo & ao & Hbl & Hal & Eb & Ea & Hbo & Hao
        & Hmsg & Hheap & Hb & Ha).
  rewrite Hheap.
  destruct (decide (p = pa)) as [->|Hpa].
  { rewrite lookup_insert_eq, Hao. constructor.
    unfold filled_from. simpl. split_and!; [done..|lia]. }
  rewrite lookup_insert_ne by done.
  destruct (decide (p = pb)) as [->|Hpb].
  { rewrite lookup_insert_eq, Hbo. constructor.
    unfold filled_from. simpl. split_and!; [done..|lia]. }
  rewrite lookup_insert_ne by done.
  destruct (heap σ !! p); constructor. apply filled_from_refl.
Qed.

Lemma pass_filled_from σ σi :
  book_inv σ → pass σ σi →
  ∀ p, option_Forall2 filled_from (heap σ !! p) (heap σi !! p).
Proof.
  revert σ σi.
  apply (pass_inv_ind (λ σ σi,
    ∀ p, option_Forall2 filled_from (heap σ !! p) (heap σi !! p))).
  - intros σ _ p. destruct (heap σ !! p); constructor. apply filled_from_refl.
  - intros σ σ1 msg σ2 _ _ Hinv1 IH E p.
    pose proof (iterate_Fill_filled_from _ _ _ p Hinv1 E) as H12.
    specialize (IH p).
    destruct IH as [o1 o2 H1|]; inversion H12 as [o2' o3 H2|]; subst;
      constructor. by eapply filled_from_trans.
Qed.

Lemma pass_suffix σ σi :
  book_inv σ → pass σ σi →
  ∀ buy prc lvl',
    OrderBook.price_map buy (book σi) !! prc = Some lvl' →
    ∃ lvl, OrderBook.price_map buy (book σ) !! prc = Some lvl
           ∧ PriceLevel.orders lvl' `suffix_of` PriceLevel.orders lvl.
Proof.
  revert σ σi.
  apply (pass_inv_ind (λ σ σi,
    ∀ buy prc lvl',
      OrderBook.price_map buy (book σi) !! prc = Some lvl' →
      ∃ lvl, OrderBook.price_map buy (book σ) !! prc = Some lvl
             ∧ PriceLevel.orders lvl' `suffix_of` PriceLevel.orders lvl)).
  - intros σ _ buy prc lvl' Hl. eauto.
  - intros σ σ1 msg σ2 _ _ Hinv1 IH E buy prc lvl' Hl.
    destruct (iterate_Fill_suffix _ _ _ _ _ _ Hinv1 E Hl) as (lvl1 & Hl1 & Hs1).
    destruct (IH _ _ _ Hl1) as (lvl & Hl0 & Hs).
    exists lvl. split; [done|]. by etrans.
Qed.

(** X17.  Every message of a call of [execute_trades] on a book that
    satisfies the invariant names a buy order and a sell order that were
    queued when the call was made.  The price of the message is the text
    of the price of the sell order, which is not above the price of the
    buy order, and the quantity is not above the quantity that either
    order had at the call. *)
Theorem execute_trades_respects_limits fuel σ msgs σ' msg :
  book_inv σ →
  execute_trades fuel σ = Some (Returns msgs σ') →
  msg ∈ msgs →
  ∃ pb pa bo ao lb la,
    OrderBook.price_map true (book σ) !! Order.price bo = Some lb
    ∧ pb ∈ PriceLevel.orders lb ∧ heap σ !! pb = Some bo
    ∧ OrderBook.price_map false (book σ) !! Order.price ao = Some la
    ∧ pa ∈ PriceLevel.orders la ∧ heap σ !! pa = Some ao
    ∧ buy_id msg = Order.id bo ∧ sell_id msg = Order.id ao
    ∧ trade_price msg = stream_double (Order.price ao)
    ∧ (Order.price ao ≤ Order.price bo)%Qc
    ∧ 1 ≤ trade_qty msg
    ∧ trade_qty msg ≤ Order.quantity bo
    ∧ trade_qty msg ≤ Order.quantity ao.
Proof.
  intros Hinv H Hin. apply execute_trades_loop_of in H.
  destruct (loop_messages _ _ _ _ H Hin) as (σi & σj & Hpass & E).
  pose proof (pass_inv _ _ Hinv Hpass) as Hinvi.
  pose proof (iterate_ok _ Hinvi) as Hok. rewrite E in Hok.
  destruct Hok as (_ & _ & _ & Hqty & _).
  destruct (iterate_Fill_effect _ _ _ Hinvi E)
    as (bl & al & pb & rb & pa & ra & bo & ao & Heff).
  cbv zeta in Heff.
  destruct Heff as (Hbl & Hal & Eb & Ea & Hbo & Hao & Hle & Hmsg & _).
  destruct (level_ok_front _ _ _ _ _ _ _ (inv_levels _ Hinvi true _ _ Hbl) Eb)
    as (bo' & Hbo' & _ & Hpb & _).
  destruct (level_ok_front _ _ _ _ _ _ _ (inv_levels _ Hinvi false _ _ Hal) Ea)
    as (ao' & Hao' & _ & Hpa & _).
  rewrite Hbo in Hbo'. injection Hbo' as <-.
  rewrite Hao in Hao'. injection Hao' as <-.
  destruct (pass_suffix _ _ Hinv Hpass _ _ _ Hbl) as (lb & Hlb & Hsb).
  destruct (pass_suffix _ _ Hinv Hpass _ _ _ Hal) as (la & Hla & Hsa).
  pose proof (pass_filled_from _ _ Hinv Hpass pb) as Hfb.
  pose proof (pass_filled_from _ _ Hinv Hpass pa) as Hfa.
  rewrite Hbo in Hfb. rewrite Hao in Hfa.
  inversion Hfb as [bo0 ? (Hb1 & Hb2 & Hb3 & Hb4 & Hb5) Hbo0|]; subst.
  inversion Hfa as [ao0 ? (Ha1 & Ha2 & Ha3 & Ha4 & Ha5) Hao0|]; subst.
  exists pb, pa, bo0, ao0, lb, la. simpl in *.
  rewrite <- Hb3, <- Ha3, Hpb, Hpa, <- Hb1, <- Ha1.
  split_and!; try done; try lia.
  - destruct Hsb as [k ->]. rewrite Eb. apply elem_of_app. right. by left.
  - destruct Hsa as [k ->]. rewrite Ea. apply elem_of_app. right. by left.
Qed.

Lemma execute_trades_respects_limits_witness :
  book_inv book_buy_two_asks
  ∧ execute_trades 3 book_buy_two_asks
    = Some (Returns [TRADE 3 1 5 "99"; TRADE 3 2 5 "100"]
              (matched 3 book_buy_two_asks))
  ∧ TRADE 3 2 5 "100"
    ∈ [TRADE 3 1 5 "99"; TRADE 3 2 5 "100"]
  ∧ ∃ pb pa bo ao lb la,
    OrderBook.price_map true (book book_buy_two_asks) !! Order.price bo = Some lb
    ∧ pb ∈ PriceLevel.orders lb ∧ heap book_buy_two_asks !! pb = Some bo
    ∧ OrderBook.price_map false (book book_buy_two_asks) !! Order.price ao = Some la
    ∧ pa ∈ PriceLevel.orders la ∧ heap book_buy_two_asks !! pa = Some ao
    ∧ buy_id (TRADE 3 2 5 "100") = Order.id bo
    ∧ sell_id (TRADE 3 2 5 "100") = Order.id ao
    ∧ trade_price (TRADE 3 2 5 "100") = stream_double (Order.price ao)
    ∧ (Order.price ao ≤ Order.price bo)%Qc
    ∧ 1 ≤ trade_qty (TRADE 3 2 5 "100")
    ∧ trade_qty (TRADE 3 2 5 "100") ≤ Order.quantity bo
    ∧ trade_qty (TRADE 3 2 5 "100") ≤ Order.quantity ao.
Proof.
  assert (H : execute_trades 3 book_buy_two_asks
              = Some (Returns [TRADE 3 1 5 "99"; TRADE 3 2 5 "100"]
                        (matched 3 book_buy_two_asks)))
    by (vm_compute; reflexivity).
  assert (Hin : TRADE 3 2 5 "100"
                ∈ [TRADE 3 1 5 "99"; TRADE 3 2 5 "100"])
    by (constructor 2; constructor 1).
  split; [apply book_buy_two_asks_inv|]. split; [exact H|]. split; [exact Hin|].
  exact (execute_trades_respects_limits 3 _ _ _ _ book_buy_two_asks_inv H Hin).
Defined.


(** ** Order objects along sequences of calls *)

Lemma add_order_heap σ buy q prc c i σ' :
  add_order σ buy q prc c = Returns i σ' →
  ∃ p, heap σ !! p = None
       ∧ heap σ' = <[p := Order.mk i buy q prc c]> (heap σ).
Proof.
  unfold add_order. intros H.
  case_decide; [done|].
  destruct (int _) as [n|] eqn:Hint; [|done].
  exists (fresh (dom (heap σ))).
  split; [apply not_elem_of_dom, is_fresh|].
  destruct (OrderBook.price_map buy (book σ) !! prc);
    destruct (PriceLevel.add_order _ _ _); by simplify_eq.
Qed.

Lemma run_filled_from σ ids σ' :
  book_inv σ → run σ ids σ' →
  ∀ p o, heap σ !! p = Some o →
         ∃ o', heap σ' !! p = Some o' ∧ filled_from o o'.
Proof.
  intros Hinv Hrun.
  induction Hrun as
    [σ
    |σ ids σ1 buy q prc c i σ2 Hrun IH Hadd
    |σ ids σ1 buy q prc c e σ2 Hrun IH Hadd
    |σ ids σ1 k σ2 Hrun IH Hc
    |σ ids σ1 k e σ2 Hrun IH Hc
    |σ ids σ1 fuel msgs σ2 Hrun IH Hm];
    intros p o Hp.
  - exists o. split; [done|apply filled_from_refl].
  - destruct (IH Hinv _ _ Hp) as (o1 & Ho1 & Hf).
    destruct (add_order_heap _ _ _ _ _ _ _ Hadd) as (x & Hx & Hheap).
    exists o1. split; [|done]. rewrite Hheap, lookup_insert_ne; [done|].
    intros ->. congruence.
  - apply add_order_throws in Hadd as (_ & _ & ->). eauto.
  - apply cancel_order_heap in Hc. rewrite Hc. eauto.
  - apply cancel_order_throws in Hc as ->. eauto.
  - destruct (IH Hinv _ _ Hp) as (o1 & Ho1 & Hf).
    apply execute_trades_loop_of, loop_pass in Hm.
    pose proof (pass_filled_from _ _ (run_inv _ _ _ Hinv Hrun) Hm p) as H12.
    rewrite Ho1 in H12. inversion H12 as [? o2 Hf2 |]; subst.
    exists o2. split; [done|]. by eapply filled_from_trans.
Qed.

(** X18.  Along a sequence of calls that starts from a book satisfying the
    invariant, an order object keeps its id, its side, its price and its
    client, and its quantity never grows. *)
Theorem orders_keep_their_fields σ ids σ' p o o' :
  book_inv σ →
  run σ ids σ' →
  heap σ !! p = Some o →
  heap σ' !! p = Some o' →
  filled_from o o'.
Proof.
  intros Hinv Hrun Hp Hp'.
  destruct (run_filled_from _ _ _ Hinv Hrun _ _ Hp) as (o1 & Ho1 & Hf).
  congruence.
Qed.

Lemma orders_keep_their_fields_witness :
  book_inv book_buy_two_asks
  ∧ run book_buy_two_asks [] (matched 3 book_buy_two_asks)
  ∧ heap book_buy_two_asks !! 2%positive
    = Some (Order.mk 2 false 8 (of_int 100) 2)
  ∧ heap (matched 3 book_buy_two_asks) !! 2%positive
    = Some (Order.mk 2 false 3 (of_int 100) 2)
  ∧ filled_from (Order.mk 2 false 8 (of_int 100) 2)
      (Order.mk 2 false 3 (of_int 100) 2).
Proof.
  assert (H : execute_trades 3 book_buy_two_asks
              = Some (Returns [TRADE 3 1 5 "99"; TRADE 3 2 5 "100"]
                        (matched 3 book_buy_two_asks)))
    by (vm_compute; reflexivity).
  assert (Hrun : run book_buy_two_asks [] (matched 3 book_buy_two_asks))
    by exact (run_match _ _ _ _ _ _ (run_nil _) H).
  assert (H1 : heap book_buy_two_asks !! 2%positive
               = Some (Order.mk 2 false 8 (of_int 100) 2))
    by (vm_compute; reflexivity).
  assert (H2 : heap (matched 3 book_buy_two_asks) !! 2%positive
               = Some (Order.mk 2 false 3 (of_int 100) 2))
    by (vm_compute; reflexivity).
  split; [apply book_buy_two_asks_inv|]. split; [exact Hrun|].
  split; [exact H1|]. split; [exact H2|].
  exact (orders_keep_their_fields _ _ _ _ _ _ book_buy_two_asks_inv Hrun H1 H2).
Defined.

(** X19.  In every book reached from the fresh book by a sequence of
    calls, no two order objects have the same id, no id is above the
    counter, and every entry of [order_id_map] leads to an order with the
    id of its key. *)
Theorem ids_are_unique ids σ :
  run initial ids σ →
  (∀ p1 p2 o1 o2,
     heap σ !! p1 = Some o1 → heap σ !! p2 = Some o2 →
     Order.id o1 = Order.id o2 → p1 = p2)
  ∧ (∀ p o, heap σ !! p = Some o →
            Order.id o ≤ OrderBook.current_order_id (book σ))
  ∧ (∀ k p, OrderBook.order_id_map (book σ) !! k = Some p →
            ∃ o, heap σ !! p = Some o ∧ Order.id o = k).
Proof.
  intros Hrun.
  destruct (run_ids_inv _ _ _ ids_inv_initial Hrun) as [Hle Hinj].
  pose proof (run_inv _ _ _ book_inv_initial Hrun) as Hinv.
  split_and!; [done..|].
  intros k p Hk. by destruct (inv_index _ Hinv _ _ Hk) as [_ ?].
Qed.

Lemma ids_are_unique_witness :
  run initial [1; 2] (added (added initial true 5 (of_int 100) 1)
                        true 5 (of_int 100) 2)
  ∧ (∀ p1 p2 o1 o2,
       heap (added (added initial true 5 (of_int 100) 1) true 5 (of_int 100) 2)
         !! p1 = Some o1 →
       heap (added (added initial true 5 (of_int 100) 1) true 5 (of_int 100) 2)
         !! p2 = Some o2 →
       Order.id o1 = Order.id o2 → p1 = p2)
  ∧ (∀ p o,
       heap (added (added initial true 5 (of_int 100) 1) true 5 (of_int 100) 2)
         !! p = Some o →
       Order.id o
       ≤ OrderBook.current_order_id
           (book (added (added initial true 5 (of_int 100) 1)
                    true 5 (of_int 100) 2)))
  ∧ (∀ k p,
       OrderBook.order_id_map
         (book (added (added initial true 5 (of_int 100) 1)
                  true 5 (of_int 100) 2)) !! k = Some p →
       ∃ o, heap (added (added initial true 5 (of_int 100) 1)
                    true 5 (of_int 100) 2) !! p = Some o
            ∧ Order.id o = k).
Proof.
  assert (H1 : add_order initial true 5 (of_int 100) 1
               = Returns 1 (added initial true 5 (of_int 100) 1))
    by (vm_compute; reflexivity).
  assert (H2 : add_order (added initial true 5 (of_int 100) 1)
                 true 5 (of_int 100) 2
               = Returns 2 (added (added initial true 5 (of_int 100) 1)
                              true 5 (of_int 100) 2))
    by (vm_compute; reflexivity).
  assert (Hrun : run initial [1; 2]
                   (added (added initial true 5 (of_int 100) 1)
                      true 5 (of_int 100) 2))
    by exact (run_add _ [1] _ _ _ _ _ _ _
                (run_add _ [] _ _ _ _ _ _ _ (run_nil _) H1) H2).
  split; [exact Hrun|].
  exact (ids_are_unique _ _ Hrun).
Defined.


(** ** The snapshot of a book with a price that is not an integer *)

Lemma to_ints_total (l : list Qc) :
  (∀ q, q ∈ l → is_Some (to_int q)) →
  ∃ zs, to_ints l = Some zs
        ∧ ∀ q z, q ∈ l → to_int q = Some z → z ∈ zs.
Proof.
  induction l as [|d l IH]; intros Hall; simpl.
  - exists []. split; [done|]. intros q z Hq. by apply elem_of_nil in Hq.
  - destruct (Hall d) as [z0 Hz0]; [by left|]. rewrite Hz0. simpl.
    destruct IH as (zs & -> & Hzs); [intros q Hq; apply Hall; by right|].
    simpl. exists (z0 :: zs). split; [done|].
    intros q z Hq Hz. apply elem_of_cons in Hq as [->|Hq].
    + rewrite Hz0 in Hz. injection Hz as <-. by left.
    + right. by eapply Hzs.
Qed.

Lemma print_levels_throw m l ss z :
  z ∈ l → m !! of_int z = None →
  print_levels m l ss = Throw (out_of_range "invalid unordered_map<K, T> key").
Proof.
  intros Hin Hz. revert ss.
  induction l as [|x l IH]; intros ss; [by apply elem_of_nil in Hin|].
  simpl. destruct (m !! of_int x) as [lvl|] eqn:Hx; [|done].
  apply elem_of_cons in Hin as [->|Hin]; [congruence|]. by apply IH.
Qed.

Lemma print_levels_result m l ss :
  (∃ s, print_levels m l ss = Ok s)
  ∨ print_levels m l ss = Throw (out_of_range "invalid unordered_map<K, T> key").
Proof.
  revert ss. induction l as [|x l IH]; intros ss; simpl; [eauto|].
  destruct (m !! of_int x); [apply IH|by right].
Qed.

(** X20.  When the prices of the book convert to [int] and one of them,
    truncated, is not the price of a level of its side, the snapshot throws
    [std::out_of_range] instead of returning a string. *)
Theorem snapshot_throws_on_fraction σ (buy : bool) p z :
  (∀ q, q ∈ OrderBook.bid_prices (book σ) ∪ OrderBook.ask_prices (book σ) →
        is_Some (to_int q)) →
  p ∈ OrderBook.prices buy (book σ) →
  to_int p = Some z →
  OrderBook.price_map buy (book σ) !! of_int z = None →
  get_order_book_string σ
  = Throw (out_of_range "invalid unordered_map<K, T> key").
Proof.
  intros Hall Hp Hz Hnone. unfold get_order_book_string.
  destruct (to_ints_total (elements (OrderBook.bid_prices (book σ))))
    as (bids & -> & Hbids).
  { intros q Hq. apply Hall, elem_of_union_l. by apply elem_of_elements. }
  destruct (to_ints_total (elements (OrderBook.ask_prices (book σ))))
    as (asks & Easks & Hasks).
  { intros q Hq. apply Hall, elem_of_union_r. by apply elem_of_elements. }
  destruct buy; simpl in Hp, Hnone.
  - rewrite (print_levels_throw _ _ _ z); [done| |done].
    rewrite merge_sort_Permutation. eapply Hbids; [|done].
    by apply elem_of_elements.
  - destruct (print_levels_result (OrderBook.bid_price_map (book σ))
                (merge_sort Z.ge bids) ("BIDS:" +:+ newline)) as [[s ->]| ->];
      [|done].
    rewrite Easks. apply (print_levels_throw _ _ _ z); [|done].
    rewrite merge_sort_Permutation. eapply Hasks; [|done].
    by apply elem_of_elements.
Qed.

Lemma snapshot_throws_on_fraction_witness :
  (∀ q, q ∈ OrderBook.bid_prices (book book_fractional_bid)
            ∪ OrderBook.ask_prices (book book_fractional_bid) →
        is_Some (to_int q))
  ∧ Q2Qc (199 # 2) ∈ OrderBook.prices true (book book_fractional_bid)
  ∧ to_int (Q2Qc (199 # 2)) = Some 99
  ∧ OrderBook.price_map true (book book_fractional_bid) !! of_int 99 = None
  ∧ get_order_book_string book_fractional_bid
    = Throw (out_of_range "invalid unordered_map<K, T> key").
Proof.
  assert (H1 : ∀ q, q ∈ OrderBook.bid_prices (book book_fractional_bid)
                        ∪ OrderBook.ask_prices (book book_fractional_bid) →
                    is_Some (to_int q)).
  { intros q Hq.
    assert (OrderBook.bid_prices (book book_fractional_bid)
            ∪ OrderBook.ask_prices (book book_fractional_bid)
            = {[Q2Qc (199 # 2)]}) as E by (vm_compute; reflexivity).
    rewrite E in Hq. apply elem_of_singleton in Hq as ->.
    exists 99. vm_compute. reflexivity. }
  assert (H2 : Q2Qc (199 # 2) ∈ OrderBook.prices true (book book_fractional_bid))
    by (vm_compute; reflexivity).
  assert (H3 : to_int (Q2Qc (199 # 2)) = Some 99) by (vm_compute; reflexivity).
  assert (H4 : OrderBook.price_map true (book book_fractional_bid) !! of_int 99
               = None) by (vm_compute; reflexivity).
  split; [exact H1|]. split; [exact H2|]. split; [exact H3|]. split; [exact H4|].
  exact (snapshot_throws_on_fraction book_fractional_bid true _ 99 H1 H2 H3 H4).
Defined.


(** ** Calls that fail *)

(** X21.  A [cancel_order] that throws leaves the book and the orders as
    they are.  It throws "Order not found" when the id is not a key of
    [order_id_map], and "Order not found in PriceLevel" when the id is a
    key but no order in the queue of the level at the price and side of
    its order has that id. *)
Theorem cancel_order_throw_cases σ order_id e σ' :
  cancel_order σ order_id = Throws e σ' →
  σ' = σ
  ∧ (e = runtime_error "Order not found"
     ∧ OrderBook.order_id_map (book σ) !! order_id = None
     ∨ e = runtime_error "Order not found in PriceLevel"
       ∧ ∃ p o lvl,
           OrderBook.order_id_map (book σ) !! order_id = Some p
           ∧ heap σ !! p = Some o
           ∧ OrderBook.price_map (Order.is_buy o) (book σ) !! Order.price o
             = Some lvl
           ∧ Forall (λ x, ∃ o', heap σ !! x = Some o' ∧ Order.id o' ≠ order_id)
                    (PriceLevel.orders lvl)).
Proof.
  intros H. split; [by eapply cancel_order_throws|].
  unfold cancel_order in H.
  destruct (OrderBook.order_id_map (book σ) !! order_id) as [p|] eqn:Hp;
    [|left; by simplify_eq].
  destruct (heap σ !! p) as [o|] eqn:Ho; [|done].
  destruct (OrderBook.price_map _ _ !! _) as [lvl|] eqn:Hl; [|done].
  unfold PriceLevel.remove_order in H.
  destruct (PriceLevel.erase_first _ _ _) as [[[q l]|]|] eqn:E; try done.
  - destruct (int _); done.
  - right. injection H as <- _. split; [done|].
    exists p, o, lvl. split_and!; try done. by apply erase_first_None.
Qed.

Lemma cancel_order_throw_cases_witness :
  cancel_order (matched 2 book_two_buys_one_sell) 1
  = Throws (runtime_error "Order not found in PriceLevel")
      (matched 2 book_two_buys_one_sell)
  ∧ matched 2 book_two_buys_one_sell = matched 2 book_two_buys_one_sell
  ∧ (runtime_error "Order not found in PriceLevel"
     = runtime_error "Order not found"
     ∧ OrderBook.order_id_map (book (matched 2 book_two_buys_one_sell)) !! 1 = None
     ∨ runtime_error "Order not found in PriceLevel"
       = runtime_error "Order not found in PriceLevel"
       ∧ ∃ p o lvl,
           OrderBook.order_id_map (book (matched 2 book_two_buys_one_sell)) !! 1
           = Some p
           ∧ heap (matched 2 book_two_buys_one_sell) !! p = Some o
           ∧ OrderBook.price_map (Order.is_buy o)
               (book (matched 2 book_two_buys_one_sell)) !! Order.price o
             = Some lvl
           ∧ Forall (λ x, ∃ o', heap (matched 2 book_two_buys_one_sell) !! x
                                = Some o' ∧ Order.id o' ≠ 1)
                    (PriceLevel.orders lvl)).
Proof.
  assert (H : cancel_order (matched 2 book_two_buys_one_sell) 1
              = Throws (runtime_error "Order not found in PriceLevel")
                  (matched 2 book_two_buys_one_sell))
    by (vm_compute; reflexivity).
  split; [exact H|].
  exact (cancel_order_throw_cases _ _ _ _ H).
Defined.

(** X22.  On a book that satisfies the invariant, [add_order] with a
    positive quantity and a positive price runs into a signed overflow
    exactly when the counter is [INT_MAX] or the total of the level at that
    price, plus the quantity, exceeds [INT_MAX]. *)
Theorem add_order_overflow σ is_buy quantity price client_id :
  book_inv σ →
  0 < quantity → (0 < price)%Qc →
  add_order σ is_buy quantity price client_id = Undefined
  ↔ OrderBook.current_order_id (book σ) = INT_MAX
    ∨ INT_MAX < from_option PriceLevel.total_quantity 0
                  (OrderBook.price_map is_buy (book σ) !! price) + quantity.
Proof.
  intros Hinv Hq Hp. unfold add_order.
  rewrite decide_False.
  2:{ intros [?|Hle]; [lia|]. by apply Qcle_not_lt in Hle. }
  pose proof (inv_counter _ Hinv) as Hcnt.
  assert (INT_MIN ≤ 0) as Hmin by (by vm_compute).
  unfold int at 1.
  destruct (decide (INT_MIN ≤ OrderBook.current_order_id (book σ) + 1 ≤ INT_MAX))
    as [Hc|Hc].
  2:{ split; [intros _; left; lia|done]. }
  destruct (OrderBook.price_map is_buy (book σ) !! price) as [lvl|] eqn:Hl;
    unfold PriceLevel.add_order; rewrite lookup_insert_eq; simpl.
  - pose proof (inv_levels _ Hinv is_buy _ _ Hl) as Hok.
    pose proof (level_ok_total_positive _ _ _ _ _ Hok) as Hpos.
    unfold int.
    destruct (decide (INT_MIN ≤ PriceLevel.total_quantity lvl + quantity ≤ INT_MAX))
      as [Ht|Ht]; simpl.
    + split; [done|]. intros [?|?]; lia.
    + split; [|done]. intros _. right. lia.
  - unfold int.
    destruct (decide (INT_MIN ≤ 0 + quantity ≤ INT_MAX)) as [Ht|Ht]; simpl.
    + split; [done|]. intros [?|?]; lia.
    + split; [|done]. intros _. right. lia.
Qed.

Lemma add_order_overflow_witness :
  book_inv (added initial true INT_MAX (of_int 100) 1)
  ∧ 0 < 1 ∧ (0 < of_int 100)%Qc
  ∧ (add_order (added initial true INT_MAX (of_int 100) 1) true 1 (of_int 100) 2
     = Undefined
     ↔ OrderBook.current_order_id (book (added initial true INT_MAX (of_int 100) 1))
       = INT_MAX
       ∨ INT_MAX
         < from_option PriceLevel.total_quantity 0
             (OrderBook.price_map true
                (book (added initial true INT_MAX (of_int 100) 1)) !! of_int 100)
           + 1).
Proof.
  assert (Hinv : book_inv (added initial true INT_MAX (of_int 100) 1))
    by (apply added_inv, book_inv_initial).
  assert (H1 : 0 < 1) by lia.
  assert (H2 : (0 < of_int 100)%Qc) by (vm_compute; reflexivity).
  split; [exact Hinv|]. split; [exact H1|]. split; [exact H2|].
  exact (add_order_overflow _ true 1 (of_int 100) 2 Hinv H1 H2).
Defined.


(** ** A pass that reads a freed order *)

(** An order of a queue is in no other queue of the book. *)
Lemma queued_once σ buy prc lvl p buy' prc' lvl' :
  book_inv σ →
  OrderBook.price_map buy (book σ) !! prc = Some lvl →
  p ∈ PriceLevel.orders lvl →
  OrderBook.price_map buy' (book σ) !! prc' = Some lvl' →
  p ∈ PriceLevel.orders lvl' →
  buy' = buy ∧ prc' = prc.
Proof.
  intros Hinv Hl Hp Hl' Hp'.
  destruct (level_ok_member _ _ _ _ _ _ (inv_levels _ Hinv buy _ _ Hl) Hp)
    as (o & Ho & Hs & Hprc & _).
  destruct (level_ok_member _ _ _ _ _ _ (inv_levels _ Hinv buy' _ _ Hl') Hp')
    as (o' & Ho' & Hs' & Hprc' & _).
  split; congruence.
Qed.

(** [order_id_map] holds an order exactly under the id of the order. *)
Lemma indexed_iff σ ix p o :
  book_inv σ → ids_inv σ →
  heap σ !! p = Some o →
  ix ⊆ OrderBook.order_id_map (book σ) →
  indexed ix p ↔ ix !! Order.id o = Some p.
Proof.
  intros Hinv [_ Hinj] Ho Hsub. split.
  - intros (k & q & Hk & ->).
    pose proof (lookup_weaken _ _ _ _ Hk Hsub) as Hk'.
    destruct (inv_index _ Hinv _ _ Hk') as (_ & o' & Ho' & Hid).
    assert (o' = o) as -> by congruence. by rewrite Hid.
  - intros Hk. by exists (Order.id o), p.
Qed.

Lemma index_None_iff σ ix p o :
  book_inv σ → ids_inv σ →
  heap σ !! p = Some o →
  ix ⊆ OrderBook.order_id_map (book σ) →
  ¬ indexed ix p ↔ ix !! Order.id o = None.
Proof.
  intros Hinv Hids Ho Hsub.
  rewrite (indexed_iff _ _ _ _ Hinv Hids Ho Hsub). split.
  - intros Hn. destruct (ix !! Order.id o) as [q|] eqn:Hk; [|done].
    exfalso. apply Hn. f_equal.
    pose proof (lookup_weaken _ _ _ _ Hk Hsub) as Hk'.
    destruct (inv_index _ Hinv _ _ Hk') as (_ & o' & Ho' & Hid).
    destruct Hids as [_ Hinj]. by eapply Hinj.
  - intros -> ?. done.
Qed.

Lemma fill_None_iff σ bb ba bl al pb rb pa ra bo ao :
  book_inv σ → ids_inv σ →
  OrderBook.price_map true (book σ) !! bb = Some bl →
  OrderBook.price_map false (book σ) !! ba = Some al →
  PriceLevel.orders bl = pb :: rb →
  PriceLevel.orders al = pa :: ra →
  heap σ !! pb = Some bo → heap σ !! pa = Some ao →
  fill σ bb ba bl al pb pa = None
  ↔ rb = [] ∧ Order.quantity bo ≤ Order.quantity ao
    ∧ OrderBook.order_id_map (book σ) !! Order.id bo = None
    ∨ ra = [] ∧ Order.quantity ao ≤ Order.quantity bo
      ∧ OrderBook.order_id_map (book σ) !! Order.id ao = None.
Proof.
  intros Hinv Hids Ebl Eal Eb Ea Hbo Hao.
  pose proof Hinv as [Hdom Hlvls Hcnt Hix].
  assert (Hbl := Hlvls true _ _ Ebl). assert (Hal := Hlvls false _ _ Eal).
  destruct (level_ok_front _ _ _ _ _ _ _ Hbl Eb)
    as (bo0 & Hbo0 & Hbside & Hbprc & Hbq & Hbid).
  destruct (level_ok_front _ _ _ _ _ _ _ Hal Ea)
    as (ao0 & Hao0 & Haside & Haprc & Haq & Haid).
  assert (bo0 = bo) as -> by congruence. assert (ao0 = ao) as -> by congruence.
  assert (Hne : pb ≠ pa) by (intros ->; congruence).
  set (t := Z.min (Order.quantity bo) (Order.quantity ao)).
  assert (Ht : 1 ≤ t ∧ t ≤ Order.quantity bo ∧ t ≤ Order.quantity ao)
    by (unfold t; lia).
  pose proof (level_ok_front_le_total _ _ _ _ _ _ _ _ Hbl Eb Hbo) as Hbtot.
  pose proof (level_ok_front_le_total _ _ _ _ _ _ _ _ Hal Ea Hao) as Hatot.
  pose proof (lvl_range _ _ _ _ _ Hbl) as Hbr.
  pose proof (lvl_range _ _ _ _ _ Hal) as Har.
  assert (Hpbin : pb ∈ PriceLevel.orders bl) by (rewrite Eb; by left).
  assert (Hpain : pa ∈ PriceLevel.orders al) by (rewrite Ea; by left).
  (* the owners of the two heads *)
  assert (Hnb : ¬ (holds (delete bb (OrderBook.bid_price_map (book σ))) pb
                   ∨ holds (OrderBook.ask_price_map (book σ)) pb)).
  { intros [(k & l & Hk & Hin)|(k & l & Hk & Hin)].
    - apply lookup_delete_Some in Hk as [Hkne Hk].
      destruct (queued_once σ true bb bl pb true k l Hinv Ebl Hpbin Hk Hin).
      congruence.
    - by destruct (queued_once σ true bb bl pb false k l Hinv Ebl Hpbin Hk Hin). }
  assert (Hna : ∀ bl', PriceLevel.orders bl' ⊆ PriceLevel.orders bl →
            ¬ (holds (<[bb := bl']> (OrderBook.bid_price_map (book σ))) pa
               ∨ holds (delete ba (OrderBook.ask_price_map (book σ))) pa)).
  { intros bl' Hsub [(k & l & Hk & Hin)|(k & l & Hk & Hin)].
    - destruct (decide (k = bb)) as [->|Hkne].
      + rewrite lookup_insert_eq in Hk. injection Hk as <-.
        apply Hsub in Hin.
        by destruct (queued_once σ false ba al pa true bb bl Hinv Eal Hpain Ebl Hin).
      + rewrite lookup_insert_ne in Hk by done.
        by destruct (queued_once σ false ba al pa true k l Hinv Eal Hpain Hk Hin).
    - apply lookup_delete_Some in Hk as [Hkne Hk].
      destruct (queued_once σ false ba al pa false k l Hinv Eal Hpain Hk Hin).
      congruence. }
  destruct σ as [h b]. simpl in *.
  set (bo' := Order.set_quantity (Order.quantity bo - t) bo).
  set (ao' := Order.set_quantity (Order.quantity ao - t) ao).
  set (h2 := <[pa := ao']> (<[pb := bo']> h)).
  assert (Hpb2 : h2 !! pb = Some bo').
  { unfold h2. rewrite lookup_insert_ne by done. apply lookup_insert_eq. }
  assert (Hpa2 : h2 !! pa = Some ao') by apply lookup_insert_eq.
  assert (Hids2 : ∀ x, Order.id <$> h2 !! x = Order.id <$> h !! x).
  { intros x. unfold h2.
    destruct (decide (x = pa)) as [->|?]; [by rewrite lookup_insert_eq, Hao|].
    rewrite lookup_insert_ne by done.
    destruct (decide (x = pb)) as [->|?]; [by rewrite lookup_insert_eq, Hbo|].
    by rewrite lookup_insert_ne. }
  assert (Hsome : ∀ lvl buy prc x,
            level_ok h (OrderBook.current_order_id b) buy prc lvl →
            x ∈ PriceLevel.orders lvl → is_Some (h2 !! x)).
  { intros lvl buy prc x Hok Hx.
    destruct (level_ok_member _ _ _ _ _ _ Hok Hx) as (o & Ho & _).
    specialize (Hids2 x). rewrite Ho in Hids2. destruct (h2 !! x); [by eexists|done]. }
  unfold fill. simpl. rewrite Hbo. simpl. rewrite Hao. simpl. fold t.
  assert (Hrb1 : INT_MIN ≤ Order.quantity bo - t ≤ INT_MAX) by (unfold INT_MIN; lia).
  assert (Hra1 : INT_MIN ≤ Order.quantity ao - t ≤ INT_MAX) by (unfold INT_MIN; lia).
  rewrite (sub_quantity_Some pb t h bo Hbo Hrb1). simpl.
  rewrite (sub_quantity_Some pa t _ ao); [|by rewrite lookup_insert_ne|done].
  simpl.
  rewrite int_in_range by (unfold INT_MIN; lia). simpl.
  rewrite int_in_range by (unfold INT_MIN; lia). simpl.
  fold bo' ao' h2.
  rewrite (erase_filled_eq h2 _ pb _ _ bo' Hpb2).
  2:{ simpl. rewrite Eb. simpl. intros _ x Hx. eapply Hsome; [exact Hbl|].
      rewrite Eb. right. destruct rb; simplify_eq/=. by left. }
  simpl. rewrite Eb. simpl.
  (* the bid side *)
  assert (Hob : bool_decide
                  (indexed (OrderBook.order_id_map b) pb
                   ∨ holds (delete bb (OrderBook.bid_price_map b)) pb
                   ∨ holds (OrderBook.ask_price_map b) pb) = false
                ↔ OrderBook.order_id_map b !! Order.id bo = None).
  { rewrite bool_decide_eq_false.
    rewrite <- (index_None_iff (State h b) _ pb bo Hinv Hids Hbo (reflexivity _)).
    tauto. }
  destruct (decide (Order.quantity bo - t = 0 ∧ rb = [] ∧ _ = false))
    as [(Hz & Hrb & Ho)|Hg1].
  { simpl. split; [intros _|done]. left. split_and!; [done|lia|by apply Hob]. }
  simpl.
  (* the ask side *)
  set (r1 := if decide (Order.quantity bo - t = 0)
             then (PriceLevel.set_orders rb
                     (PriceLevel.set_total (PriceLevel.total_quantity bl - t) bl),
                   delete (from_option Order.id 0 (h2 !! default pb (head rb)))
                     (OrderBook.order_id_map b))
             else (PriceLevel.set_total (PriceLevel.total_quantity bl - t) bl,
                   OrderBook.order_id_map b)).
  assert (Hr1 : PriceLevel.orders r1.1 ⊆ PriceLevel.orders bl
                ∧ r1.2 ⊆ OrderBook.order_id_map b
                ∧ r1.2 !! Order.id ao = OrderBook.order_id_map b !! Order.id ao).
  { unfold r1. destruct (decide (Order.quantity bo - t = 0)); simpl.
    - split_and!.
      + rewrite Eb. intros x Hx. by right.
      + apply delete_subseteq.
      + apply lookup_delete_ne.
        assert (default pb (head rb) ∈ PriceLevel.orders bl) as Hin.
        { rewrite Eb. destruct rb; simpl; [by left|right; by left]. }
        destruct (level_ok_member _ _ _ _ _ _ Hbl Hin) as (ox & Hox & _).
        pose proof (Hids2 (default pb (head rb))) as Hi. rewrite Hox in Hi.
        destruct (h2 !! default pb (head rb)) as [ox2|]; [|done].
        simpl in *. injection Hi as Hi. rewrite Hi.
        intros Heq. destruct Hids as [_ Hinj].
        pose proof (Hinj _ _ _ _ Hox Hao Heq) as Hpp. simpl in Hpp.
        rewrite Hpp in Hin.
        by destruct (queued_once (State h b) false ba al pa true bb bl
                       Hinv Eal Hpain Ebl Hin).
    - by rewrite Eb. }
  destruct r1 as [bl1 ix1]. simpl in Hr1. destruct Hr1 as (Hsub1 & Hix1 & Hk1).
  rewrite (erase_filled_eq h2 _ pa _ _ ao' Hpa2).
  2:{ simpl. rewrite Ea. simpl. intros _ x Hx. eapply Hsome; [exact Hal|].
      rewrite Ea. right. destruct ra; simplify_eq/=. by left. }
  simpl. rewrite Ea. simpl.
  assert (Hoa : bool_decide
                  (indexed ix1 pa
                   ∨ holds (<[bb := bl1]> (OrderBook.bid_price_map b)) pa
                   ∨ holds (delete ba (OrderBook.ask_price_map b)) pa) = false
                ↔ OrderBook.order_id_map b !! Order.id ao = None).
  { rewrite bool_decide_eq_false, <- Hk1.
    rewrite <- (index_None_iff (State h b) ix1 pa ao Hinv Hids Hao Hix1).
    specialize (Hna bl1 Hsub1). tauto. }
  destruct (decide (Order.quantity ao - t = 0 ∧ ra = [] ∧ _ = false))
    as [(Hz & Hra & Ho)|Hg2].
  { simpl. split; [intros _|done]. right. split_and!; [done|lia|by apply Hoa]. }
  simpl. split; [by destruct (decide (Order.quantity ao - t = 0))|].
  intros [(-> & Hle & Hnone)|(-> & Hle & Hnone)]; exfalso.
  - apply Hg1. split_and!; [lia|done|by apply Hob].
  - apply Hg2. split_and!; [lia|done|by apply Hoa].
Qed.


(** X23.  On a book that satisfies the invariant and whose orders have
    distinct ids, a pass of the loop of [execute_trades] reads a freed order
    exactly when the best bid is not below the best ask and one of the two
    orders at the head of the best levels is alone in its queue, is
    exhausted by the trade and is not in [order_id_map]: the erase of the
    queue frees it and [order_id_map.erase] then reads its id.  The call
    that starts with such a pass has no defined result. *)
Theorem pass_reads_freed_order σ :
  book_inv σ → ids_inv σ →
  (iterate σ = Crash
   ↔ ∃ bl al pb rb pa ra bo ao,
       (OrderBook.get_best_ask (book σ) ≤ OrderBook.get_best_bid (book σ))%Qc
       ∧ OrderBook.price_map true (book σ) !! OrderBook.get_best_bid (book σ)
         = Some bl
       ∧ OrderBook.price_map false (book σ) !! OrderBook.get_best_ask (book σ)
         = Some al
       ∧ PriceLevel.orders bl = pb :: rb
       ∧ PriceLevel.orders al = pa :: ra
       ∧ heap σ !! pb = Some bo ∧ heap σ !! pa = Some ao
       ∧ (rb = [] ∧ Order.quantity bo ≤ Order.quantity ao
          ∧ OrderBook.order_id_map (book σ) !! Order.id bo = None
          ∨ ra = [] ∧ Order.quantity ao ≤ Order.quantity bo
            ∧ OrderBook.order_id_map (book σ) !! Order.id ao = None))
  ∧ (iterate σ = Crash → ∀ fuel, execute_trades (S fuel) σ = Some Undefined).
Proof.
  intros Hinv Hids. split.
  2:{ intros E fuel. unfold execute_trades. by rewrite execute_trades_loop_S, E. }
  split.
  - intros H. unfold iterate in H.
    case_decide as Hbrk; [done|].
    change (OrderBook.bid_price_map (book σ))
      with (OrderBook.price_map true (book σ)) in H.
    change (OrderBook.ask_price_map (book σ))
      with (OrderBook.price_map false (book σ)) in H.
    destruct (OrderBook.price_map true (book σ) !! _) as [bl|] eqn:Ebl.
    2:{ exfalso.
        destruct (decide (OrderBook.bid_prices (book σ) = ∅)) as [E|E].
        - apply Hbrk. left. by apply get_best_bid_empty.
        - destruct (best_bid_level _ Hinv E) as (l & Hl & _). congruence. }
    destruct (OrderBook.price_map false (book σ) !! _) as [al|] eqn:Eal.
    2:{ exfalso.
        destruct (decide (OrderBook.ask_prices (book σ) = ∅)) as [E|E].
        - apply Hbrk. right. left. by apply get_best_ask_empty.
        - destruct (best_ask_level _ Hinv E) as (l & Hl & _). congruence. }
    destruct (PriceLevel.orders bl) as [|pb rb] eqn:Eb;
      destruct (PriceLevel.orders al) as [|pa ra] eqn:Ea; try done.
    destruct (level_ok_front _ _ _ _ _ _ _ (inv_levels _ Hinv true _ _ Ebl) Eb)
      as (bo & Hbo & _).
    destruct (level_ok_front _ _ _ _ _ _ _ (inv_levels _ Hinv false _ _ Eal) Ea)
      as (ao & Hao & _).
    destruct (fill σ _ _ bl al pb pa) as [[m s]|] eqn:Ef; [done|].
    apply (fill_None_iff σ _ _ bl al pb rb pa ra bo ao
             Hinv Hids Ebl Eal Eb Ea Hbo Hao) in Ef.
    exists bl, al, pb, rb, pa, ra, bo, ao. split_and!; try done.
    apply Qcnot_lt_le. tauto.
  - intros (bl & al & pb & rb & pa & ra & bo & ao
            & Hle & Ebl & Eal & Eb & Ea & Hbo & Hao & Hcause).
    unfold iterate.
    pose proof (lvl_positive _ _ _ _ _ (inv_levels _ Hinv true _ _ Ebl)) as Hbpos.
    pose proof (lvl_positive _ _ _ _ _ (inv_levels _ Hinv false _ _ Eal)) as Hapos.
    rewrite decide_False.
    2:{ intros [E|[E|Hlt]].
        - by apply (positive_not_minus_one _ Hbpos).
        - by apply (positive_not_minus_one _ Hapos).
        - by apply Qclt_not_le in Hlt. }
    change (OrderBook.bid_price_map (book σ))
      with (OrderBook.price_map true (book σ)).
    change (OrderBook.ask_price_map (book σ))
      with (OrderBook.price_map false (book σ)).
    rewrite Ebl, Eal, Eb, Ea.
    by rewrite (proj2 (fill_None_iff σ _ _ bl al pb rb pa ra bo ao
                         Hinv Hids Ebl Eal Eb Ea Hbo Hao) Hcause).
Qed.

Lemma pass_reads_freed_order_witness :
  book_inv (added (matched 2 book_two_buys_one_sell) false 5 (of_int 100) 4)
  ∧ ids_inv (added (matched 2 book_two_buys_one_sell) false 5 (of_int 100) 4)
  ∧ OrderBook.price_map true
      (book (added (matched 2 book_two_buys_one_sell) false 5 (of_int 100) 4))
      !! of_int 100
    = Some (PriceLevel.mk (of_int 100) [2%positive] 5)
  ∧ OrderBook.order_id_map
      (book (added (matched 2 book_two_buys_one_sell) false 5 (of_int 100) 4))
      !! 2 = None
  ∧ iterate (added (matched 2 book_two_buys_one_sell) false 5 (of_int 100) 4)
    = Crash
  ∧ ∀ fuel,
      execute_trades (S fuel)
        (added (matched 2 book_two_buys_one_sell) false 5 (of_int 100) 4)
      = Some Undefined.
Proof.
  assert (Hm : execute_trades 2 book_two_buys_one_sell
               = Some (Returns [TRADE 1 3 5 "100"]
                         (matched 2 book_two_buys_one_sell)))
    by (vm_compute; reflexivity).
  assert (Hinv : book_inv (added (matched 2 book_two_buys_one_sell)
                             false 5 (of_int 100) 4)).
  { apply added_inv.
    exact (execute_trades_inv _ _ _ _ book_two_buys_one_sell_inv Hm). }
  assert (Hids : ids_inv (added (matched 2 book_two_buys_one_sell)
                            false 5 (of_int 100) 4)).
  { apply added_ids_inv.
    exact (loop_ids_inv _ _ _ book_two_buys_one_sell_ids
             (execute_trades_loop_of _ _ _ _ Hm)). }
  assert (Hl : OrderBook.price_map true
                 (book (added (matched 2 book_two_buys_one_sell)
                          false 5 (of_int 100) 4)) !! of_int 100
               = Some (PriceLevel.mk (of_int 100) [2%positive] 5))
    by (vm_compute; reflexivity).
  assert (Hn : OrderBook.order_id_map
                 (book (added (matched 2 book_two_buys_one_sell)
                          false 5 (of_int 100) 4)) !! 2 = None)
    by (vm_compute; reflexivity).
  assert (Hc : iterate (added (matched 2 book_two_buys_one_sell)
                          false 5 (of_int 100) 4) = Crash).
  { apply (proj1 (pass_reads_freed_order _ Hinv Hids)).
    exists (PriceLevel.mk (of_int 100) [2%positive] 5),
      (PriceLevel.mk (of_int 100) [4%positive] 5),
      2%positive, [], 4%positive, [],
      (Order.mk 2 true 5 (of_int 100) 2), (Order.mk 4 false 5 (of_int 100) 4).
    split; [vm_compute; discriminate|].
    split; [vm_compute; reflexivity|].
    split; [vm_compute; reflexivity|].
    split; [reflexivity|]. split; [reflexivity|].
    split; [vm_compute; reflexivity|].
    split; [vm_compute; reflexivity|].
    left. split; [reflexivity|]. split; [simpl; lia|exact Hn]. }
  split; [exact Hinv|]. split; [exact Hids|]. split; [exact Hl|].
  split; [exact Hn|]. split; [exact Hc|].
  exact (proj2 (pass_reads_freed_order _ Hinv Hids) Hc).
Defined.
